(** * daily-tool-updates: the tool extractor (commands/parse.ts) and the
    scoring engine (commands/score.ts)

    The development embeds the two pure cores of the pipeline:
    - [Parse]: [extractTools], [finalizeTool], [detectCategory], [slugify]
      and [extractNews] of the parse command;
    - [Score]: [scoreTool] and its four sub-scorers of the score command;

    and what their callers do with the results:
    - [Rank]: the sort and the summary lists of [scoreCommand];
    - [Research]: [extractGitHubUrl] and [extractNpmPackage] of the
      research command;
    - [Build]: the safe patterns of [buildCommand];
    - [GitHub]: the first step of [fetchGitHubData], from the address to
      the owner and the repository.

    JavaScript strings are sequences of UTF-16 code units, regular
    expressions are run by a backtracking matcher written after the
    continuation semantics of ECMA-262, and the weighted total is computed
    in binary64 arithmetic with the kernel's primitive floats. *)

From Stdlib Require Import String Ascii ZArith NArith List Bool Lia Permutation.
From Stdlib Require Import PrimFloat FloatOps SpecFloat Uint63 FloatAxioms.
Import ListNotations.

Set Implicit Arguments.

(** ** JavaScript strings *)

Module JS.

(** A string is a list of UTF-16 code units. *)
Definition codeunit := N.
Definition jsstring := list codeunit.

(** ASCII literals of the source text. *)
Definition js (s : string) : jsstring :=
  map N_of_ascii (list_ascii_of_string s).

Definition cu (a : ascii) : codeunit := N_of_ascii a.

Definition eqs (a b : jsstring) : bool :=
  if list_eq_dec N.eq_dec a b then true else false.

(** LineTerminator of ECMA-262: LF, CR, LS, PS. *)
Definition is_line_terminator (c : codeunit) : bool :=
  ((c =? 10) || (c =? 13) || (c =? 8232) || (c =? 8233))%N.

(** WhiteSpace of ECMA-262: TAB, VT, FF, ZWNBSP and the category Zs. *)
Definition is_white_space (c : codeunit) : bool :=
  ((c =? 9) || (c =? 11) || (c =? 12) || (c =? 32) || (c =? 160)
   || (c =? 5760) || ((8192 <=? c) && (c <=? 8202)) || (c =? 8239)
   || (c =? 8287) || (c =? 12288) || (c =? 65279))%N.

(** What [String.prototype.trim] strips and what the class \s matches. *)
Definition is_space (c : codeunit) : bool :=
  is_white_space c || is_line_terminator c.

Fixpoint dropWhile (p : codeunit -> bool) (s : jsstring) : jsstring :=
  match s with
  | [] => []
  | c :: t => if p c then dropWhile p t else s
  end.

Fixpoint takeWhile (p : codeunit -> bool) (s : jsstring) : jsstring :=
  match s with
  | [] => []
  | c :: t => if p c then c :: takeWhile p t else []
  end.

(** [s.trim()] *)
Definition trim (s : jsstring) : jsstring :=
  rev (dropWhile is_space (rev (dropWhile is_space s))).

Definition is_upper (c : codeunit) : bool := ((65 <=? c) && (c <=? 90))%N.
Definition is_lower (c : codeunit) : bool := ((97 <=? c) && (c <=? 122))%N.
Definition is_digit (c : codeunit) : bool := ((48 <=? c) && (c <=? 57))%N.

(** [s.toLowerCase()], code unit by code unit.  A-Z go to a-z.  Two code
    units outside ASCII have a lower-case form that contains an ASCII
    letter: U+212A (Kelvin sign) gives k, and U+0130 gives i followed by
    U+0307.  Every other code unit outside ASCII is kept: its lower-case
    form stays outside ASCII, and the program looks at lower-cased text only
    through ASCII patterns (substring tests and the class [^a-z0-9]). *)
Definition lower_unit (c : codeunit) : jsstring :=
  if is_upper c then [(c + 32)%N]
  else if (c =? 8490)%N then [107%N]
  else if (c =? 304)%N then [105%N; 775%N]
  else [c].

Definition toLowerCase (s : jsstring) : jsstring := flat_map lower_unit s.

(** [s.startsWith(p)] *)
Fixpoint startsWith (s p : jsstring) {struct p} : bool :=
  match p with
  | [] => true
  | a :: p' =>
      match s with
      | [] => false
      | b :: s' => (a =? b)%N && startsWith s' p'
      end
  end.

(** [s.includes(p)] *)
Fixpoint includes (s p : jsstring) : bool :=
  startsWith s p ||
  match s with
  | [] => false
  | _ :: t => includes t p
  end.

(** [s.split(sep)] for a separator of one code unit; the result is never
    empty: the empty string splits into one empty piece. *)
Fixpoint split (sep : codeunit) (s : jsstring) : list jsstring :=
  match s with
  | [] => [[]]
  | c :: t =>
      if (c =? sep)%N then [] :: split sep t
      else match split sep t with
           | l :: ls => (c :: l) :: ls
           | [] => [[c]]
           end
  end.

(** [parts.join(sep)] *)
Fixpoint join (sep : jsstring) (parts : list jsstring) : jsstring :=
  match parts with
  | [] => []
  | [p] => p
  | p :: ps => p ++ sep ++ join sep ps
  end.

(** [s.slice(0, n)] *)
Definition slice0 (n : nat) (s : jsstring) : jsstring := firstn n s.

(** [s.replace(c, "")] with a string pattern of one code unit: only the
    first occurrence goes. *)
Fixpoint remove_first (c : codeunit) (s : jsstring) : jsstring :=
  match s with
  | [] => []
  | d :: t => if (d =? c)%N then t else d :: remove_first c t
  end.

(** [list.includes(x)] on an array of strings. *)
Definition array_includes (l : list jsstring) (x : jsstring) : bool :=
  existsb (eqs x) l.

(** Truthiness of an optional string: undefined and the empty string are
    falsy. *)
Definition truthy (o : option jsstring) : bool :=
  match o with
  | Some (_ :: _) => true
  | _ => false
  end.

(** [o || d] on an optional string. *)
Definition or_else (o : option jsstring) (d : jsstring) : jsstring :=
  match o with
  | Some (c :: t) => c :: t
  | _ => d
  end.

End JS.

Import JS.

(** ** Regular expressions *)

Module RegExp.

(** The fragment of the pattern language that the two commands use.  A
    character class, a literal character and the dot are all [Chr] with the
    set as a predicate; [Group i] is the i-th capturing parenthesis. *)
Inductive regex : Type :=
| Empty : regex
| Chr : (codeunit -> bool) -> regex
| Seq : regex -> regex -> regex
| Alt : regex -> regex -> regex
| Star : bool -> regex -> regex
| Opt : bool -> regex -> regex
| Group : nat -> regex -> regex
| Bol : regex
| Eol : regex
| Ahead : regex -> regex.

(** r+ and r+? : one r, then r* (r*?). *)
Definition Plus (greedy : bool) (r : regex) : regex := Seq r (Star greedy r).

(** The state of a match: the input still to read and the captures. *)
Record MatchState : Type := mkState {
  rest : jsstring;
  caps : list (nat * jsstring)
}.

Fixpoint groups_of (r : regex) : list nat :=
  match r with
  | Empty | Chr _ | Bol | Eol => []
  | Seq a b | Alt a b => groups_of a ++ groups_of b
  | Star _ a | Opt _ a | Ahead a => groups_of a
  | Group i a => i :: groups_of a
  end.

Definition drop_caps (gs : list nat) (cs : list (nat * jsstring)) :=
  filter (fun p => negb (existsb (Nat.eqb (fst p)) gs)) cs.

(** Entering a quantified atom resets the captures inside it. *)
Definition clear (r : regex) (x : MatchState) : MatchState :=
  mkState (rest x) (drop_caps (groups_of r) (caps x)).

Definition orelse (A : Type) (a b : option A) : option A :=
  match a with
  | Some _ => a
  | None => b
  end.

(** The passes of a starred atom.  [body x d] runs the atom from [x] with
    continuation [d].  A pass must consume input (an empty pass is
    refused), so the passes left are bounded by the input left: [fuel]
    starts at the length of the rest and is never short. *)
Fixpoint star_loop
    (body : MatchState -> (MatchState -> option MatchState) -> option MatchState)
    (greedy : bool) (c : MatchState -> option MatchState)
    (fuel : nat) (x : MatchState) {struct fuel} : option MatchState :=
  match fuel with
  | O => c x
  | S fuel' =>
      let d := fun y =>
        if length (rest y) <? length (rest x)
        then star_loop body greedy c fuel' y
        else None in
      if greedy then orelse (body x d) (c x) else orelse (c x) (body x d)
  end.

(** The matcher, in continuation style: [matcher n r x c] runs [r] from
    state [x] of an input of [n] code units and hands every way of
    matching to the continuation [c] in priority order, until [c] accepts
    one. *)
Fixpoint matcher (n : nat) (r : regex) (x : MatchState)
    (c : MatchState -> option MatchState) {struct r} : option MatchState :=
  match r with
  | Empty => c x
  | Chr p =>
      match rest x with
      | ch :: t => if p ch then c (mkState t (caps x)) else None
      | [] => None
      end
  | Seq a b => matcher n a x (fun y => matcher n b y c)
  | Alt a b => orelse (matcher n a x c) (matcher n b x c)
  | Star greedy a =>
      star_loop (fun x' d => matcher n a (clear a x') d) greedy c
        (length (rest x)) x
  | Opt greedy a =>
      let d := fun y =>
        if length (rest y) <? length (rest x) then c y else None in
      if greedy then orelse (matcher n a (clear a x) d) (c x)
      else orelse (c x) (matcher n a (clear a x) d)
  | Group i a =>
      matcher n a x (fun y =>
        c (mkState (rest y)
             ((i, firstn (length (rest x) - length (rest y)) (rest x))
                :: drop_caps [i] (caps y))))
  | Bol => if length (rest x) =? n then c x else None
  | Eol => match rest x with [] => c x | _ :: _ => None end
  | Ahead a =>
      match matcher n a x Some with
      | Some y => c (mkState (rest x) (caps y))
      | None => None
      end
  end.

(** The result of a successful match: the text before it, the matched
    text, the text after it, and the captures. *)
Record MatchResult : Type := mkResult {
  before : jsstring;
  matched : jsstring;
  after : jsstring;
  groups : list (nat * jsstring)
}.

(** The i-th capture, undefined when the group took no part. *)
Definition group (i : nat) (res : MatchResult) : option jsstring :=
  match find (fun p => Nat.eqb (fst p) i) (groups res) with
  | Some p => Some (snd p)
  | None => None
  end.

(** The search of RegExpBuiltinExec from the current position: try every
    start index from left to right.  [pre] is the text skipped so far, in
    reverse. *)
Fixpoint search (n : nat) (r : regex) (pre : jsstring) (s : jsstring)
    : option MatchResult :=
  match matcher n r (mkState s []) Some with
  | Some y =>
      Some (mkResult (rev pre) (firstn (length s - length (rest y)) s)
              (rest y) (caps y))
  | None =>
      match s with
      | [] => None
      | ch :: t => search n r (ch :: pre) t
      end
  end.

(** [s.match(r)] for a pattern without the g flag. *)
Definition exec (r : regex) (s : jsstring) : option MatchResult :=
  search (length s) r [] s.

(** The loop of a pattern with the g flag over the input of [n] code
    units: after a match the search goes on behind it, one code unit
    further when the match was empty.  Every round leaves less input, so
    [fuel], one more than the length of [s], is never used up. *)
Fixpoint all_matches (fuel n : nat) (r : regex) (s : jsstring)
    : list MatchResult :=
  match fuel with
  | O => []
  | S fuel' =>
      match search n r [] s with
      | None => []
      | Some res =>
          res ::
          match matched res, after res with
          | [], [] => []
          | [], _ :: t => all_matches fuel' n r t
          | _ :: _, s' => all_matches fuel' n r s'
          end
      end
  end.

(** [s.match(r)] for a pattern with the g flag: the matched texts (the
    source tests the result for null, which is the empty list here). *)
Definition match_g (r : regex) (s : jsstring) : list jsstring :=
  map matched (all_matches (S (length s)) (length s) r s).

Fixpoint replace_loop (fuel n : nat) (r : regex) (repl : jsstring)
    (s : jsstring) : jsstring :=
  match fuel with
  | O => s
  | S fuel' =>
      match search n r [] s with
      | None => s
      | Some res =>
          before res ++ repl ++
          match matched res, after res with
          | [], [] => []
          | [], ch :: t => ch :: replace_loop fuel' n r repl t
          | _ :: _, s' => replace_loop fuel' n r repl s'
          end
      end
  end.

(** [s.replace(r, repl)] for a pattern with the g flag and a replacement
    text without dollar signs. *)
Definition replace_g (r : regex) (repl : jsstring) (s : jsstring) : jsstring :=
  replace_loop (S (length s)) (length s) r repl s.

(** [s.replace(r, repl)] for a pattern without the g flag. *)
Definition replace1 (r : regex) (repl : jsstring) (s : jsstring) : jsstring :=
  match exec r s with
  | None => s
  | Some res => before res ++ repl ++ after res
  end.

(** Atoms. *)
Definition just (a : ascii) : codeunit -> bool := fun c => (c =? cu a)%N.

(** A letter under the i flag: it matches both of its ASCII cases and
    nothing else (without the u flag a code unit outside ASCII never
    folds onto an ASCII one). *)
Definition just_i (a : ascii) : codeunit -> bool :=
  fun c => (c =? cu a)%N
           || (is_upper (cu a) && (c =? cu a + 32)%N)
           || (is_lower (cu a) && (c + 32 =? cu a)%N).

Definition any_of (l : list codeunit) : codeunit -> bool :=
  fun c => existsb (N.eqb c) l.

Definition dot : codeunit -> bool := fun c => negb (is_line_terminator c).
Definition anything : codeunit -> bool := fun _ => true.
Definition word : codeunit -> bool :=
  fun c => is_upper c || is_lower c || is_digit c || (c =? 95)%N.

Fixpoint lit_with (f : ascii -> codeunit -> bool) (s : string) : regex :=
  match s with
  | EmptyString => Empty
  | String a EmptyString => Chr (f a)
  | String a s' => Seq (Chr (f a)) (lit_with f s')
  end.

(** A run of literal characters, case-sensitive and under the i flag. *)
Definition lit : string -> regex := lit_with just.
Definition lit_i : string -> regex := lit_with just_i.

End RegExp.

Import RegExp.

Declare Scope regex_scope.
Delimit Scope regex_scope with re.
Infix "~>" := Seq (at level 60, right associativity) : regex_scope.

(** ** The host: clock and library functions of the runtime *)

(** What the two commands ask of the JavaScript runtime besides strings
    and patterns.  [clock k] is the time value (milliseconds) that the k-th
    reading of the system clock returns, by [Date.now()] or [new Date()]. *)
Record Host : Type := mkHost {
  clock : nat -> float;
  toISOString : float -> jsstring;
  Date_parse : jsstring -> float;
  Number_toString : float -> jsstring
}.

(** ** The data model (models/types.ts) *)

Module Types.

Inductive ToolCategory : Type :=
| claude_plugin | claude_skill | npm_package | cli_tool | library
| framework | other.

(** The string behind each member of the union type. *)
Definition category_string (c : ToolCategory) : jsstring :=
  match c with
  | claude_plugin => js "claude-plugin"
  | claude_skill => js "claude-skill"
  | npm_package => js "npm-package"
  | cli_tool => js "cli-tool"
  | library => js "library"
  | framework => js "framework"
  | other => js "other"
  end.

Record Tool : Type := mkTool {
  name : jsstring;
  slug : jsstring;
  description : jsstring;
  installCommand : option jsstring;
  githubUrl : option jsstring;
  source : option jsstring;
  category : ToolCategory;
  extractedAt : jsstring
}.

Record GitHubData : Type := mkGitHubData {
  repoUrl : jsstring;
  stars : float;
  forks : float;
  openIssues : float;
  lastCommitDate : jsstring;
  createdAt : jsstring;
  language : jsstring;
  license : option jsstring;
  hasTests : bool;
  hasCI : bool;
  readme : option jsstring
}.

Record NpmData : Type := mkNpmData {
  packageName : jsstring;
  weeklyDownloads : float;
  version : jsstring;
  lastPublished : jsstring;
  dependencies : float;
  devDependencies : float
}.

Record WebSource : Type := mkWebSource {
  url : jsstring;
  title : jsstring;
  snippet : jsstring
}.

Record ToolResearch : Type := mkToolResearch {
  tool : Tool;
  github : option GitHubData;
  npm : option NpmData;
  webSources : list WebSource;
  researchedAt : jsstring
}.

Inductive Recommendation : Type := SKIP | WATCH | BUILD.

(** The field [tool] of a ToolScore is [scored_tool] here, and the field
    [source] of a NewsItem is [news_source]: a record of this file cannot
    reuse the field name of another. *)
Record ToolScore : Type := mkToolScore {
  scored_tool : Tool;
  research : ToolResearch;
  usefulnessScore : Z;
  qualityScore : Z;
  innovationScore : Z;
  momentumScore : Z;
  totalScore : Z;
  recommendation : Recommendation;
  notes : list jsstring;
  scoredAt : jsstring
}.

Record NewsItem : Type := mkNewsItem {
  headline : jsstring;
  summary : jsstring;
  news_source : option jsstring
}.

End Types.

Import Types.

(** ** The parse command (commands/parse.ts) *)

Module Parse.

Local Open Scope regex_scope.

Definition LF : codeunit := 10%N.
Definition bullet_dot : codeunit := 8226%N.   (* U+2022 *)
Definition en_dash : codeunit := 8211%N.      (* U+2013 *)
Definition em_dash : codeunit := 8212%N.      (* U+2014 *)

Definition ws : regex := Chr is_space.

(** [/^###\s+(.+?)(?:\s*[-<en dash><em dash>]\s*(.+))?$/] *)
Definition h3Pattern : regex :=
  Bol ~> lit "###" ~> Plus true ws ~> Group 1 (Plus false (Chr dot)) ~>
  Opt true (Star true ws ~> Chr (any_of [cu "-"; en_dash; em_dash]) ~>
            Star true ws ~> Group 2 (Plus true (Chr dot))) ~>
  Eol.

(** The classes [[\s<bullet>\-\*]], [[^*]] and [[:\s]]. *)
Definition bullet_lead (c : codeunit) : bool :=
  is_space c || any_of [bullet_dot; cu "-"; cu "*"] c.
Definition not_star (c : codeunit) : bool := negb (just "*" c).
Definition colon_or_space (c : codeunit) : bool := just ":" c || is_space c.

(** [/^[\s<bullet>\-\*]+\*\*([^*]+)\*\*[:\s]+(.+)/] *)
Definition bulletPattern : regex :=
  Bol ~> Plus true (Chr bullet_lead) ~>
  lit "**" ~> Group 1 (Plus true (Chr not_star)) ~>
  lit "**" ~> Plus true (Chr colon_or_space) ~>
  Group 2 (Plus true (Chr dot)).

Definition metadataFields : list jsstring :=
  [js "installation"; js "github"; js "application"; js "source";
   js "npm"; js "usage"; js "docs"; js "license"].

(** [/\*\*Installation:\*\*\s*`?([^`\n]+)`?/i] *)
Definition installPattern : regex :=
  lit_i "**Installation:**" ~> Star true ws ~> Opt true (Chr (just "`")) ~>
  Group 1 (Plus true (Chr (fun c => negb (just "`" c || (c =? LF)%N)))) ~>
  Opt true (Chr (just "`")).

(** [/\*\*GitHub:\*\*\s*(https?:\/\/[^\s\n]+)/i] *)
Definition githubPattern : regex :=
  lit_i "**GitHub:**" ~> Star true ws ~>
  Group 1 (lit_i "http" ~> Opt true (Chr (just_i "s")) ~> lit_i "://" ~>
           Plus true (Chr (fun c => negb (is_space c || (c =? LF)%N)))).

(** [/\*\*Application:\*\*\s*([^\n]+)/i] *)
Definition applicationPattern : regex :=
  lit_i "**Application:**" ~> Star true ws ~>
  Group 1 (Plus true (Chr (fun c => negb (c =? LF)%N))).

(** [/\*\*Source:\*\*\s*(@[\w_]+)/i] *)
Definition sourcePattern : regex :=
  lit_i "**Source:**" ~> Star true ws ~>
  Group 1 (Chr (just "@") ~> Plus true (Chr (fun c => word c || just "_" c))).

(** The i-th capture of a match in which group i takes part. *)
Definition capture (i : nat) (res : MatchResult) : jsstring :=
  match group i res with
  | Some s => s
  | None => []
  end.

Definition is_alnum (c : codeunit) : bool := is_lower c || is_digit c.

(** [/[^a-z0-9]+/g] and [/^-|-$/g] *)
Definition nonAlnumRun : regex := Plus true (Chr (fun c => negb (is_alnum c))).
Definition edgeDash : regex :=
  Alt (Bol ~> Chr (just "-")) (Chr (just "-") ~> Eol).

(** [text.toLowerCase().replace(/[^a-z0-9]+/g, "-").replace(/^-|-$/g, "")] *)
Definition slugify (text : jsstring) : jsstring :=
  replace_g edgeDash []
    (replace_g nonAlnumRun (js "-") (toLowerCase text)).

Definition detectCategory (name description : jsstring) : ToolCategory :=
  let text := toLowerCase (name ++ js " " ++ description) in
  if includes text (js "plugin") || includes text (js "claude code")
  then claude_plugin
  else if includes text (js "skill") then claude_skill
  else if includes text (js "cli") || includes text (js "command")
  then cli_tool
  else if includes text (js "framework") then framework
  else if includes text (js "npm") || includes text (js "package")
  then npm_package
  else other.

(** [Partial<Tool>] as [extractTools] fills it. *)
Record PartialTool : Type := mkPartial {
  p_name : option jsstring;
  p_slug : option jsstring;
  p_installCommand : option jsstring;
  p_githubUrl : option jsstring;
  p_source : option jsstring;
  p_extractedAt : option jsstring
}.

Section WithHost.

Variable h : Host.

(** [new Date().toISOString()] at the k-th reading of the clock. *)
Definition now_iso (k : nat) : jsstring := toISOString h (clock h k).

(** [finalizeTool]; [k] counts the readings of the clock so far, and the
    clock is read again only when the partial tool carries no time stamp. *)
Definition finalizeTool (partial : PartialTool) (description : jsstring)
    (k : nat) : Tool * nat :=
  let stamp :=
    if truthy (p_extractedAt partial)
    then (or_else (p_extractedAt partial) [], k)
    else (now_iso k, S k) in
  (mkTool
     (or_else (p_name partial) (js "Unknown"))
     (or_else (p_slug partial) (slugify (or_else (p_name partial) (js "unknown"))))
     (slice0 500 description)
     (p_installCommand partial)
     (p_githubUrl partial)
     (p_source partial)
     (detectCategory (or_else (p_name partial) []) description)
     (fst stamp),
   snd stamp).

(** The variables of [extractTools] that the loop and [saveTool] update,
    with the count of clock readings. *)
Record LoopState : Type := mkLoop {
  tools : list Tool;
  currentTool : option PartialTool;
  currentDescription : list jsstring;
  currentBlock : list jsstring;
  ticks : nat
}.

Definition set_field (o : option MatchResult) (old : option jsstring)
    : option jsstring :=
  match o with
  | Some res => Some (trim (capture 1 res))
  | None => old
  end.

(** The closure [saveTool]. *)
Definition saveTool (st : LoopState) : LoopState :=
  match currentTool st with
  | Some cur =>
      if truthy (p_name cur) then
        let blockText := join [LF] (currentBlock st) in
        let cur' :=
          mkPartial (p_name cur) (p_slug cur)
            (set_field (exec installPattern blockText) (p_installCommand cur))
            (set_field (exec githubPattern blockText) (p_githubUrl cur))
            (set_field (exec sourcePattern blockText) (p_source cur))
            (p_extractedAt cur) in
        let desc :=
          match exec applicationPattern blockText, currentDescription st with
          | Some appMatch, [] => [trim (capture 1 appMatch)]
          | _, d => d
          end in
        let (t, k) := finalizeTool cur' (join (js " ") desc) (ticks st) in
        mkLoop (tools st ++ [t]) (Some cur') desc (currentBlock st) k
      else st
  | None => st
  end.

(** A boundary line: the tool so far is saved and a new one starts. *)
Definition start_tool (st : LoopState) (nm : jsstring)
    (desc : list jsstring) : LoopState :=
  let st' := saveTool st in
  mkLoop (tools st')
    (Some (mkPartial (Some nm) (Some (slugify nm)) None None None
             (Some (now_iso (ticks st')))))
    desc [] (S (ticks st')).

(** Any other line goes to the block of the current tool, and the first
    plain one becomes the description. *)
Definition collect (st : LoopState) (line trimmed : jsstring) : LoopState :=
  match currentTool st with
  | Some _ =>
      mkLoop (tools st) (currentTool st)
        (if (0 <? length trimmed)
            && negb (startsWith trimmed (js "-"))
            && negb (startsWith trimmed (js "*"))
            && negb (startsWith trimmed (js "#"))
            && (length (currentDescription st) =? 0)
         then currentDescription st ++ [trimmed]
         else currentDescription st)
        (currentBlock st ++ [line])
        (ticks st)
  | None => st
  end.

(** The body of the loop over the lines. *)
Definition step (st : LoopState) (line : jsstring) : LoopState :=
  let trimmed := trim line in
  match exec h3Pattern trimmed with
  | Some h3Match =>
      start_tool st (trim (capture 1 h3Match))
        (if truthy (group 2 h3Match) then [trim (capture 2 h3Match)] else [])
  | None =>
      match exec bulletPattern trimmed with
      | Some bulletMatch =>
          let fieldName := toLowerCase (trim (capture 1 bulletMatch)) in
          if negb (array_includes metadataFields (remove_first (cu ":") fieldName))
          then start_tool st (trim (capture 1 bulletMatch))
                 [trim (capture 2 bulletMatch)]
          else collect st line trimmed
      | None => collect st line trimmed
      end
  end.

Definition initial (k : nat) : LoopState := mkLoop [] None [] [] k.

(** [extractTools], from a clock that was read [k] times before; the
    second component is the count of readings afterwards. *)
Definition extractTools_from (k : nat) (content : jsstring)
    : list Tool * nat :=
  let st := saveTool (fold_left step (split LF content) (initial k)) in
  (tools st, ticks st).

Definition extractTools (content : jsstring) : list Tool :=
  fst (extractTools_from 0 content).

End WithHost.

(** [/1\.\s*Key\s*News[^]*?(?=2\.|$)/i] *)
Definition newsSectionPattern : regex :=
  lit_i "1." ~> Star true ws ~> lit_i "Key" ~> Star true ws ~> lit_i "News" ~>
  Star false (Chr anything) ~> Ahead (Alt (lit_i "2.") Eol).

Definition is_mark : codeunit -> bool := any_of [bullet_dot; cu "-"; cu "*"].

(** [/[<bullet>\-\*]\s*([^<bullet>\-\*\n]+)/g] *)
Definition newsBulletPattern : regex :=
  Chr is_mark ~> Star true ws ~>
  Group 1 (Plus true (Chr (fun c => negb (is_mark c || (c =? LF)%N)))).

(** [/^[<bullet>\-\*]\s*/] *)
Definition markPattern : regex := Bol ~> Chr is_mark ~> Star true ws.

(** [text.split(":")[0] || text.slice(0, 50)] *)
Definition headline_of (text : jsstring) : jsstring :=
  match hd [] (split (cu ":") text) with
  | [] => slice0 50 text
  | c :: t => c :: t
  end.

(** The body of the forEach over the bullets. *)
Definition push_bullet (news : list NewsItem) (bullet : jsstring)
    : list NewsItem :=
  let text := trim (replace1 markPattern [] bullet) in
  if 20 <? length text
  then news ++ [mkNewsItem (headline_of text) text None]
  else news.

Definition extractNews (content : jsstring) : list NewsItem :=
  match exec newsSectionPattern content with
  | Some newsSection =>
      fold_left push_bullet (match_g newsBulletPattern (matched newsSection)) []
  | None => []
  end.

End Parse.

(** ** The score command (commands/score.ts) *)

Module Score.

Local Open Scope Z_scope.

(** *** Numbers *)

(** The scores are small integers and are kept in [Z]; the weighted total
    is computed on their binary64 values. *)
Definition to_Number (z : Z) : float := PrimFloat.of_uint63 (Uint63.of_Z z).

(** [Math.round] on a finite number: the nearest integer, the upper one at
    a tie, that is the floor of x + 1/2 computed exactly from mantissa and
    exponent.  (For NaN and the infinities [Math.round] has no integer
    result; the weighted total of four scores is always finite.) *)
Definition Math_round (x : float) : Z :=
  match Prim2SF x with
  | S754_finite s mant e =>
      let v := if s then Z.neg mant else Z.pos mant in
      if 0 <=? e then v * 2 ^ e
      else (2 * v + 2 ^ (- e)) / 2 ^ (1 - e)
  | _ => 0
  end.

(** *** The notes and the clock *)

(** The sub-scorers push onto the shared array [notes] and read the clock;
    a computation threads both. *)
Record World : Type := mkWorld {
  w_notes : list jsstring;
  w_ticks : nat
}.

Definition M (A : Type) : Type := World -> A * World.

Definition ret (A : Type) (a : A) : M A := fun w => (a, w).

Definition bind (A B : Type) (c : M A) (f : A -> M B) : M B :=
  fun w => let (a, w') := c w in f a w'.

Notation "x <- c ;; k" := (bind c (fun x => k))
  (at level 61, c at next level, right associativity).

(** [notes.push(note)] *)
Definition push (note : jsstring) : M unit :=
  fun w => (tt, mkWorld (w_notes w ++ [note]) (w_ticks w)).

(** [Date.now()] *)
Definition Date_now (h : Host) : M float :=
  fun w => (clock h (w_ticks w), mkWorld (w_notes w) (S (w_ticks w))).

(** [score += points; notes.push(note)] *)
Definition award (score points : Z) (note : jsstring) : M Z :=
  _ <- push note ;; ret (score + points).

(** [if (cond) { score += points; notes.push(note) }] *)
Definition bonus (cond : bool) (score points : Z) (note : jsstring) : M Z :=
  if cond then award score points note else ret score.

Definition clamp (score : Z) : Z := Z.min 100 (Z.max 0 score).

Definition quote : codeunit := 34%N.

Definition is_category (a b : ToolCategory) : bool :=
  match a, b with
  | claude_plugin, claude_plugin | claude_skill, claude_skill
  | npm_package, npm_package | cli_tool, cli_tool | library, library
  | framework, framework | other, other => true
  | _, _ => false
  end.

Section WithHost.

Variable h : Host.

Definition calculateUsefulnessScore (research : ToolResearch) : M Z :=
  let t := tool research in
  let text :=
    toLowerCase (name t ++ js " " ++ description t ++ js " "
                 ++ category_string (category t)) in
  score <- bonus (includes text (js "claude") || includes text (js "anthropic"))
             50 20 (js "Claude-related tool (+20)") ;;
  score <- bonus (is_category (category t) claude_plugin
                  || is_category (category t) claude_skill)
             score 15 (js "Claude plugin/skill (+15)") ;;
  score <- bonus (is_category (category t) cli_tool)
             score 10 (js "CLI tool (+10)") ;;
  score <- bonus (truthy (installCommand t))
             score 5 (js "Has install command (+5)") ;;
  ret (clamp score).

Definition calculateQualityScore (research : ToolResearch) : M Z :=
  score <-
    match github research with
    | Some g =>
        let shown := Number_toString h (stars g) in
        score <-
          (if (1000 <? stars g)%float
           then award 30 25 (js "High stars: " ++ shown ++ js " (+25)")
           else if (100 <? stars g)%float
           then award 30 15 (js "Good stars: " ++ shown ++ js " (+15)")
           else if (10 <? stars g)%float
           then award 30 5 (js "Some stars: " ++ shown ++ js " (+5)")
           else ret 30) ;;
        score <- bonus (hasTests g) score 10 (js "Has tests (+10)") ;;
        score <- bonus (hasCI g) score 5 (js "Has CI (+5)") ;;
        bonus (truthy (license g)) score 5 (js "Has license (+5)")
    | None => ret 30
    end ;;
  score <-
    match npm research with
    | Some p =>
        if (10000 <? weeklyDownloads p)%float
        then award score 15 (js "High npm downloads (+15)")
        else if (1000 <? weeklyDownloads p)%float
        then award score 10 (js "Good npm downloads (+10)")
        else ret score
    | None => ret score
    end ;;
  ret (clamp score).

Definition innovativeTerms : list jsstring :=
  [js "novel"; js "first"; js "unique"; js "new approach";
   js "revolutionary"; js "breakthrough"].

(** The for-of loop over the terms: the first term found in the text
    gives the bonus and breaks the loop. *)
Fixpoint innovative_loop (text : jsstring) (terms : list jsstring)
    (score : Z) : M Z :=
  match terms with
  | [] => ret score
  | term :: more =>
      if includes text term
      then award score 15
             (js "Innovative term: " ++ [quote] ++ term ++ [quote] ++ js " (+15)")
      else innovative_loop text more score
  end.

Definition calculateInnovationScore (research : ToolResearch) : M Z :=
  let text :=
    toLowerCase (name (tool research) ++ js " " ++ description (tool research)) in
  score <- innovative_loop text innovativeTerms 50 ;;
  score <- bonus (includes text (js "ai") || includes text (js "llm")
                  || includes text (js "agent"))
             score 10 (js "AI/LLM related (+10)") ;;
  ret (clamp score).

(** Milliseconds in a day: 1000 * 60 * 60 * 24. *)
Definition day_ms : float := 86400000%float.

Definition calculateMomentumScore (research : ToolResearch) : M Z :=
  score <-
    match github research with
    | Some g =>
        let lastCommit := Date_parse h (lastCommitDate g) in
        now <- Date_now h ;;
        let daysSinceCommit := ((now - lastCommit) / day_ms)%float in
        if (daysSinceCommit <? 7)%float
        then award 40 30 (js "Very recent activity (<7 days) (+30)")
        else if (daysSinceCommit <? 30)%float
        then award 40 20 (js "Recent activity (<30 days) (+20)")
        else if (daysSinceCommit <? 90)%float
        then award 40 10 (js "Some activity (<90 days) (+10)")
        else ret 40
    | None => ret 40
    end ;;
  score <-
    match npm research with
    | Some p =>
        let lastPublish := Date_parse h (lastPublished p) in
        now <- Date_now h ;;
        let daysSincePublish := ((now - lastPublish) / day_ms)%float in
        bonus (daysSincePublish <? 30)%float score 15
          (js "Recently published (+15)")
    | None => ret score
    end ;;
  ret (clamp score).

(** The weights of [config], as binary64 numbers: the nearest doubles of
    0.3 and 0.2. *)
#[warnings="-inexact-float"]
Definition weight_usefulness : float := 0.3%float.
#[warnings="-inexact-float"]
Definition weight_quality : float := 0.3%float.
#[warnings="-inexact-float"]
Definition weight_innovation : float := 0.2%float.
#[warnings="-inexact-float"]
Definition weight_momentum : float := 0.2%float.

Definition threshold_build : Z := 70.
Definition threshold_watch : Z := 40.

(** The weighted total of [scoreTool]. *)
Definition weighted_total (u q i mo : Z) : Z :=
  Math_round (to_Number u * weight_usefulness
              + to_Number q * weight_quality
              + to_Number i * weight_innovation
              + to_Number mo * weight_momentum)%float.

(** The if / else-if chain of [scoreTool] on the total. *)
Definition recommend (total : Z) : Recommendation :=
  if threshold_build <=? total then BUILD
  else if threshold_watch <=? total then WATCH
  else SKIP.

Definition scoreTool_M (research : ToolResearch) : M ToolScore :=
  usefulness <- calculateUsefulnessScore research ;;
  quality <- calculateQualityScore research ;;
  innovation <- calculateInnovationScore research ;;
  momentum <- calculateMomentumScore research ;;
  let total := weighted_total usefulness quality innovation momentum in
  now <- Date_now h ;;
  fun w =>
    (mkToolScore (tool research) research usefulness quality innovation
       momentum total (recommend total) (w_notes w) (toISOString h now),
     w).

(** [scoreTool]: a fresh array of notes, and the clock at its reading 0. *)
Definition scoreTool (research : ToolResearch) : ToolScore :=
  fst (scoreTool_M research (mkWorld [] 0)).

End WithHost.

End Score.

Import Parse Score.

(** ** Definitions used in the statements *)

Local Open Scope Z_scope.

(** The values each sub-scorer can return. *)
Definition usefulness_values : list Z := [50; 55; 60; 65; 70; 75; 80; 85; 90].
Definition quality_values : list Z :=
  [30; 35; 40; 45; 50; 55; 60; 65; 70; 75; 80; 85; 90].
Definition innovation_values : list Z := [50; 60; 65; 75].
Definition momentum_values : list Z := [40; 50; 55; 60; 65; 70; 75; 85].

Definition mem (v : Z) (l : list Z) : bool := existsb (Z.eqb v) l.

(** The weighted total stays within [lo, hi] on all the listed values. *)
Definition totals_within (lo hi : Z) : bool :=
  forallb (fun u =>
    forallb (fun q =>
      forallb (fun i =>
        forallb (fun mo =>
          let t := weighted_total u q i mo in (lo <=? t) && (t <=? hi))
          momentum_values)
        innovation_values)
      quality_values)
    usefulness_values.

(** The text that the innovation scorer searches. *)
Definition innovation_text (r : ToolResearch) : jsstring :=
  toLowerCase (name (tool r) ++ js " " ++ description (tool r)).

Definition has_innovative_term (r : ToolResearch) : bool :=
  existsb (includes (innovation_text r)) innovativeTerms.

(** The text that the usefulness scorer searches. *)
Definition usefulness_text (r : ToolResearch) : jsstring :=
  toLowerCase (name (tool r) ++ js " " ++ description (tool r) ++ js " "
               ++ category_string (category (tool r))).

(** A host for the examples: the clock shows k milliseconds at its k-th
    reading, a time prints as one of two stamps, and no date parses. *)
Definition example_host : Host :=
  mkHost (fun k => to_Number (Z.of_nat k))
    (fun t => if (t =? 0)%float then js "1970-01-01T00:00:00.000Z"
              else js "1970-01-01T00:00:00.001Z")
    (fun _ => nan)
    (fun _ => js "0").

Definition example_tool (nm descr : string) (cmd : option jsstring)
    (cat : ToolCategory) : Tool :=
  mkTool (js nm) (js nm) (js descr) cmd None None cat
    (js "1970-01-01T00:00:00.000Z").

Definition example_github (s : float) : GitHubData :=
  mkGitHubData (js "https://github.com/x/y") s 0%float 0%float
    (js "never") (js "never") (js "TypeScript") (Some (js "MIT")) true true None.

Definition example_npm (d : float) : NpmData :=
  mkNpmData (js "x") d (js "1.0.0") (js "never") 0%float 0%float.

(** A research record whose total is 70 (65, 90, 75 and 40 by dimension)
    and one whose total is 69 (80, 80, 65 and 40). *)
Definition research_70 : ToolResearch :=
  mkToolResearch
    (example_tool "x" "novel ai cli" (Some (js "npm i x")) cli_tool)
    (Some (example_github 5000%float)) (Some (example_npm 20000%float)) []
    (js "1970-01-01T00:00:00.000Z").

Definition research_69 : ToolResearch :=
  mkToolResearch
    (example_tool "x" "novel claude cli" None cli_tool)
    (Some (example_github 500%float)) (Some (example_npm 20000%float)) []
    (js "1970-01-01T00:00:00.000Z").

(** A plugin without enrichment data. *)
Definition research_plugin : ToolResearch :=
  mkToolResearch
    (example_tool "memo" "A Claude Code plugin for notes"
       (Some (js "npm i memo")) claude_plugin)
    None None [] (js "1970-01-01T00:00:00.000Z").

(** *** The extractor *)

(** The scenario of the digest with one tool, Aider. *)
Definition aider_lines : list jsstring :=
  [js "### Aider";
   js "An AI pair programming CLI.";
   js "**Installation:** `pip install aider`";
   js "**GitHub:** https://github.com/paul-gauthier/aider"].

Definition aider_tool (stamp : jsstring) : Tool :=
  mkTool (js "Aider") (js "aider") (js "An AI pair programming CLI.")
    (Some (js "pip install aider"))
    (Some (js "https://github.com/paul-gauthier/aider"))
    None cli_tool stamp.

(** A tool without its time stamp. *)
Definition untimed (t : Tool) : Tool :=
  mkTool (name t) (slug t) (description t) (installCommand t) (githubUrl t)
    (source t) (category t) [].

Definition untimed_partial (p : PartialTool) : PartialTool :=
  mkPartial (p_name p) (p_slug p) (p_installCommand p) (p_githubUrl p)
    (p_source p) None.

(** Two loop states that differ at most in time stamps and clock
    readings. *)
Definition same_untimed (a b : LoopState) : Prop :=
  map untimed (tools a) = map untimed (tools b)
  /\ option_map untimed_partial (currentTool a)
     = option_map untimed_partial (currentTool b)
  /\ currentDescription a = currentDescription b
  /\ currentBlock a = currentBlock b.

(** A name with its trailing colon, if any, taken off. *)
Definition strip_colon (s : jsstring) : jsstring :=
  match rev s with
  | c :: r => if (c =? cu ":")%N then rev r else s
  | [] => s
  end.

(** The name of a bullet is reserved when, lower-cased and without its
    trailing colon, it is one of the metadata fields. *)
Definition reserved_name (nm : jsstring) : bool :=
  array_includes metadataFields (strip_colon (toLowerCase nm)).

Definition github_line : jsstring := js "- **GitHub:** https://github.com/x/y".

(** The bullets of the news section, as the source finds them, and the
    text of a bullet. *)
Definition news_bullets (content : jsstring) : list jsstring :=
  match exec newsSectionPattern content with
  | Some newsSection => match_g newsBulletPattern (matched newsSection)
  | None => []
  end.

Definition bullet_text (bullet : jsstring) : jsstring :=
  trim (replace1 markPattern [] bullet).

Definition before_colon (text : jsstring) : jsstring :=
  takeWhile (fun c => negb (c =? cu ":")%N) text.

(** The news item of a bullet text: headline and summary. *)
Definition item_of (text : jsstring) : NewsItem :=
  mkNewsItem
    (match before_colon text with
     | [] => firstn 50 text
     | c :: t => c :: t
     end)
    text None.


(** A digest with a tool heading followed by the GitHub line. *)
Definition foo_digest : jsstring := join [LF] [js "### Foo"; github_line].

(** The tools saved so far all have a name. *)
Definition names_nonempty (st : LoopState) : Prop :=
  Forall (fun t => name t <> []) (tools st).

(** *** The slug, without patterns *)

Definition dash : codeunit := cu "-".
Definition not_alnum (c : codeunit) : bool := negb (is_alnum c).

(** Every run of code units other than a-z and 0-9 becomes one dash;
    [in_run] tells that the run has begun. *)
Fixpoint squeeze (in_run : bool) (s : jsstring) : jsstring :=
  match s with
  | [] => []
  | c :: t =>
      if is_alnum c then c :: squeeze false t
      else if in_run then squeeze true t
      else dash :: squeeze true t
  end.

Definition strip_first (s : jsstring) : jsstring :=
  match s with
  | c :: t => if (c =? dash)%N then t else s
  | [] => []
  end.

(** The text before a final dash, when the text ends with a dash. *)
Fixpoint last_dash (s : jsstring) : option jsstring :=
  match s with
  | [] => None
  | c :: t =>
      match t with
      | [] => if (c =? dash)%N then Some [] else None
      | _ :: _ => option_map (cons c) (last_dash t)
      end
  end.

Definition strip_last (s : jsstring) : jsstring :=
  match last_dash s with
  | Some i => i
  | None => s
  end.

(** Words of a-z and 0-9 with single dashes between them; after a dash
    ([after_dash]) the next code unit is not a dash. *)
Fixpoint dashed (after_dash : bool) (s : jsstring) : bool :=
  match s with
  | [] => true
  | c :: t =>
      if is_alnum c then dashed false t
      else (c =? dash)%N && negb after_dash && dashed true t
  end.

(** The form of a slug: dashed words, no dash at either end. *)
Definition slug_form (s : jsstring) : Prop :=
  dashed true s = true /\ last_dash s = None.

(** *** A greedy starred class, without a counter *)

(** The passes of a greedy starred class [p] before a continuation [c]:
    the longest run first, then one code unit less at a time. *)
Fixpoint star_run (p : codeunit -> bool) (c : MatchState -> option MatchState)
    (cs : list (nat * jsstring)) (t : jsstring) : option MatchState :=
  match t with
  | ch :: t' =>
      if p ch then orelse (star_run p c cs t') (c (mkState t cs))
      else c (mkState t cs)
  | [] => c (mkState [] cs)
  end.

(** A line of the bullet form: marker, bold name, separator, rest. *)
Definition bullet_form (marker nm sep rest : jsstring) : jsstring :=
  marker ++ js "**" ++ nm ++ js "**" ++ sep ++ rest.

(** The code units of a reserved name: lower-case letters and the colon
    after lower-casing, so ASCII letters, the colon, and the Kelvin sign
    (which lower-cases to k) before. *)
Definition lower_or_colon (c : codeunit) : bool := is_lower c || (c =? cu ":")%N.
Definition name_unit (c : codeunit) : bool :=
  is_upper c || is_lower c || (c =? cu ":")%N || (c =? 8490)%N.

(** ** The callers: ranking, research and build *)

(** *** The ranking of the score command (commands/score.ts) *)

Module Rank.

Local Open Scope Z_scope.

(** [scores.sort((a, b) => b.totalScore - a.totalScore)].  The sort of
    ECMAScript is stable, so the result is the one arrangement by
    descending total that keeps scores of equal total in their order;
    inserting each score, from the last to the first, in front of the
    first score that is not above it gives that arrangement. *)
Fixpoint insert_score (s : ToolScore) (l : list ToolScore) : list ToolScore :=
  match l with
  | [] => [s]
  | t :: l' =>
      if totalScore t <=? totalScore s then s :: l
      else t :: insert_score s l'
  end.

Definition sort_scores (scores : list ToolScore) : list ToolScore :=
  fold_right insert_score [] scores.

Definition is_recommendation (a b : Recommendation) : bool :=
  match a, b with
  | BUILD, BUILD | WATCH, WATCH | SKIP, SKIP => true
  | _, _ => false
  end.

(** [scores.filter((s) => s.recommendation === "BUILD")] and the like. *)
Definition builds (scores : list ToolScore) : list ToolScore :=
  filter (fun s => is_recommendation (recommendation s) BUILD) scores.
Definition watches (scores : list ToolScore) : list ToolScore :=
  filter (fun s => is_recommendation (recommendation s) WATCH) scores.
Definition skips (scores : list ToolScore) : list ToolScore :=
  filter (fun s => is_recommendation (recommendation s) SKIP) scores.

End Rank.

(** *** The research command (commands/research.ts) *)

Module Research.

Local Open Scope regex_scope.

Definition not_slash_space (c : codeunit) : bool :=
  negb (just "/" c || is_space c).

(** [/github\.com\/([^\/\s]+\/[^\/\s]+)/i] *)
Definition githubInText : regex :=
  lit_i "github.com/" ~>
  Group 1 (Plus true (Chr not_slash_space) ~> Chr (just "/") ~>
           Plus true (Chr not_slash_space)).

(** The class [[\w\-\/]]. *)
Definition path_unit (c : codeunit) : bool := word c || just "-" c || just "/" c.

(** [/[^\w\-\/]/g] *)
Definition notPathUnit : regex := Chr (fun c => negb (path_unit c)).

Definition opt_text (o : option jsstring) : jsstring := or_else o [].

Definition extractGitHubUrl (t : Tool) : option jsstring :=
  if truthy (githubUrl t) && includes (opt_text (githubUrl t)) (js "github.com/")
  then githubUrl t
  else
    let text :=
      description t ++ js " " ++ opt_text (installCommand t) ++ js " "
      ++ opt_text (source t) in
    match exec githubInText text with
    | Some githubMatch =>
        Some (js "https://github.com/"
              ++ replace_g notPathUnit [] (capture 1 githubMatch))
    | None => None
    end.

Definition not_space (c : codeunit) : bool := negb (is_space c).

(** [/npm\s+i(?:nstall)?\s+(?:-g\s+)?([^\s]+)/i] *)
Definition npmInText : regex :=
  lit_i "npm" ~> Plus true ws ~> Chr (just_i "i") ~> Opt true (lit_i "nstall") ~>
  Plus true ws ~> Opt true (lit_i "-g" ~> Plus true ws) ~>
  Group 1 (Plus true (Chr not_space)).

(** [/bun\s+add\s+([^\s]+)/i] *)
Definition bunInText : regex :=
  lit_i "bun" ~> Plus true ws ~> lit_i "add" ~> Plus true ws ~>
  Group 1 (Plus true (Chr not_space)).

Definition is_quote (c : codeunit) : bool := ((c =? 39) || (c =? 34))%N.

(** [/['<double quote>]/g] *)
Definition quotePattern : regex := Chr is_quote.

Definition extractNpmPackage (t : Tool) : option jsstring :=
  let text := opt_text (installCommand t) ++ js " " ++ description t in
  match exec npmInText text with
  | Some npmMatch => Some (replace_g quotePattern [] (capture 1 npmMatch))
  | None =>
      match exec bunInText text with
      | Some bunMatch => Some (replace_g quotePattern [] (capture 1 bunMatch))
      | None => None
      end
  end.

End Research.

(** *** The check of the build command (commands/build.ts) *)

Module Build.

Local Open Scope regex_scope.

(** The classes [[\w@\-\/\.]], [[\w\-\.]], [[\w\-\.\/\:]] and
    [[\w\-\.\/]]. *)
Definition pkg_unit (c : codeunit) : bool :=
  word c || any_of [cu "@"; cu "-"; cu "/"; cu "."] c.
Definition pip_unit (c : codeunit) : bool :=
  word c || any_of [cu "-"; cu "."] c.
Definition image_unit (c : codeunit) : bool :=
  word c || any_of [cu "-"; cu "."; cu "/"; cu ":"] c.
Definition repo_unit (c : codeunit) : bool :=
  word c || any_of [cu "-"; cu "."; cu "/"] c.

(** [(-g\s+)?] as the i-th group. *)
Definition global_flag (i : nat) : regex :=
  Opt true (Group i (lit_i "-g" ~> Plus true ws)).

Definition safePatterns : list regex :=
  [ (* /^npm\s+i(nstall)?\s+(-g\s+)?[\w@\-\/\.]+$/i *)
    Bol ~> lit_i "npm" ~> Plus true ws ~> Chr (just_i "i") ~>
    Opt true (Group 1 (lit_i "nstall")) ~> Plus true ws ~> global_flag 2 ~>
    Plus true (Chr pkg_unit) ~> Eol;
    (* /^bun\s+(add|install)\s+(-g\s+)?[\w@\-\/\.]+$/i *)
    Bol ~> lit_i "bun" ~> Plus true ws ~>
    Group 1 (Alt (lit_i "add") (lit_i "install")) ~> Plus true ws ~>
    global_flag 2 ~> Plus true (Chr pkg_unit) ~> Eol;
    (* /^yarn\s+add\s+(-g\s+)?[\w@\-\/\.]+$/i *)
    Bol ~> lit_i "yarn" ~> Plus true ws ~> lit_i "add" ~> Plus true ws ~>
    global_flag 1 ~> Plus true (Chr pkg_unit) ~> Eol;
    (* /^pip\s+install\s+[\w\-\.]+$/i *)
    Bol ~> lit_i "pip" ~> Plus true ws ~> lit_i "install" ~> Plus true ws ~>
    Plus true (Chr pip_unit) ~> Eol;
    (* /^docker\s+pull\s+[\w\-\.\/\:]+$/i *)
    Bol ~> lit_i "docker" ~> Plus true ws ~> lit_i "pull" ~> Plus true ws ~>
    Plus true (Chr image_unit) ~> Eol;
    (* /^git\s+clone\s+https?:\/\/[\w\-\.\/]+$/i *)
    Bol ~> lit_i "git" ~> Plus true ws ~> lit_i "clone" ~> Plus true ws ~>
    lit_i "http" ~> Opt true (Chr (just_i "s")) ~> lit_i "://" ~>
    Plus true (Chr repo_unit) ~> Eol ].

(** [pattern.test(cmd)] *)
Definition test (r : regex) (s : jsstring) : bool :=
  match exec r s with
  | Some _ => true
  | None => false
  end.

(** [safePatterns.some((pattern) => pattern.test(cmd))] *)
Definition isSafeCommand (cmd : jsstring) : bool :=
  existsb (fun pattern => test pattern cmd) safePatterns.

(** [cmd.split(/\s+/)[0]], the executable that is spawned: the text before
    the first white space. *)
Definition executable (cmd : jsstring) : jsstring :=
  takeWhile (fun c => negb (is_space c)) cmd.

End Build.

(** *** The address of a repository (services/github.ts) *)

Module GitHub.

Local Open Scope regex_scope.

Definition not_slash (c : codeunit) : bool := negb (just "/" c).

(** [/github\.com\/([^\/]+\/[^\/\s]+)/i] *)
Definition repoPattern : regex :=
  lit_i "github.com/" ~>
  Group 1 (Plus true (Chr not_slash) ~> Chr (just "/") ~>
           Plus true (Chr Research.not_slash_space)).

(** [/\.git$/] *)
Definition gitSuffix : regex := lit ".git" ~> Eol.

(** [/[#?].*$/] *)
Definition fragment : regex :=
  Chr (any_of [cu "#"; cu "?"]) ~> Star true (Chr dot) ~> Eol.

(** What the first step of [fetchGitHubData] ends with: the owner and the
    repository of the request, or one of its two errors. *)
Inductive Parsed : Type :=
| Repo (owner repo : jsstring)
| Invalid_GitHub_URL
| Could_not_parse.

(** The first step of [fetchGitHubData]: from the address to the owner
    and the repository.  [const [owner, repo] = ownerRepo.split("/")]
    takes the first two pieces, and a missing second piece is
    undefined. *)
Definition parse_repoUrl (repoUrl : jsstring) : Parsed :=
  match exec repoPattern repoUrl with
  | None => Invalid_GitHub_URL
  | Some m =>
      let ownerRepo :=
        replace1 fragment [] (replace1 gitSuffix [] (capture 1 m)) in
      match split (cu "/") ownerRepo with
      | owner :: repo :: _ =>
          if negb (truthy (Some owner)) || negb (truthy (Some repo))
          then Could_not_parse
          else Repo owner repo
      | _ => Could_not_parse
      end
  end.

End GitHub.

Import Rank Research Build GitHub.

(** ** Definitions used in the further statements *)

(** *** The words of a pattern *)

(** Concatenations of words of [L]. *)
Inductive star_words (L : jsstring -> Prop) : jsstring -> Prop :=
| star_words_nil : star_words L []
| star_words_app : forall w1 w2,
    L w1 -> star_words L w2 -> star_words L (w1 ++ w2).

(** The texts a pattern can consume, whatever surrounds them: anchors and
    lookahead consume nothing. *)
Fixpoint lang (r : regex) (w : jsstring) : Prop :=
  match r with
  | Empty | Bol | Eol | Ahead _ => w = []
  | Chr p => exists c, w = [c] /\ p c = true
  | Seq a b => exists w1 w2, w = w1 ++ w2 /\ lang a w1 /\ lang b w2
  | Alt a b => lang a w \/ lang b w
  | Star _ a => star_words (lang a) w
  | Opt _ a => w = [] \/ lang a w
  | Group _ a => lang a w
  end.

(** Every character set of the pattern lies within [q]. *)
Fixpoint units_within (q : codeunit -> bool) (r : regex) : Prop :=
  match r with
  | Empty | Bol | Eol | Ahead _ => True
  | Chr p => forall c, p c = true -> q c = true
  | Seq a b | Alt a b => units_within q a /\ units_within q b
  | Star _ a | Opt _ a | Group _ a => units_within q a
  end.

(** *** The boundary lines of a digest *)

(** The name that a line starts a tool with, if it is a boundary: a
    heading, or a bullet whose name is not a metadata field. *)
Definition boundary_name (line : jsstring) : option jsstring :=
  let trimmed := trim line in
  match exec h3Pattern trimmed with
  | Some h3Match => Some (trim (capture 1 h3Match))
  | None =>
      match exec bulletPattern trimmed with
      | Some bulletMatch =>
          let nm := trim (capture 1 bulletMatch) in
          if negb (array_includes metadataFields
                     (remove_first (cu ":") (toLowerCase nm)))
          then Some nm
          else None
      | None => None
      end
  end.

(** The non-empty names of the boundary lines, in order. *)
Fixpoint started_names (lines : list jsstring) : list jsstring :=
  match lines with
  | [] => []
  | l :: more =>
      match boundary_name l with
      | Some (c :: nm) => (c :: nm) :: started_names more
      | _ => started_names more
      end
  end.

(** The name that is waiting to be saved. *)
Definition pending_name (st : LoopState) : list jsstring :=
  match currentTool st with
  | Some cur => if truthy (p_name cur) then [or_else (p_name cur) []] else []
  | None => []
  end.

(** The current tool of a loop state is fresh: name, slug of the name and
    time stamp, nothing else yet. *)
Definition fresh_current (st : LoopState) : Prop :=
  match currentTool st with
  | Some cur =>
      exists nm stamp,
        cur = mkPartial (Some nm) (Some (slugify nm)) None None None (Some stamp)
  | None => True
  end.

(** The tool that saveTool makes of a fresh current tool named [nm], with
    block text [blockText] and description [descr]. *)
Definition saved_tool (nm blockText descr stamp : jsstring) : Tool :=
  mkTool nm (slugify nm) (slice0 500 descr)
    (set_field (exec installPattern blockText) None)
    (set_field (exec githubPattern blockText) None)
    (set_field (exec sourcePattern blockText) None)
    (detectCategory nm descr) stamp.

(** A line that is empty or begins with neither # nor a code unit of the
    bullet marker, once trimmed. *)
Definition plain_line (line : jsstring) : bool :=
  match trim line with
  | [] => true
  | c :: _ => negb (just "#" c) && negb (bullet_lead c)
  end.

(** Optional fields. *)
Definition field_ok (q : jsstring -> Prop) (o : option jsstring) : Prop :=
  match o with
  | Some u => q u
  | None => True
  end.

Definition not_tick_or_LF (c : codeunit) : bool :=
  negb (just "`" c || (c =? LF)%N).

Definition handle_unit (c : codeunit) : bool := word c || just "@" c.

(** *** The scores in exact arithmetic *)

(** The weighted sum in tenths, rounded half up. *)
Definition exact_total (u q i mo : Z) : Z := (3 * u + 3 * q + 2 * i + 2 * mo + 5) / 10.

Definition totals_exact : bool :=
  forallb (fun u =>
    forallb (fun q =>
      forallb (fun i =>
        forallb (fun mo => weighted_total u q i mo =? exact_total u q i mo)
          momentum_values)
        innovation_values)
      quality_values)
    usefulness_values.

(** The same research with another number of stars. *)
Definition with_stars (r : ToolResearch) (s : float) : ToolResearch :=
  match github r with
  | Some g =>
      mkToolResearch (tool r)
        (Some (mkGitHubData (repoUrl g) s (forks g) (openIssues g)
                 (lastCommitDate g) (createdAt g) (language g) (license g)
                 (hasTests g) (hasCI g) (readme g)))
        (npm r) (webSources r) (researchedAt r)
  | None => r
  end.

(** The bonus of the star tiers. *)
Definition star_bonus (s : float) : Z :=
  if (1000 <? s)%float then 25
  else if (100 <? s)%float then 15
  else if (10 <? s)%float then 5
  else 0.

(** The bonuses of the quality score besides the stars. *)
Definition repo_bonus (g : GitHubData) : Z :=
  (if hasTests g then 10 else 0) + (if hasCI g then 5 else 0)
  + (if truthy (license g) then 5 else 0).

Definition downloads_bonus (r : ToolResearch) : Z :=
  match npm r with
  | Some p =>
      if (10000 <? weeklyDownloads p)%float then 15
      else if (1000 <? weeklyDownloads p)%float then 10
      else 0
  | None => 0
  end.

(** Scores listed from the highest total to the lowest. *)
Fixpoint descending (l : list ToolScore) : Prop :=
  match l with
  | [] => True
  | s :: l' => (forall t, In t l' -> totalScore t <= totalScore s) /\ descending l'
  end.

(** The units of a safe install command: word characters, the signs
    @ - / . : and white space. *)
Definition safe_unit (c : codeunit) : bool :=
  word c || any_of [cu "@"; cu "-"; cu "/"; cu "."; cu ":"] c || is_space c.

(** *** Groups and anchors of a pattern *)

(** The capturing groups of a pattern, each with its body. *)
Fixpoint group_bodies (r : regex) : list (nat * regex) :=
  match r with
  | Empty | Chr _ | Bol | Eol => []
  | Seq a b | Alt a b => group_bodies a ++ group_bodies b
  | Star _ a | Opt _ a | Ahead a => group_bodies a
  | Group i a => (i, a) :: group_bodies a
  end.

(** Every capture of the list satisfies [G]. *)
Definition captures_in (G : nat -> jsstring -> Prop)
    (cs : list (nat * jsstring)) : Prop :=
  forall i w, In (i, w) cs -> G i w.

(** The group that a sequence ends with. *)
Fixpoint last_group (r : regex) : option (nat * regex) :=
  match r with
  | Seq _ b => last_group b
  | Group i b => Some (i, b)
  | _ => None
  end.

(** The sequence ends with the anchor of the end of the input. *)
Fixpoint ends_with_eol (r : regex) : bool :=
  match r with
  | Seq _ b => ends_with_eol b
  | Eol => true
  | _ => false
  end.

(** *** The loop of extractTools *)

(** The names saved so far, with the one that is waiting. *)
Definition names_so_far (st : LoopState) : list jsstring :=
  map name (tools st) ++ pending_name st.

(** Every tool of the list was made by saveTool from a fresh current tool
    with a name. *)
Definition all_saved (l : list Tool) : Prop :=
  Forall (fun t => exists nm blockText descr stamp,
                     nm <> [] /\ t = saved_tool nm blockText descr stamp) l.

(** The programs that the safe patterns name. *)
Definition safe_programs : list jsstring :=
  [js "npm"; js "bun"; js "yarn"; js "pip"; js "docker"; js "git"].

(** The units of an owner or repository name that extractGitHubUrl
    keeps: word characters and the dash. *)
Definition repo_name_unit (c : codeunit) : bool := word c || just "-" c.

(** Neither white space nor a quote. *)
Definition package_unit (c : codeunit) : bool :=
  negb (is_space c) && negb (is_quote c).

(** The units of a news text: no bullet mark and no line feed. *)
Definition news_unit (c : codeunit) : bool := negb (is_mark c || (c =? LF)%N).

(** *** A news section as the digest writes it *)

(** A bullet line: white space in front, a marker, white space, and the
    text. *)
Record Bullet : Type := mkBullet {
  b_indent : jsstring;
  b_marker : codeunit;
  b_gap : jsstring;
  b_text : jsstring
}.

(** The bullet itself, from its marker on. *)
Definition bullet_of (b : Bullet) : jsstring :=
  b_marker b :: b_gap b ++ b_text b.

Definition bullet_line (b : Bullet) : jsstring := b_indent b ++ bullet_of b.

(** The bullet lines of a section, each on a line of its own. *)
Definition bullet_lines (bullets : list Bullet) : jsstring :=
  flat_map (fun b => LF :: bullet_line b) bullets.

(** The section of the key news: the heading with the rest of its title,
    the bullet lines and, when another numbered section follows, the
    start of that section on the next line. *)
Definition news_section (title : jsstring) (bullets : list Bullet)
    (next : option jsstring) : jsstring :=
  js "1. Key News" ++ title ++ bullet_lines bullets
  ++ match next with
     | Some more => LF :: js "2." ++ more
     | None => []
     end.






(** A bullet at the start of its line, with one space after the dash. *)
Definition dash_bullet (t : string) : Bullet :=
  mkBullet [] (cu "-") (js " ") (js t).

(** ** The matcher *)

(** *** Answers come from the continuation, at a later position *)

Lemma orelse_some (A : Type) (a b : option A) (z : A) :
  orelse a b = Some z -> a = Some z \/ b = Some z.
Proof. destruct a; simpl; intro H; [left|right]; exact H. Qed.

Lemma star_loop_answer
    (body : MatchState -> (MatchState -> option MatchState) -> option MatchState)
    (greedy : bool) (c : MatchState -> option MatchState) :
  (forall x d z, body x d = Some z ->
     exists y, d y = Some z /\ (length (rest y) <= length (rest x))%nat) ->
  forall fuel x z,
    star_loop body greedy c fuel x = Some z ->
    exists y, c y = Some z /\ (length (rest y) <= length (rest x))%nat.
Proof.
  intros Hbody. induction fuel as [|f IH]; intros x z H.
  - exists x. split; [exact H|lia].
  - cbn [star_loop] in H.
    assert (B : forall d, d = (fun y => if (length (rest y) <? length (rest x))%nat
                                     then star_loop body greedy c f y else None) ->
                body x d = Some z ->
                exists y, c y = Some z /\ (length (rest y) <= length (rest x))%nat).
    { intros d -> Hb. apply Hbody in Hb. destruct Hb as (y & Hy & Hlen).
      destruct (length (rest y) <? length (rest x))%nat; [|discriminate].
      apply IH in Hy. destruct Hy as (y' & Hy' & Hlen').
      exists y'. split; [exact Hy'|lia]. }
    destruct greedy; apply orelse_some in H; destruct H as [H|H];
      try (apply (B _ eq_refl H)); exists x; (split; [exact H|lia]).
Qed.

Lemma matcher_answer (n : nat) (r : regex) :
  forall x c z,
    matcher n r x c = Some z ->
    exists y, c y = Some z /\ (length (rest y) <= length (rest x))%nat.
Proof.
  induction r as [|p|a IHa b IHb|a IHa b IHb|g a IHa|g a IHa|i a IHa| | |a IHa];
    intros x c z H; cbn [matcher] in H.
  - exists x. split; [exact H|lia].
  - destruct (rest x) as [|ch t] eqn:E; [discriminate|].
    destruct (p ch); [|discriminate].
    exists (mkState t (caps x)). split; [exact H|]. simpl. lia.
  - apply IHa in H. destruct H as (y & Hy & L1).
    apply IHb in Hy. destruct Hy as (y' & Hy' & L2).
    exists y'. split; [exact Hy'|lia].
  - apply orelse_some in H. destruct H as [H|H]; [apply IHa|apply IHb]; exact H.
  - apply star_loop_answer in H; [exact H|].
    intros x' d z' Hb. apply IHa in Hb. exact Hb.
  - assert (B : matcher n a (clear a x)
                  (fun y => if (length (rest y) <? length (rest x))%nat
                            then c y else None) = Some z ->
                exists y, c y = Some z /\ (length (rest y) <= length (rest x))%nat).
    { intro Hb. apply IHa in Hb. destruct Hb as (y & Hy & L).
      destruct (length (rest y) <? length (rest x))%nat; [|discriminate].
      exists y. split; [exact Hy|exact L]. }
    destruct g; apply orelse_some in H; destruct H as [H|H];
      try (apply (B H)); exists x; (split; [exact H|lia]).
  - apply IHa in H. destruct H as (y & Hy & L).
    eexists. split; [exact Hy|exact L].
  - destruct (length (rest x) =? n)%nat; [|discriminate].
    exists x. split; [exact H|lia].
  - destruct (rest x) eqn:E; [|discriminate].
    exists x. split; [exact H|]. rewrite E. simpl. lia.
  - destruct (matcher n a x Some) as [y|]; [|discriminate].
    eexists. split; [exact H|]. cbn [rest]. lia.
Qed.

Lemma star_loop_ext
    (body : MatchState -> (MatchState -> option MatchState) -> option MatchState)
    (greedy : bool) (c1 c2 : MatchState -> option MatchState) :
  (forall x d1 d2, (forall y, d1 y = d2 y) -> body x d1 = body x d2) ->
  (forall y, c1 y = c2 y) ->
  forall fuel x, star_loop body greedy c1 fuel x = star_loop body greedy c2 fuel x.
Proof.
  intros Hbody Hc. induction fuel as [|f IH]; intro x; cbn [star_loop].
  - apply Hc.
  - rewrite (Hc x). f_equal.
    rewrite (Hbody x _ (fun y => if (length (rest y) <? length (rest x))%nat
                                 then star_loop body greedy c2 f y else None)).
    + reflexivity.
    + intro y. destruct (length (rest y) <? length (rest x))%nat;
        [apply IH|reflexivity].
Qed.

(** The matcher looks at its continuation only through its answers. *)
Lemma matcher_ext (n : nat) (r : regex) :
  forall x c1 c2, (forall y, c1 y = c2 y) -> matcher n r x c1 = matcher n r x c2.
Proof.
  induction r as [|p|a IHa b IHb|a IHa b IHb|g a IHa|g a IHa|i a IHa| | |a IHa];
    intros x c1 c2 Hc; cbn [matcher].
  - apply Hc.
  - destruct (rest x) as [|ch t]; [reflexivity|].
    destruct (p ch); [apply Hc|reflexivity].
  - apply IHa. intro y. apply IHb. exact Hc.
  - rewrite (IHa x c1 c2 Hc), (IHb x c1 c2 Hc). reflexivity.
  - apply star_loop_ext; [|exact Hc].
    intros x' d1 d2 Hd. apply IHa. exact Hd.
  - rewrite (Hc x).
    rewrite (IHa (clear a x) _
               (fun y => if (length (rest y) <? length (rest x))%nat
                         then c2 y else None)).
    + reflexivity.
    + intro y. destruct (length (rest y) <? length (rest x))%nat;
        [apply Hc|reflexivity].
  - apply IHa. intro y. apply Hc.
  - destruct (length (rest x) =? n)%nat; [apply Hc|reflexivity].
  - destruct (rest x); [apply Hc|reflexivity].
  - destruct (matcher n a x Some); [apply Hc|reflexivity].
Qed.

Lemma matcher_none (n : nat) (r : regex) (x : MatchState)
    (c : MatchState -> option MatchState) :
  (forall y, c y = None) -> matcher n r x c = None.
Proof.
  intro Hc. destruct (matcher n r x c) as [z|] eqn:E; [|reflexivity].
  apply matcher_answer in E. destruct E as (y & Hy & _).
  rewrite Hc in Hy. discriminate.
Qed.

Lemma orelse_none_r (A : Type) (a : option A) : orelse a None = a.
Proof. destruct a; reflexivity. Qed.

(** The passes of a starred atom are the same with any count that is at
    least the length of the rest: the count never decides. *)
Lemma star_loop_fuel (n : nat) (a : regex) (greedy : bool)
    (c : MatchState -> option MatchState) (f1 f2 : nat) (x : MatchState) :
  (length (rest x) <= f1)%nat -> (length (rest x) <= f2)%nat ->
  star_loop (fun x' d => matcher n a (clear a x') d) greedy c f1 x
  = star_loop (fun x' d => matcher n a (clear a x') d) greedy c f2 x.
Proof.
  assert (Z : forall f y,
            (length (rest y) <= 0)%nat ->
            star_loop (fun x' d => matcher n a (clear a x') d) greedy c f y = c y).
  { intros f y Hy. destruct f as [|f]; [reflexivity|]. cbn [star_loop].
    rewrite matcher_none.
    - destruct greedy; [reflexivity|apply orelse_none_r].
    - intro y'. destruct (length (rest y') <? length (rest y))%nat eqn:E;
        [|reflexivity].
      apply Nat.ltb_lt in E. lia. }
  revert f2 x. induction f1 as [|f1 IH]; intros f2 x H1 H2.
  - rewrite (Z 0%nat x H1), (Z f2 x H1). reflexivity.
  - destruct f2 as [|f2].
    + rewrite (Z (S f1) x H2), (Z 0%nat x H2). reflexivity.
    + cbn [star_loop].
      rewrite (matcher_ext n a (clear a x) _
                 (fun y => if (length (rest y) <? length (rest x))%nat
                           then star_loop
                                  (fun x' d => matcher n a (clear a x') d)
                                  greedy c f2 y
                           else None)).
      * reflexivity.
      * intro y. destruct (length (rest y) <? length (rest x))%nat eqn:E;
          [|reflexivity].
        apply Nat.ltb_lt in E. apply IH; lia.
Qed.

Lemma search_eq (n : nat) (r : regex) (pre s : jsstring) :
  search n r pre s
  = match matcher n r (mkState s []) Some with
    | Some y =>
        Some (mkResult (rev pre) (firstn (length s - length (rest y)) s)
                (rest y) (caps y))
    | None =>
        match s with
        | [] => None
        | ch :: t => search n r (ch :: pre) t
        end
    end.
Proof. destruct s; reflexivity. Qed.

(** A match leaves a suffix of the input, a proper one when the matched
    text is not empty. *)
Lemma search_after (n : nat) (r : regex) (s pre : jsstring) (res : MatchResult) :
  search n r pre s = Some res ->
  (length (after res) <= length s)%nat
  /\ (matched res <> [] -> length (after res) < length s)%nat.
Proof.
  revert pre res. induction s as [|ch t IH]; intros pre res H;
    rewrite search_eq in H;
    match type of H with
    | context [matcher n r (mkState ?s0 []) Some] =>
        destruct (matcher n r (mkState s0 []) Some) as [y|] eqn:E
    end.
  - injection H as <-. cbn [after matched].
    apply matcher_answer in E. destruct E as (y' & Ey & L).
    injection Ey as ->. cbn [rest] in L.
    split; [exact L|]. intro Hm. exfalso. apply Hm.
    simpl in L. destruct (rest y); [reflexivity|simpl in L; lia].
  - discriminate.
  - injection H as <-. cbn [after matched].
    apply matcher_answer in E. destruct E as (y' & Ey & L).
    injection Ey as ->. cbn [rest] in L.
    split; [exact L|]. intro Hm.
    destruct (Nat.eq_dec (length (rest y)) (length (ch :: t))) as [Eq|Ne]; [|lia].
    exfalso. apply Hm. rewrite Eq. simpl. rewrite Nat.sub_diag. reflexivity.
  - apply IH in H. destruct H as [H1 H2].
    change (length (ch :: t)) with (S (length t)).
    split; [lia|]. intro Hm. specialize (H2 Hm). lia.
Qed.

(** *** The loops never run short *)

(** The loop of a g pattern gives the same matches with any count above
    the length of the input. *)
Lemma all_matches_fuel (n : nat) (r : regex) (f1 f2 : nat) (s : jsstring) :
  (length s < f1)%nat -> (length s < f2)%nat ->
  all_matches f1 n r s = all_matches f2 n r s.
Proof.
  revert f2 s. induction f1 as [|f1 IH]; intros f2 s H1 H2; [lia|].
  destruct f2 as [|f2]; [lia|].
  cbn [all_matches].
  destruct (search n r [] s) as [res|] eqn:E; [|reflexivity].
  apply search_after in E. destruct E as [L1 L2].
  f_equal. destruct (matched res) as [|mc mt] eqn:Em.
  - destruct (after res) as [|ac at'] eqn:Ea; [reflexivity|].
    simpl in L1. apply IH; lia.
  - assert (L : (length (after res) < length s)%nat) by (apply L2; discriminate).
    apply IH; lia.
Qed.

Lemma replace_loop_fuel (n : nat) (r : regex) (repl : jsstring)
    (f1 f2 : nat) (s : jsstring) :
  (length s < f1)%nat -> (length s < f2)%nat ->
  replace_loop f1 n r repl s = replace_loop f2 n r repl s.
Proof.
  revert f2 s. induction f1 as [|f1 IH]; intros f2 s H1 H2; [lia|].
  destruct f2 as [|f2]; [lia|].
  cbn [replace_loop].
  destruct (search n r [] s) as [res|] eqn:E; [|reflexivity].
  apply search_after in E. destruct E as [L1 L2].
  do 2 f_equal. destruct (matched res) as [|mc mt] eqn:Em.
  - destruct (after res) as [|ac at'] eqn:Ea; [reflexivity|].
    simpl in L1. f_equal. apply IH; lia.
  - assert (L : (length (after res) < length s)%nat) by (apply L2; discriminate).
    apply IH; lia.
Qed.

(** ** The scoring engine *)

Section ScoreFacts.

Variable h : Host.

Lemma bonus_fst (cond : bool) (score points : Z) (note : jsstring) (w : World) :
  fst (bonus cond score points note w) = if cond then score + points else score.
Proof. destruct cond; reflexivity. Qed.

Ltac run_scorer :=
  cbv beta iota delta [bind bonus award push ret fst snd clamp Date_now];
  repeat match goal with
         | |- context [if ?b then _ else _] => destruct b
         | |- context [match ?o with Some _ => _ | None => _ end] => destruct o
         end;
  reflexivity.

Lemma usefulness_mem (r : ToolResearch) (w : World) :
  mem (fst (calculateUsefulnessScore r w)) usefulness_values = true.
Proof.
  unfold calculateUsefulnessScore.
  destruct (category (tool r)); cbn [is_category orb]; run_scorer.
Qed.

Lemma quality_mem (r : ToolResearch) (w : World) :
  mem (fst (calculateQualityScore h r w)) quality_values = true.
Proof. unfold calculateQualityScore. run_scorer. Qed.

Lemma innovative_loop_fst (text : jsstring) (terms : list jsstring)
    (score : Z) (w : World) :
  fst (innovative_loop text terms score w)
  = if existsb (includes text) terms then score + 15 else score.
Proof.
  induction terms as [|term more IH]; simpl.
  - reflexivity.
  - destruct (includes text term); simpl.
    + reflexivity.
    + apply IH.
Qed.

Lemma innovation_fst (r : ToolResearch) (w : World) :
  fst (calculateInnovationScore r w)
  = clamp ((if has_innovative_term r then 65 else 50)
           + (if includes (innovation_text r) (js "ai")
                 || includes (innovation_text r) (js "llm")
                 || includes (innovation_text r) (js "agent")
              then 10 else 0)).
Proof.
  unfold calculateInnovationScore, has_innovative_term, innovation_text, bind.
  set (text := toLowerCase _).
  pose proof (innovative_loop_fst text innovativeTerms 50 w) as E.
  destruct (innovative_loop text innovativeTerms 50 w) as [s w1].
  unfold fst in E. subst s.
  set (ai := includes text (js "ai") || includes text (js "llm")
             || includes text (js "agent")).
  destruct (existsb (includes text) innovativeTerms), ai; reflexivity.
Qed.

Lemma innovation_mem (r : ToolResearch) (w : World) :
  mem (fst (calculateInnovationScore r w)) innovation_values = true.
Proof.
  rewrite innovation_fst.
  destruct (has_innovative_term r);
    destruct (includes _ _ || includes _ _ || includes _ _); reflexivity.
Qed.

Lemma momentum_mem (r : ToolResearch) (w : World) :
  mem (fst (calculateMomentumScore h r w)) momentum_values = true.
Proof. unfold calculateMomentumScore. run_scorer. Qed.

(** The five numbers of a score, as the sub-scorers computed them in
    turn. *)
Lemma scoreTool_parts (r : ToolResearch) :
  exists w1 w2 w3 w4 : World,
    let s := scoreTool h r in
    usefulnessScore s = fst (calculateUsefulnessScore r w1)
    /\ qualityScore s = fst (calculateQualityScore h r w2)
    /\ innovationScore s = fst (calculateInnovationScore r w3)
    /\ momentumScore s = fst (calculateMomentumScore h r w4)
    /\ totalScore s
       = weighted_total (usefulnessScore s) (qualityScore s)
           (innovationScore s) (momentumScore s)
    /\ recommendation s = recommend (totalScore s).
Proof.
  unfold scoreTool, scoreTool_M, bind.
  exists (mkWorld [] 0).
  destruct (calculateUsefulnessScore r (mkWorld [] 0)) as [u w2] eqn:Eu.
  exists w2.
  destruct (calculateQualityScore h r w2) as [q w3] eqn:Eq.
  exists w3.
  destruct (calculateInnovationScore r w3) as [i w4] eqn:Ei.
  exists w4.
  destruct (calculateMomentumScore h r w4) as [mo w5] eqn:Em.
  destruct (Date_now h w5) as [now w6].
  simpl. repeat split; reflexivity.
Qed.

End ScoreFacts.

Lemma mem_In (v : Z) (l : list Z) : mem v l = true -> In v l.
Proof.
  unfold mem. rewrite existsb_exists. intros [x [Hin Hx]].
  apply Z.eqb_eq in Hx. subst. exact Hin.
Qed.

Lemma totals_within_spec (lo hi u q i mo : Z) :
  totals_within lo hi = true ->
  mem u usefulness_values = true -> mem q quality_values = true ->
  mem i innovation_values = true -> mem mo momentum_values = true ->
  lo <= weighted_total u q i mo <= hi.
Proof.
  unfold totals_within. intros H Hu Hq Hi Hm.
  apply mem_In in Hu, Hq, Hi, Hm.
  rewrite forallb_forall in H. specialize (H u Hu).
  rewrite forallb_forall in H. specialize (H q Hq).
  rewrite forallb_forall in H. specialize (H i Hi).
  rewrite forallb_forall in H. specialize (H mo Hm).
  apply andb_true_iff in H. destruct H as [H1 H2].
  apply Z.leb_le in H1, H2. split; assumption.
Qed.

Lemma totals_42_86 : totals_within 42 86 = true.
Proof. vm_compute. reflexivity. Qed.

Lemma mem_bounds (v lo hi : Z) (l : list Z) :
  forallb (fun x => (lo <=? x) && (x <=? hi)) l = true ->
  mem v l = true -> lo <= v <= hi.
Proof.
  intros H Hv. apply mem_In in Hv. rewrite forallb_forall in H.
  specialize (H v Hv). apply andb_true_iff in H. destruct H as [H1 H2].
  apply Z.leb_le in H1, H2. split; assumption.
Qed.

(** C1. For every ToolResearch (and every host), the four dimension
    scores and the total score returned by scoreTool are integers between
    0 and 100. *)
Theorem scoreTool_scores_in_range (h : Host) (r : ToolResearch) :
  let s := scoreTool h r in
  0 <= usefulnessScore s <= 100
  /\ 0 <= qualityScore s <= 100
  /\ 0 <= innovationScore s <= 100
  /\ 0 <= momentumScore s <= 100
  /\ 0 <= totalScore s <= 100.
Proof.
  destruct (scoreTool_parts h r) as (w1 & w2 & w3 & w4 & Hu & Hq & Hi & Hm & Ht & _).
  cbv zeta in *.
  pose proof (usefulness_mem r w1) as Mu. rewrite <- Hu in Mu.
  pose proof (quality_mem h r w2) as Mq. rewrite <- Hq in Mq.
  pose proof (innovation_mem r w3) as Mi. rewrite <- Hi in Mi.
  pose proof (momentum_mem h r w4) as Mm. rewrite <- Hm in Mm.
  pose proof (totals_within_spec 42 86 _ _ _ _ totals_42_86 Mu Mq Mi Mm) as T.
  rewrite <- Ht in T.
  repeat split;
    try (eapply (mem_bounds _ 0 100); [|eassumption]; reflexivity);
    lia.
Qed.

Lemma recommend_BUILD (t : Z) : recommend t = BUILD <-> 70 <= t.
Proof.
  unfold recommend, threshold_build, threshold_watch.
  destruct (70 <=? t) eqn:E1; [|destruct (40 <=? t) eqn:E2];
    try apply Z.leb_le in E1; try apply Z.leb_gt in E1;
    try apply Z.leb_le in E2; try apply Z.leb_gt in E2;
    split; intro H; try discriminate; try reflexivity; lia.
Qed.

Lemma recommend_WATCH (t : Z) : recommend t = WATCH <-> 40 <= t <= 69.
Proof.
  unfold recommend, threshold_build, threshold_watch.
  destruct (70 <=? t) eqn:E1; [|destruct (40 <=? t) eqn:E2];
    try apply Z.leb_le in E1; try apply Z.leb_gt in E1;
    try apply Z.leb_le in E2; try apply Z.leb_gt in E2;
    split; intro H; try discriminate; try reflexivity; lia.
Qed.

Lemma recommend_SKIP (t : Z) : recommend t = SKIP <-> t <= 39.
Proof.
  unfold recommend, threshold_build, threshold_watch.
  destruct (70 <=? t) eqn:E1; [|destruct (40 <=? t) eqn:E2];
    try apply Z.leb_le in E1; try apply Z.leb_gt in E1;
    try apply Z.leb_le in E2; try apply Z.leb_gt in E2;
    split; intro H; try discriminate; try reflexivity; lia.
Qed.

Lemma score_70 :
  totalScore (scoreTool example_host research_70) = 70
  /\ recommendation (scoreTool example_host research_70) = BUILD.
Proof. vm_compute. split; reflexivity. Qed.

Lemma score_69 :
  totalScore (scoreTool example_host research_69) = 69
  /\ recommendation (scoreTool example_host research_69) = WATCH.
Proof. vm_compute. split; reflexivity. Qed.

(** C2. For every ToolResearch, scoreTool recommends BUILD exactly when
    the total is at least 70, WATCH exactly when it is between 40 and 69,
    and SKIP exactly when it is at most 39; the recommendation is the
    threshold rule applied to the total, and that rule sends 70 to BUILD,
    69 and 40 to WATCH and 39 to SKIP.  Totals of 70 and of 69 are reached
    by actual records. *)
Theorem recommendation_by_thresholds (h : Host) (r : ToolResearch) :
  let s := scoreTool h r in
  (recommendation s = BUILD <-> 70 <= totalScore s)
  /\ (recommendation s = WATCH <-> 40 <= totalScore s <= 69)
  /\ (recommendation s = SKIP <-> totalScore s <= 39)
  /\ recommendation s = recommend (totalScore s)
  /\ recommend 70 = BUILD /\ recommend 69 = WATCH
  /\ recommend 40 = WATCH /\ recommend 39 = SKIP
  /\ (exists h' r', totalScore (scoreTool h' r') = 70
                    /\ recommendation (scoreTool h' r') = BUILD)
  /\ (exists h' r', totalScore (scoreTool h' r') = 69
                    /\ recommendation (scoreTool h' r') = WATCH).
Proof.
  destruct (scoreTool_parts h r) as (w1 & w2 & w3 & w4 & _ & _ & _ & _ & _ & Hr).
  cbv zeta in *. rewrite Hr.
  split; [apply recommend_BUILD|].
  split; [apply recommend_WATCH|].
  split; [apply recommend_SKIP|].
  repeat (split; [reflexivity|]).
  split.
  - exists example_host, research_70. exact score_70.
  - exists example_host, research_69. exact score_69.
Qed.

(** C9. For every ToolResearch, each dimension score is at least its base
    value (50, 30, 50 and 40), the total is at least 42, and the
    recommendation is never SKIP. *)
Theorem scores_at_least_base (h : Host) (r : ToolResearch) :
  let s := scoreTool h r in
  50 <= usefulnessScore s
  /\ 30 <= qualityScore s
  /\ 50 <= innovationScore s
  /\ 40 <= momentumScore s
  /\ 42 <= totalScore s
  /\ recommendation s <> SKIP.
Proof.
  destruct (scoreTool_parts h r) as (w1 & w2 & w3 & w4 & Hu & Hq & Hi & Hm & Ht & Hr).
  cbv zeta in *.
  pose proof (usefulness_mem r w1) as Mu. rewrite <- Hu in Mu.
  pose proof (quality_mem h r w2) as Mq. rewrite <- Hq in Mq.
  pose proof (innovation_mem r w3) as Mi. rewrite <- Hi in Mi.
  pose proof (momentum_mem h r w4) as Mm. rewrite <- Hm in Mm.
  pose proof (totals_within_spec 42 86 _ _ _ _ totals_42_86 Mu Mq Mi Mm) as T.
  rewrite <- Ht in T.
  split; [eapply (mem_bounds _ 50 100); [|exact Mu]; reflexivity|].
  split; [eapply (mem_bounds _ 30 100); [|exact Mq]; reflexivity|].
  split; [eapply (mem_bounds _ 50 100); [|exact Mi]; reflexivity|].
  split; [eapply (mem_bounds _ 40 100); [|exact Mm]; reflexivity|].
  split; [lia|].
  intro Hs. rewrite Hr in Hs. apply recommend_SKIP in Hs. lia.
Qed.

(** *** Substrings *)

Lemma includes_app_r (x y p : jsstring) :
  includes y p = true -> includes (x ++ y) p = true.
Proof.
  intro H. induction x as [|c x IH]; simpl.
  - exact H.
  - rewrite IH. apply orb_true_r.
Qed.

Lemma toLowerCase_app (a b : jsstring) :
  toLowerCase (a ++ b) = toLowerCase a ++ toLowerCase b.
Proof. apply flat_map_app. Qed.

(** A tool of one of the two Claude categories always counts as
    Claude-related: the category is part of the searched text. *)
Lemma plugin_text_has_claude (r : ToolResearch) :
  category (tool r) = claude_plugin ->
  includes (usefulness_text r) (js "claude") = true.
Proof.
  intro Hc. unfold usefulness_text. rewrite Hc.
  rewrite !toLowerCase_app.
  do 3 apply includes_app_r. reflexivity.
Qed.

(** C5. A ToolResearch without GitHub and npm data, whose description
    contains "Claude Code plugin", whose install command is present (a
    non-empty string) and whose category is claude-plugin, scores 90 for
    usefulness, 30 for quality and 40 for momentum; when no innovative
    term matches, innovation is 50 if none of "ai", "llm", "agent" occurs
    and 60 if "ai" occurs.  No score is zero. *)
Theorem plugin_without_enrichment (h : Host) (r : ToolResearch) :
  github r = None ->
  npm r = None ->
  includes (description (tool r)) (js "Claude Code plugin") = true ->
  truthy (installCommand (tool r)) = true ->
  category (tool r) = claude_plugin ->
  let s := scoreTool h r in
  usefulnessScore s = 90
  /\ qualityScore s = 30
  /\ momentumScore s = 40
  /\ (has_innovative_term r = false ->
      includes (innovation_text r) (js "ai") = false ->
      includes (innovation_text r) (js "llm") = false ->
      includes (innovation_text r) (js "agent") = false ->
      innovationScore s = 50)
  /\ (has_innovative_term r = false ->
      includes (innovation_text r) (js "ai") = true ->
      innovationScore s = 60)
  /\ 0 < usefulnessScore s /\ 0 < qualityScore s
  /\ 0 < innovationScore s /\ 0 < momentumScore s /\ 0 < totalScore s.
Proof.
  intros Hg Hn Hd Hi Hc.
  pose proof (plugin_text_has_claude r Hc) as Hk.
  destruct (scoreTool_parts h r) as (w1 & w2 & w3 & w4 & Eu & Eq & Ei & Em & Et & _).
  cbv zeta in *.
  pose proof (usefulness_mem r w1) as Mu. rewrite <- Eu in Mu.
  pose proof (quality_mem h r w2) as Mq. rewrite <- Eq in Mq.
  pose proof (innovation_mem r w3) as Mi. rewrite <- Ei in Mi.
  pose proof (momentum_mem h r w4) as Mm. rewrite <- Em in Mm.
  pose proof (totals_within_spec 42 86 _ _ _ _ totals_42_86 Mu Mq Mi Mm) as T.
  rewrite <- Et in T.
  assert (Bi : 50 <= innovationScore (scoreTool h r) <= 100)
    by (eapply (mem_bounds _ 50 100); [|exact Mi]; reflexivity).
  assert (U : usefulnessScore (scoreTool h r) = 90).
  { rewrite Eu. unfold calculateUsefulnessScore, bind.
    fold (usefulness_text r). rewrite Hk, Hc, Hi. reflexivity. }
  assert (Q : qualityScore (scoreTool h r) = 30).
  { rewrite Eq. unfold calculateQualityScore, bind. rewrite Hg, Hn. reflexivity. }
  assert (Mo : momentumScore (scoreTool h r) = 40).
  { rewrite Em. unfold calculateMomentumScore, bind. rewrite Hg, Hn. reflexivity. }
  split; [exact U|]. split; [exact Q|]. split; [exact Mo|].
  split.
  { intros H0 H1 H2 H3. rewrite Ei, innovation_fst, H0, H1, H2, H3. reflexivity. }
  split.
  { intros H0 H1. rewrite Ei, innovation_fst, H0, H1. reflexivity. }
  lia.
Qed.

Lemma plugin_without_enrichment_witness :
  (github research_plugin = None
   /\ npm research_plugin = None
   /\ includes (description (tool research_plugin)) (js "Claude Code plugin") = true
   /\ truthy (installCommand (tool research_plugin)) = true
   /\ category (tool research_plugin) = claude_plugin)
  /\ usefulnessScore (scoreTool example_host research_plugin) = 90
  /\ qualityScore (scoreTool example_host research_plugin) = 30
  /\ momentumScore (scoreTool example_host research_plugin) = 40
  /\ innovationScore (scoreTool example_host research_plugin) = 50.
Proof.
  split; [repeat split; reflexivity|].
  pose proof (plugin_without_enrichment example_host research_plugin
                eq_refl eq_refl eq_refl eq_refl eq_refl) as H.
  cbv zeta in H.
  destruct H as (U & Q & Mo & I & _).
  split; [exact U|]. split; [exact Q|]. split; [exact Mo|].
  apply I; reflexivity.
Defined.

(** ** The extractor *)

(** C3. The digest with the four lines of the Aider scenario (with or
    without a final line break) gives exactly one Tool: name "Aider", slug
    "aider", install command "pip install aider", the GitHub address of
    the scenario, and category cli-tool. *)
Theorem extract_aider (h : Host) :
  exists stamp : jsstring,
    extractTools h (join [LF] aider_lines) = [aider_tool stamp]
    /\ extractTools h (join [LF] aider_lines ++ [LF]) = [aider_tool stamp].
Proof.
  exists (match toISOString h (clock h 0) with
          | [] => toISOString h (clock h 1)
          | c :: t => c :: t
          end).
  destruct h as [clk iso parse shown].
  split; vm_compute; destruct (iso (clk 0%nat)); reflexivity.
Qed.

(** C6, at the failing input: the heading of a tool named "!!!" is
    extracted with the empty slug.  slugify gives the empty string for
    this name and for the empty name; the fallback "unknown" of
    finalizeTool is reached only when name and slug are both empty. *)
Theorem punctuation_name_gets_empty_slug (h : Host) :
  map untimed (extractTools h (js "### !!!"))
  = [mkTool (js "!!!") [] [] None None None other []]
  /\ slugify (js "!!!") = []
  /\ slugify [] = []
  /\ slug (fst (finalizeTool h (mkPartial (Some []) (Some []) None None None None)
                  [] 0)) = js "unknown"
  /\ slug (fst (finalizeTool h
                  (mkPartial (Some (js "!!!")) (Some []) None None None None)
                  [] 0)) = [].
Proof. repeat split; vm_compute; reflexivity. Qed.

Lemma fold_push_bullet (bullets : list jsstring) (acc : list NewsItem) :
  fold_left push_bullet bullets acc
  = acc ++ map (fun t => mkNewsItem (headline_of t) t None)
             (filter (fun t => (20 <? length t)%nat) (map bullet_text bullets)).
Proof.
  revert acc. induction bullets as [|b bs IH]; intro acc; simpl.
  - rewrite app_nil_r. reflexivity.
  - rewrite IH. unfold push_bullet. fold (bullet_text b).
    destruct (20 <? length (bullet_text b))%nat; simpl.
    + rewrite <- app_assoc. reflexivity.
    + reflexivity.
Qed.

Lemma split_hd (c : codeunit) (s : jsstring) :
  hd [] (split c s) = takeWhile (fun d => negb (d =? c)%N) s.
Proof.
  induction s as [|d s IH]; simpl.
  - reflexivity.
  - destruct (d =? c)%N; simpl.
    + reflexivity.
    + rewrite <- IH. destruct (split c s); reflexivity.
Qed.

Lemma headline_of_item (t : jsstring) :
  mkNewsItem (headline_of t) t None = item_of t.
Proof.
  unfold item_of, headline_of, before_colon, slice0.
  rewrite split_hd. reflexivity.
Qed.


(** *** Patterns anchored at the start *)

Lemma search_bol_later (n : nat) (X : regex) (s pre : jsstring) :
  (length s < n)%nat -> search n (Seq Bol X) pre s = None.
Proof.
  revert pre. induction s as [|ch t IH]; intros pre Hlt.
  - simpl. destruct n; [inversion Hlt|reflexivity].
  - cbn [search matcher rest].
    assert (E : (length (ch :: t) =? n)%nat = false)
      by (apply Nat.eqb_neq; lia).
    rewrite E. apply IH. simpl in Hlt. lia.
Qed.

Lemma exec_bol_head (p : codeunit -> bool) (A B : regex) (s : jsstring) :
  match s with c :: _ => p c = false | [] => True end ->
  exec (Seq Bol (Seq (Seq (Chr p) A) B)) s = None.
Proof.
  intro H. unfold exec. destruct s as [|c t].
  - reflexivity.
  - cbn [search matcher rest]. rewrite Nat.eqb_refl, H.
    apply search_bol_later. simpl. lia.
Qed.

Lemma exec_bol_head_some (p : codeunit -> bool) (A B : regex) (s : jsstring)
    (res : MatchResult) :
  exec (Seq Bol (Seq (Seq (Chr p) A) B)) s = Some res ->
  exists c t, s = c :: t /\ p c = true.
Proof.
  intro H. destruct s as [|c t].
  - rewrite exec_bol_head in H by exact I. discriminate.
  - destruct (p c) eqn:E.
    + exists c, t. split; [reflexivity|exact E].
    + rewrite exec_bol_head in H by exact E. discriminate.
Qed.

(** A line that the bullet pattern matches is not a heading. *)
Lemma bullet_is_not_h3 (s : jsstring) (bm : MatchResult) :
  exec bulletPattern s = Some bm -> exec h3Pattern s = None.
Proof.
  intro H. apply exec_bol_head_some in H. destruct H as (c & t & -> & Hc).
  apply exec_bol_head.
  unfold just. destruct (c =? cu "#")%N eqn:E; [|reflexivity].
  apply N.eqb_eq in E. subst c. vm_compute in Hc. discriminate.
Qed.

(** *** Reserved names *)

Lemma remove_first_absent (c : codeunit) (s : jsstring) :
  existsb (N.eqb c) s = false -> remove_first c s = s.
Proof.
  induction s as [|d s IH]; simpl; intro H.
  - reflexivity.
  - apply orb_false_iff in H. destruct H as [H1 H2].
    rewrite N.eqb_sym, H1. rewrite IH by exact H2. reflexivity.
Qed.

Lemma remove_first_last (c : codeunit) (s : jsstring) :
  existsb (N.eqb c) s = false -> remove_first c (s ++ [c]) = s.
Proof.
  induction s as [|d s IH]; simpl; intro H.
  - rewrite N.eqb_refl. reflexivity.
  - apply orb_false_iff in H. destruct H as [H1 H2].
    rewrite N.eqb_sym, H1. rewrite IH by exact H2. reflexivity.
Qed.

Lemma metadata_has_no_colon (f : jsstring) :
  array_includes metadataFields f = true -> existsb (N.eqb (cu ":")) f = false.
Proof.
  unfold array_includes. rewrite existsb_exists.
  intros [x [Hin Hx]]. unfold eqs in Hx.
  destruct (list_eq_dec N.eq_dec f x) as [->|]; [|discriminate].
  simpl in Hin.
  repeat (destruct Hin as [<-|Hin]; [reflexivity|]).
  contradiction.
Qed.

(** The test of the source (first colon removed) accepts every name that
    is reserved (trailing colon removed). *)
Lemma reserved_is_skipped (nm : jsstring) :
  reserved_name nm = true ->
  array_includes metadataFields (remove_first (cu ":") (toLowerCase nm)) = true.
Proof.
  unfold reserved_name, strip_colon.
  set (x := toLowerCase nm).
  destruct (rev x) as [|c r] eqn:E.
  - intro H. rewrite remove_first_absent; [exact H|].
    apply metadata_has_no_colon. exact H.
  - destruct (c =? cu ":")%N eqn:Ec.
    + intro H. apply N.eqb_eq in Ec. subst c.
      assert (Ex : x = rev r ++ [cu ":"]).
      { rewrite <- (rev_involutive x), E. reflexivity. }
      rewrite Ex, remove_first_last; [exact H|].
      apply metadata_has_no_colon. exact H.
    + intro H. rewrite remove_first_absent; [exact H|].
      apply metadata_has_no_colon. exact H.
Qed.

(** *** Lines of the bullet form *)

Lemma drop_caps_nil (cs : list (nat * jsstring)) : drop_caps [] cs = cs.
Proof.
  unfold drop_caps. induction cs as [|p cs IH]; [reflexivity|].
  cbn [filter existsb negb]. f_equal. exact IH.
Qed.

(** The passes of a greedy starred class, whatever follows. *)
Lemma star_class (n : nat) (p : codeunit -> bool)
    (c : MatchState -> option MatchState) (cs : list (nat * jsstring))
    (fuel : nat) (t : jsstring) :
  (length t <= fuel)%nat ->
  star_loop (fun x' d => matcher n (Chr p) (clear (Chr p) x') d) true c
    fuel (mkState t cs)
  = star_run p c cs t.
Proof.
  revert t. induction fuel as [|f IH]; intros t Hlen.
  - destruct t; [reflexivity|simpl in Hlen; lia].
  - destruct t as [|ch t'].
    + cbn [star_loop matcher clear rest caps groups_of star_run]. reflexivity.
    + cbn [star_loop matcher clear rest caps groups_of star_run].
      rewrite drop_caps_nil. destruct (p ch); [|reflexivity].
      assert (E : (length t' <? length (ch :: t'))%nat = true)
        by (apply Nat.ltb_lt; simpl; lia).
      rewrite E, IH by (simpl in Hlen; lia). reflexivity.
Qed.

Lemma matcher_star_class (n : nat) (p : codeunit -> bool) (x : MatchState)
    (c : MatchState -> option MatchState) :
  matcher n (Star true (Chr p)) x c = star_run p c (caps x) (rest x).
Proof.
  destruct x as [t cs].
  change (matcher n (Star true (Chr p)) (mkState t cs) c)
    with (star_loop (fun x' d => matcher n (Chr p) (clear (Chr p) x') d)
            true c (length t) (mkState t cs)).
  cbn [rest caps]. apply star_class. lia.
Qed.

(** When the continuation accepts after the whole run, that is the
    answer. *)
Lemma star_run_prefix (p : codeunit -> bool)
    (c : MatchState -> option MatchState) (cs : list (nat * jsstring))
    (a u : jsstring) (z : MatchState) :
  forallb p a = true ->
  star_run p c cs u = Some z ->
  star_run p c cs (a ++ u) = Some z.
Proof.
  intros Ha Hu. induction a as [|ch a IH]; [exact Hu|].
  cbn [forallb] in Ha. apply andb_true_iff in Ha. destruct Ha as [H1 H2].
  cbn [app star_run]. rewrite H1, (IH H2). reflexivity.
Qed.

Lemma star_run_stop (p : codeunit -> bool)
    (c : MatchState -> option MatchState) (cs : list (nat * jsstring))
    (ch : codeunit) (t : jsstring) :
  p ch = false -> star_run p c cs (ch :: t) = c (mkState (ch :: t) cs).
Proof. intro H. cbn [star_run]. rewrite H. reflexivity. Qed.

(** A continuation that never refuses gets the longest run. *)
Lemma star_run_greedy (p : codeunit -> bool)
    (c : MatchState -> option MatchState) (cs : list (nat * jsstring))
    (t : jsstring) :
  (forall y, c y <> None) ->
  star_run p c cs t = c (mkState (dropWhile p t) cs).
Proof.
  intro Hc. induction t as [|ch t IH]; [reflexivity|].
  cbn [star_run dropWhile]. destruct (p ch); [|reflexivity].
  rewrite IH. destruct (c (mkState (dropWhile p t) cs)) eqn:E; [reflexivity|].
  exfalso. exact (Hc _ E).
Qed.

Lemma firstn_app_length (a b : jsstring) :
  firstn (length (a ++ b) - length b) (a ++ b) = a.
Proof.
  rewrite length_app.
  replace (length a + length b - length b)%nat with (length a) by lia.
  rewrite firstn_app, Nat.sub_diag, firstn_all. simpl. apply app_nil_r.
Qed.

Lemma matcher_plus_class (n : nat) (p : codeunit -> bool) (ch : codeunit)
    (t : jsstring) (cs : list (nat * jsstring))
    (c : MatchState -> option MatchState) :
  matcher n (Plus true (Chr p)) (mkState (ch :: t) cs) c
  = if p ch then star_run p c cs t else None.
Proof.
  unfold Plus.
  change (matcher n (Seq (Chr p) (Star true (Chr p))) (mkState (ch :: t) cs) c)
    with (if p ch then matcher n (Star true (Chr p)) (mkState t cs) c else None).
  destruct (p ch); [|reflexivity]. apply matcher_star_class.
Qed.

Lemma matcher_stars (n : nat) (r : regex) (s : jsstring)
    (cs : list (nat * jsstring)) (c : MatchState -> option MatchState) :
  matcher n (Seq (lit "**") r) (mkState s cs) c
  = match s with
    | a :: s' =>
        if just "*" a
        then match s' with
             | b :: t => if just "*" b then matcher n r (mkState t cs) c else None
             | [] => None
             end
        else None
    | [] => None
    end.
Proof.
  destruct s as [|a [|b t]]; cbn [matcher lit lit_with rest caps].
  - reflexivity.
  - destruct (just "*" a); reflexivity.
  - destruct (just "*" a); [|reflexivity]. destruct (just "*" b); reflexivity.
Qed.

(** The end of the bullet pattern, [[:\s]+(.+)], on a separator followed
    by a rest that begins with neither a colon nor a space. *)
Lemma matcher_sep_rest (n : nat) (cs : list (nat * jsstring))
    (s0 r0 : codeunit) (sep' rest' : jsstring) :
  colon_or_space s0 = true -> forallb colon_or_space sep' = true ->
  colon_or_space r0 = false ->
  exists (g2 after' : jsstring),
    matcher n (Seq (Plus true (Chr colon_or_space))
                 (Group 2 (Plus true (Chr dot))))
      (mkState (s0 :: sep' ++ r0 :: rest') cs) Some
    = Some (mkState after' ((2%nat, g2) :: drop_caps [2%nat] cs)).
Proof.
  intros H0 Hs Hr.
  assert (Hdot : dot r0 = true).
  { unfold colon_or_space in Hr. apply orb_false_iff in Hr. destruct Hr as [_ Hr].
    unfold is_space in Hr. apply orb_false_iff in Hr. destruct Hr as [_ Hr].
    unfold dot. rewrite Hr. reflexivity. }
  eexists. eexists.
  change (matcher n (Seq ?a ?b) ?x Some)
    with (matcher n a x (fun y => matcher n b y Some)).
  rewrite matcher_plus_class, H0.
  erewrite star_run_prefix; [reflexivity|exact Hs|].
  rewrite star_run_stop by exact Hr.
  change (matcher n (Group 2 ?a) ?x Some)
    with (matcher n a x (fun y =>
            Some (mkState (rest y)
                    ((2%nat, firstn (length (rest x) - length (rest y)) (rest x))
                       :: drop_caps [2%nat] (caps y))))).
  rewrite matcher_plus_class, Hdot.
  rewrite star_run_greedy by discriminate.
  cbn [rest caps]. reflexivity.
Qed.

(** A line of the bullet form is matched by the bullet pattern, and the
    name is its first capture. *)
Lemma bullet_form_matches (marker nm sep rest : jsstring) :
  marker <> [] -> forallb bullet_lead marker = true ->
  nm <> [] -> forallb not_star nm = true -> bullet_lead (hd 0%N nm) = false ->
  sep <> [] -> forallb colon_or_space sep = true ->
  rest <> [] -> colon_or_space (hd 0%N rest) = false ->
  exists bm : MatchResult,
    exec bulletPattern (bullet_form marker nm sep rest) = Some bm
    /\ capture 1 bm = nm.
Proof.
  intros Hm Hlead Hn Hnm Hn0 Hs Hsep Hr Hr0.
  destruct marker as [|m0 mk]; [contradiction|].
  destruct nm as [|n0 nm']; [contradiction|].
  destruct sep as [|s0 sep']; [contradiction|].
  destruct rest as [|r0 rest']; [contradiction|].
  cbn [hd] in Hn0, Hr0. cbn [forallb] in Hlead, Hnm, Hsep.
  apply andb_true_iff in Hlead, Hnm, Hsep.
  destruct Hlead as [Hm0 Hmk], Hnm as [Hns Hnm'], Hsep as [Hs0 Hsep'].
  assert (Hstar : just "*" n0 = false).
  { unfold not_star in Hns. destruct (just "*" n0); [discriminate|reflexivity]. }
  destruct (matcher_sep_rest (length (bullet_form (m0 :: mk) (n0 :: nm')
                                        (s0 :: sep') (r0 :: rest')))
              [(1%nat, n0 :: nm')] s0 r0 sep' rest' Hs0 Hsep' Hr0)
    as (g2 & after' & Htail).
  exists (mkResult []
            (firstn (length (bullet_form (m0 :: mk) (n0 :: nm') (s0 :: sep')
                               (r0 :: rest')) - length after')
               (bullet_form (m0 :: mk) (n0 :: nm') (s0 :: sep') (r0 :: rest')))
            after' [(2%nat, g2); (1%nat, n0 :: nm')]).
  split; [|reflexivity].
  unfold exec. rewrite search_eq.
  set (n := length _).
  assert (E : matcher n bulletPattern
                (mkState (bullet_form (m0 :: mk) (n0 :: nm') (s0 :: sep')
                            (r0 :: rest')) []) Some
              = Some (mkState after' [(2%nat, g2); (1%nat, n0 :: nm')])).
  { unfold bulletPattern.
    change (matcher n (Seq Bol ?b) ?x Some)
      with (if (length (rest x) =? n)%nat then matcher n b x Some else None).
    cbn [rest]. subst n. rewrite Nat.eqb_refl.
    set (n := length _).
    change (matcher n (Seq ?a ?b) ?x Some)
      with (matcher n a x (fun y => matcher n b y Some)).
    unfold bullet_form. rewrite <- app_comm_cons.
    rewrite matcher_plus_class, Hm0.
    apply star_run_prefix; [exact Hmk|].
    (* the two stars belong to the class: the run goes up to the name,
       and comes back twice *)
    change (js "**" ++ (n0 :: nm') ++ js "**" ++ (s0 :: sep') ++ r0 :: rest')
      with (cu "*" :: cu "*" :: n0 :: nm' ++ js "**" ++ (s0 :: sep') ++ r0 :: rest').
    cbn [star_run].
    change (bullet_lead (cu "*")) with true. cbv iota. rewrite Hn0.
    rewrite !matcher_stars. rewrite Hstar.
    change (just "*" (cu "*")) with true. cbv iota.
    cbn [orelse].
    (* the name, up to the next star *)
    change (matcher n (Seq (Group 1 ?a) ?b) ?x Some)
      with (matcher n a x (fun y =>
              matcher n b
                (mkState (rest y)
                   ((1%nat, firstn (length (rest x) - length (rest y)) (rest x))
                      :: drop_caps [1%nat] (caps y))) Some)).
    rewrite matcher_plus_class, Hns.
    apply star_run_prefix; [exact Hnm'|].
    change (js "**" ++ (s0 :: sep') ++ r0 :: rest')
      with (cu "*" :: cu "*" :: s0 :: sep' ++ r0 :: rest').
    rewrite star_run_stop by reflexivity.
    cbn [rest caps]. rewrite matcher_stars.
    change (just "*" (cu "*")) with true. cbv iota.
    change (n0 :: nm' ++ cu "*" :: cu "*" :: s0 :: sep' ++ r0 :: rest')
      with ((n0 :: nm') ++ cu "*" :: cu "*" :: s0 :: sep' ++ r0 :: rest').
    rewrite firstn_app_length.
    exact Htail. }
  rewrite E. reflexivity.
Qed.

(** *** The code units of a reserved name *)



Lemma lower_unit_name (c : codeunit) :
  forallb lower_or_colon (lower_unit c) = true -> name_unit c = true.
Proof.
  unfold lower_unit, name_unit.
  destruct (is_upper c); [reflexivity|].
  destruct (c =? 8490)%N; [intros _; apply orb_true_r|].
  destruct (c =? 304)%N; [discriminate|].
  cbn [forallb]. rewrite andb_true_r. unfold lower_or_colon.
  intro H. rewrite orb_false_r. cbn [orb]. exact H.
Qed.

Lemma toLowerCase_names (s : jsstring) :
  forallb lower_or_colon (toLowerCase s) = true -> forallb name_unit s = true.
Proof.
  unfold toLowerCase. induction s as [|c t IH]; [reflexivity|].
  cbn [flat_map forallb]. rewrite forallb_app. intro H.
  apply andb_true_iff in H. destruct H as [H1 H2].
  rewrite (lower_unit_name c H1), (IH H2). reflexivity.
Qed.

Lemma name_unit_range (c : codeunit) :
  name_unit c = true ->
  (65 <= c <= 90 \/ 97 <= c <= 122 \/ c = 58 \/ c = 8490)%N.
Proof.
  unfold name_unit, is_upper, is_lower. intro H.
  repeat (apply orb_true_iff in H; destruct H as [H|H]).
  - apply andb_true_iff in H. destruct H as [H1 H2].
    apply N.leb_le in H1, H2. lia.
  - apply andb_true_iff in H. destruct H as [H1 H2].
    apply N.leb_le in H1, H2. lia.
  - apply N.eqb_eq in H. right. right. left. exact H.
  - apply N.eqb_eq in H. right. right. right. exact H.
Qed.

Ltac decide_units :=
  repeat match goal with
         | |- context [(?a =? ?b)%N] =>
             replace (a =? b)%N with false by (symmetry; apply N.eqb_neq; lia)
         | |- context [(?a <=? ?b)%N] =>
             first [ replace (a <=? b)%N with false
                       by (symmetry; apply N.leb_gt; lia)
                   | replace (a <=? b)%N with true
                       by (symmetry; apply N.leb_le; lia) ]
         end;
  reflexivity.

Lemma name_unit_not_space (c : codeunit) : name_unit c = true -> is_space c = false.
Proof.
  intro H. apply name_unit_range in H.
  unfold is_space, is_white_space, is_line_terminator.
  destruct H as [H|[H|[H|H]]]; decide_units.
Qed.

Lemma name_unit_not_lead (c : codeunit) : name_unit c = true -> bullet_lead c = false.
Proof.
  intro H. unfold bullet_lead. rewrite (name_unit_not_space c H).
  apply name_unit_range in H.
  unfold any_of, bullet_dot. cbn [existsb orb].
  change (cu "-") with 45%N. change (cu "*") with 42%N.
  destruct H as [H|[H|[H|H]]]; decide_units.
Qed.

Lemma name_unit_not_star (c : codeunit) : name_unit c = true -> not_star c = true.
Proof.
  intro H. apply name_unit_range in H. unfold not_star, just.
  change (cu "*") with 42%N.
  destruct H as [H|[H|[H|H]]]; decide_units.
Qed.

Lemma forallb_imp (p q : codeunit -> bool) (s : jsstring) :
  (forall c, p c = true -> q c = true) ->
  forallb p s = true -> forallb q s = true.
Proof.
  intros Hpq. induction s as [|c t IH]; [reflexivity|].
  cbn [forallb]. intro H. apply andb_true_iff in H. destruct H as [H1 H2].
  rewrite (Hpq c H1), (IH H2). reflexivity.
Qed.

Lemma dropWhile_none (p q : codeunit -> bool) (s : jsstring) :
  (forall c, q c = true -> p c = false) ->
  forallb q s = true -> dropWhile p s = s.
Proof.
  intros Hqp H. destruct s as [|c t]; [reflexivity|].
  cbn [forallb] in H. apply andb_true_iff in H. destruct H as [H1 _].
  cbn [dropWhile]. rewrite (Hqp c H1). reflexivity.
Qed.

Lemma forallb_rev_units (q : codeunit -> bool) (s : jsstring) :
  forallb q s = true -> forallb q (rev s) = true.
Proof.
  rewrite !forallb_forall. intros H c Hc. apply H. apply in_rev. exact Hc.
Qed.

Lemma trim_names (s : jsstring) : forallb name_unit s = true -> trim s = s.
Proof.
  intro H. unfold trim.
  rewrite (@dropWhile_none is_space name_unit s name_unit_not_space H).
  rewrite (@dropWhile_none is_space name_unit (rev s) name_unit_not_space
             (@forallb_rev_units _ _ H)).
  apply rev_involutive.
Qed.

Lemma metadata_lower (f : jsstring) :
  array_includes metadataFields f = true ->
  forallb lower_or_colon f = true /\ f <> [].
Proof.
  unfold array_includes. rewrite existsb_exists.
  intros [x [Hin Hx]]. unfold eqs in Hx.
  destruct (list_eq_dec N.eq_dec f x) as [->|]; [|discriminate].
  simpl in Hin.
  repeat (destruct Hin as [<-|Hin]; [split; [reflexivity|discriminate]|]).
  contradiction.
Qed.

(** A reserved name is made of ASCII letters and colons (or the Kelvin
    sign): it is not empty, holds no star and no space, and does not begin
    with a code unit of the bullet marker. *)
Lemma reserved_name_units (nm : jsstring) :
  reserved_name nm = true -> nm <> [] /\ forallb name_unit nm = true.
Proof.
  unfold reserved_name, strip_colon. intro H.
  assert (L : forallb lower_or_colon (toLowerCase nm) = true
              /\ toLowerCase nm <> []).
  { destruct (rev (toLowerCase nm)) as [|c r] eqn:E.
    - apply metadata_lower in H. exact H.
    - destruct (c =? cu ":")%N eqn:Ec.
      + apply metadata_lower in H. destruct H as [H _].
        assert (Ex : toLowerCase nm = rev r ++ [c]).
        { rewrite <- (rev_involutive (toLowerCase nm)), E. reflexivity. }
        rewrite Ex. split.
        * rewrite forallb_app, H. cbn [forallb]. unfold lower_or_colon.
          rewrite Ec, orb_true_r. reflexivity.
        * destruct (rev r); discriminate.
      + apply metadata_lower in H. exact H. }
  destruct L as [L1 L2]. split.
  - intros ->. apply L2. reflexivity.
  - apply toLowerCase_names. exact L1.
Qed.

(** A line that the bullet pattern matches with a reserved name is
    handled as any plain line. *)
Lemma matched_reserved_bullet (h : Host) (st : LoopState)
    (line : jsstring) (bm : MatchResult) :
  exec bulletPattern (trim line) = Some bm ->
  reserved_name (trim (capture 1 bm)) = true ->
  step h st line = collect st line (trim line).
Proof.
  intros Hb Hr. unfold step.
  rewrite (bullet_is_not_h3 _ Hb), Hb.
  cbv zeta. rewrite (reserved_is_skipped _ Hr). reflexivity.
Qed.

Lemma collect_keeps (st : LoopState) (line trimmed : jsstring) :
  tools (collect st line trimmed) = tools st
  /\ currentTool (collect st line trimmed) = currentTool st
  /\ ticks (collect st line trimmed) = ticks st
  /\ (currentTool st <> None ->
      currentBlock (collect st line trimmed) = currentBlock st ++ [line]).
Proof.
  unfold collect.
  destruct (currentTool st) as [cur|] eqn:Ec; simpl;
    repeat split; try reflexivity; try congruence.
Qed.

(** C4. A line (trimmed) of the form marker, "**", Name, "**", separator,
    rest - the marker made of bullet signs and spaces, the separator of
    colons and spaces, the rest beginning with another code unit - whose
    Name is reserved (one of the metadata fields once lower-cased and
    without its trailing colon) is handled as any plain line: no tool is
    saved or started, the current tool stays, and the line joins its
    block.  For the line "- **GitHub:** https://github.com/x/y" this holds
    in every state (its description stays too), and after a heading
    "### Foo" it yields the single tool Foo with that address as its
    githubUrl. *)
Theorem reserved_bullet_is_block_content (h : Host) (st : LoopState)
    (line marker nm sep rest : jsstring) :
  trim line = bullet_form marker nm sep rest ->
  marker <> [] -> forallb bullet_lead marker = true ->
  reserved_name nm = true ->
  sep <> [] -> forallb colon_or_space sep = true ->
  rest <> [] -> colon_or_space (hd 0%N rest) = false ->
  (step h st line = collect st line (trim line)
   /\ tools (step h st line) = tools st
   /\ currentTool (step h st line) = currentTool st
   /\ ticks (step h st line) = ticks st
   /\ (currentTool st <> None ->
       currentBlock (step h st line) = currentBlock st ++ [line]))
  /\ (forall st' : LoopState,
        tools (step h st' github_line) = tools st'
        /\ currentTool (step h st' github_line) = currentTool st'
        /\ (currentTool st' <> None ->
            currentBlock (step h st' github_line)
            = currentBlock st' ++ [github_line]
            /\ currentDescription (step h st' github_line)
               = currentDescription st'))
  /\ map (fun t => (name t, githubUrl t)) (extractTools h foo_digest)
     = [(js "Foo", Some (js "https://github.com/x/y"))].
Proof.
  intros Hline Hm Hlead Hres Hs Hsep Hr Hr0.
  destruct (@reserved_name_units nm Hres) as [Hne Hunits].
  destruct (@bullet_form_matches marker nm sep rest Hm Hlead Hne
              (@forallb_imp name_unit not_star nm name_unit_not_star Hunits))
    as (bm & Hbm & Hcap); try assumption.
  { destruct nm as [|n0 nm']; [contradiction|].
    cbn [forallb] in Hunits. apply andb_true_iff in Hunits.
    apply name_unit_not_lead. exact (proj1 Hunits). }
  assert (E : step h st line = collect st line (trim line)).
  { apply (@matched_reserved_bullet h st line bm).
    - rewrite Hline. exact Hbm.
    - rewrite Hcap, (@trim_names nm Hunits). exact Hres. }
  split; [|split].
  - rewrite E. split; [reflexivity|]. apply collect_keeps.
  - intro st'.
    assert (E' : step h st' github_line = collect st' github_line github_line)
      by reflexivity.
    rewrite E'. unfold collect.
    destruct (currentTool st') as [cur|] eqn:Ec; simpl;
      repeat split; try reflexivity; try congruence.
  - vm_compute. reflexivity.
Qed.

Lemma reserved_bullet_is_block_content_witness :
  (trim github_line
   = bullet_form (js "- ") (js "GitHub:") (js " ") (js "https://github.com/x/y")
   /\ js "- " <> []
   /\ forallb bullet_lead (js "- ") = true
   /\ reserved_name (js "GitHub:") = true
   /\ js " " <> []
   /\ forallb colon_or_space (js " ") = true
   /\ js "https://github.com/x/y" <> []
   /\ colon_or_space (hd 0%N (js "https://github.com/x/y")) = false)
  /\ step example_host (initial 0) github_line
     = collect (initial 0) github_line (trim github_line).
Proof.
  split.
  - repeat split; try reflexivity; discriminate.
  - apply (@reserved_bullet_is_block_content example_host (initial 0)
             github_line (js "- ") (js "GitHub:") (js " ")
             (js "https://github.com/x/y"));
      try reflexivity; discriminate.
Defined.

(** *** Two runs of the extractor *)

Section TwoRuns.

Variables h1 h2 : Host.

Lemma finalizeTool_untimed (p1 p2 : PartialTool) (d : jsstring) (k1 k2 : nat) :
  untimed_partial p1 = untimed_partial p2 ->
  untimed (fst (finalizeTool h1 p1 d k1)) = untimed (fst (finalizeTool h2 p2 d k2)).
Proof.
  unfold untimed_partial. intro H. injection H as Hn Hs Hi Hg Hsrc.
  unfold finalizeTool, untimed. cbn [fst name slug description installCommand
    githubUrl source category].
  rewrite Hn, Hs, Hi, Hg, Hsrc. reflexivity.
Qed.

Lemma saveTool_untimed (a b : LoopState) :
  same_untimed a b -> same_untimed (saveTool h1 a) (saveTool h2 b).
Proof.
  intros (Ht & Hc & Hd & Hb). unfold saveTool.
  destruct (currentTool a) as [ca|] eqn:Ea;
    destruct (currentTool b) as [cb|] eqn:Eb;
    try discriminate Hc.
  - simpl in Hc. injection Hc as Hn Hs Hi Hg Hsrc.
    rewrite Hn, Hb, Hd.
    destruct (truthy (p_name cb)).
    + unfold finalizeTool. cbv zeta. unfold same_untimed.
      cbn [tools currentTool currentDescription currentBlock fst snd].
      rewrite !map_app, Ht.
      repeat split.
      * f_equal. cbn [map]. f_equal. unfold untimed.
        cbn [name slug description installCommand githubUrl source category
             p_name p_slug p_installCommand p_githubUrl p_source].
        rewrite ?Hn, ?Hs, ?Hi, ?Hg, ?Hsrc. reflexivity.
      * cbn [option_map]. f_equal. unfold untimed_partial.
        cbn [p_name p_slug p_installCommand p_githubUrl p_source].
        rewrite ?Hn, ?Hs, ?Hi, ?Hg, ?Hsrc. reflexivity.
    + unfold same_untimed. rewrite ?Ea, ?Eb. cbn [option_map].
      repeat split; try assumption.
      unfold untimed_partial. rewrite ?Hn, ?Hs, ?Hi, ?Hg, ?Hsrc. reflexivity.
  - unfold same_untimed. rewrite ?Ea, ?Eb. repeat split; assumption.
Qed.

Lemma start_tool_untimed (a b : LoopState) (nm : jsstring) (d : list jsstring) :
  same_untimed a b -> same_untimed (start_tool h1 a nm d) (start_tool h2 b nm d).
Proof.
  intro H. apply saveTool_untimed in H. destruct H as (Ht & _).
  unfold start_tool, same_untimed.
  cbn [tools currentTool currentDescription currentBlock].
  repeat split. exact Ht.
Qed.

Lemma collect_untimed (a b : LoopState) (line trimmed : jsstring) :
  same_untimed a b -> same_untimed (collect a line trimmed) (collect b line trimmed).
Proof.
  intros (Ht & Hc & Hd & Hb). unfold collect.
  destruct (currentTool a) as [ca|] eqn:Ea;
    destruct (currentTool b) as [cb|] eqn:Eb;
    try discriminate Hc.
  - unfold same_untimed.
    cbn [tools currentTool currentDescription currentBlock].
    rewrite ?Ea, ?Eb, ?Hd, ?Hb. repeat split; assumption.
  - unfold same_untimed. rewrite ?Ea, ?Eb. repeat split; assumption.
Qed.

Lemma step_untimed (a b : LoopState) (line : jsstring) :
  same_untimed a b -> same_untimed (step h1 a line) (step h2 b line).
Proof.
  intro H. unfold step. cbv zeta.
  destruct (exec h3Pattern (trim line)) as [hm|].
  - apply start_tool_untimed. exact H.
  - destruct (exec bulletPattern (trim line)) as [bm|].
    + destruct (negb _).
      * apply start_tool_untimed. exact H.
      * apply collect_untimed. exact H.
    + apply collect_untimed. exact H.
Qed.

Lemma loop_untimed (lines : list jsstring) (a b : LoopState) :
  same_untimed a b ->
  same_untimed (fold_left (step h1) lines a) (fold_left (step h2) lines b).
Proof.
  revert a b. induction lines as [|l ls IH]; intros a b H; simpl.
  - exact H.
  - apply IH. apply step_untimed. exact H.
Qed.

End TwoRuns.

(** C8, as the source has it: two runs of extractTools on the same text,
    under any two hosts and from any two clock readings, give tool lists
    that are equal in every field but the time stamp extractedAt (so also
    of the same length and order); extractNews does not read the clock at
    all. *)
Theorem extraction_repeats_up_to_stamps (h1 h2 : Host) (k1 k2 : nat)
    (content : jsstring) :
  map untimed (fst (extractTools_from h1 k1 content))
  = map untimed (fst (extractTools_from h2 k2 content)).
Proof.
  unfold extractTools_from. cbn [fst].
  assert (H : same_untimed (initial k1) (initial k2)).
  { unfold same_untimed, initial. simpl. repeat split. }
  apply (loop_untimed h1 h2 (split LF content)) in H.
  apply (saveTool_untimed h1 h2) in H.
  destruct H as (Ht & _). exact Ht.
Qed.

(** The second of two runs in a row stamps its tools with a later clock
    reading: the two tool lists differ. *)
Lemma rerun_changes_stamps :
  fst (extractTools_from example_host 0 (js "### A"))
  <> fst (extractTools_from example_host
            (snd (extractTools_from example_host 0 (js "### A")))
            (js "### A")).
Proof. vm_compute. discriminate. Qed.

(** *** Names *)

Section Names.

Variable h : Host.

Lemma saveTool_names (st : LoopState) :
  names_nonempty st -> names_nonempty (saveTool h st).
Proof.
  unfold names_nonempty, saveTool. intro H.
  destruct (currentTool st) as [cur|]; [|exact H].
  destruct (truthy (p_name cur)) eqn:E; [|exact H].
  unfold finalizeTool. cbv zeta. cbn [tools].
  apply Forall_app. split; [exact H|].
  constructor; [|constructor].
  cbn [name p_name]. unfold truthy in E.
  destruct (p_name cur) as [[|c t]|]; discriminate.
Qed.

Lemma step_names (st : LoopState) (line : jsstring) :
  names_nonempty st -> names_nonempty (step h st line).
Proof.
  intro H.
  assert (S : forall nm d, names_nonempty (start_tool h st nm d)).
  { intros nm d. unfold start_tool, names_nonempty. cbn [tools].
    apply saveTool_names. exact H. }
  assert (C : forall l t, names_nonempty (collect st l t)).
  { intros l t. unfold collect.
    destruct (currentTool st); [|exact H]. exact H. }
  unfold step. cbv zeta.
  destruct (exec h3Pattern (trim line)); [apply S|].
  destruct (exec bulletPattern (trim line)); [|apply C].
  destruct (negb _); [apply S|apply C].
Qed.

(** Every tool that extractTools returns has a non-empty name: saveTool
    skips a current tool whose name is empty. *)
Lemma extractTools_names_nonempty (k : nat) (content : jsstring) :
  Forall (fun t => name t <> []) (fst (extractTools_from h k content)).
Proof.
  unfold extractTools_from. cbn [fst].
  apply saveTool_names.
  assert (G : forall lines st, names_nonempty st ->
                names_nonempty (fold_left (step h) lines st)).
  { induction lines as [|l ls IH]; intros st Hst; simpl.
    - exact Hst.
    - apply IH. apply step_names. exact Hst. }
  apply G. constructor.
Qed.

End Names.

(** ** The slug *)

(** *** The two patterns of slugify, run by the matcher *)

Lemma dropWhile_length (p : codeunit -> bool) (s : jsstring) :
  (length (dropWhile p s) <= length s)%nat.
Proof.
  induction s as [|c t IH]; simpl.
  - lia.
  - destruct (p c); simpl; lia.
Qed.

Lemma firstn_dropWhile (p : codeunit -> bool) (s : jsstring) :
  firstn (length s - length (dropWhile p s)) s = takeWhile p s.
Proof.
  induction s as [|c t IH]; [reflexivity|].
  cbn [dropWhile takeWhile]. destruct (p c) eqn:E.
  - pose proof (dropWhile_length p t) as L.
    change (length (c :: t)) with (S (length t)).
    replace (S (length t) - length (dropWhile p t))%nat
      with (S (length t - length (dropWhile p t))) by lia.
    cbn [firstn]. rewrite IH. reflexivity.
  - rewrite Nat.sub_diag. reflexivity.
Qed.

(** A greedy starred class in last position takes the longest run. *)
Lemma star_class_last (n : nat) (p : codeunit -> bool) (fuel : nat) (t : jsstring) :
  (length t <= fuel)%nat ->
  star_loop (fun x' d => matcher n (Chr p) (clear (Chr p) x') d) true Some
    fuel (mkState t [])
  = Some (mkState (dropWhile p t) []).
Proof.
  revert t. induction fuel as [|f IH]; intros t Hlen.
  - destruct t; [reflexivity|simpl in Hlen; lia].
  - destruct t as [|c t'].
    + reflexivity.
    + cbn [star_loop matcher clear rest caps groups_of drop_caps filter dropWhile].
      destruct (p c).
      * assert (E : (length t' <? length (c :: t'))%nat = true)
          by (apply Nat.ltb_lt; simpl; lia).
        rewrite E, IH by (simpl in Hlen; lia). reflexivity.
      * reflexivity.
Qed.

Lemma matcher_nonAlnumRun (n : nat) (s : jsstring) :
  matcher n nonAlnumRun (mkState s []) Some
  = match s with
    | c :: t =>
        if is_alnum c then None else Some (mkState (dropWhile not_alnum t) [])
    | [] => None
    end.
Proof.
  destruct s as [|c t]; [reflexivity|].
  unfold nonAlnumRun, Plus. cbn [matcher rest caps].
  destruct (is_alnum c); [reflexivity|]. cbn [negb].
  apply (star_class_last n not_alnum). lia.
Qed.

Lemma search_nonAlnumRun (n : nat) (s pre : jsstring) :
  search n nonAlnumRun pre s
  = match dropWhile is_alnum s with
    | [] => None
    | c :: t =>
        Some (mkResult (rev pre ++ takeWhile is_alnum s)
                (c :: takeWhile not_alnum t) (dropWhile not_alnum t) [])
    end.
Proof.
  revert pre. induction s as [|c t IH]; intro pre.
  - reflexivity.
  - cbn [search]. rewrite matcher_nonAlnumRun.
    cbn [dropWhile takeWhile]. destruct (is_alnum c) eqn:E.
    + rewrite IH. destruct (dropWhile is_alnum t); [reflexivity|].
      cbn [rev]. rewrite <- app_assoc. reflexivity.
    + cbn [rest caps]. rewrite app_nil_r.
      pose proof (dropWhile_length not_alnum t) as L.
      change (length (c :: t)) with (S (length t)).
      replace (S (length t) - length (dropWhile not_alnum t))%nat
        with (S (length t - length (dropWhile not_alnum t))) by lia.
      cbn [firstn]. rewrite firstn_dropWhile. reflexivity.
Qed.

Lemma squeeze_words (s : jsstring) :
  squeeze false s = takeWhile is_alnum s ++ squeeze false (dropWhile is_alnum s).
Proof.
  induction s as [|c t IH]; [reflexivity|].
  cbn [takeWhile dropWhile squeeze]. destruct (is_alnum c) eqn:E.
  - rewrite IH. reflexivity.
  - cbn [squeeze app]. rewrite E. reflexivity.
Qed.

Lemma squeeze_in_run (t : jsstring) :
  squeeze true t = squeeze false (dropWhile not_alnum t).
Proof.
  induction t as [|c t IH]; [reflexivity|].
  cbn [squeeze dropWhile]. unfold not_alnum at 1.
  destruct (is_alnum c) eqn:E; cbn [negb].
  - cbn [squeeze]. rewrite E. reflexivity.
  - exact IH.
Qed.

Lemma replace_loop_nonAlnumRun (n fuel : nat) (s : jsstring) :
  (length s < fuel)%nat ->
  replace_loop fuel n nonAlnumRun (js "-") s = squeeze false s.
Proof.
  revert s. induction fuel as [|f IH]; intros s Hlen; [lia|].
  cbn [replace_loop]. rewrite search_nonAlnumRun.
  rewrite (squeeze_words s).
  pose proof (dropWhile_length is_alnum s) as L1.
  destruct (dropWhile is_alnum s) as [|c t] eqn:E.
  - assert (T : takeWhile is_alnum s = s).
    { clear - E. induction s as [|d s IH]; [reflexivity|].
      simpl in *. destruct (is_alnum d); [|discriminate].
      rewrite IH by exact E. reflexivity. }
    rewrite T. cbn [squeeze]. rewrite app_nil_r. reflexivity.
  - cbn [before matched after rev app].
    assert (Ec : is_alnum c = false).
    { clear - E. induction s as [|d s IH]; [discriminate|].
      simpl in E. destruct (is_alnum d) eqn:Ed.
      - apply IH. exact E.
      - injection E as -> _. exact Ed. }
    cbn [squeeze]. rewrite Ec.
    pose proof (dropWhile_length not_alnum t) as L2.
    rewrite IH by (simpl in L1; lia).
    rewrite squeeze_in_run. reflexivity.
Qed.

Lemma replace_g_nonAlnumRun (s : jsstring) :
  replace_g nonAlnumRun (js "-") s = squeeze false s.
Proof. unfold replace_g. apply replace_loop_nonAlnumRun. lia. Qed.

Lemma last_dash_cons (c c' : codeunit) (t : jsstring) :
  last_dash (c :: c' :: t) = option_map (cons c) (last_dash (c' :: t)).
Proof. reflexivity. Qed.

Lemma search_end (n : nat) (r : regex) (pre : jsstring) :
  matcher n r (mkState [] []) Some = None -> search n r pre [] = None.
Proof. intro H. cbn [search]. rewrite H. reflexivity. Qed.

Lemma matcher_edgeDash_later (n : nat) (s : jsstring) :
  (length s < n)%nat ->
  matcher n edgeDash (mkState s []) Some
  = match s with
    | [c] => if (c =? dash)%N then Some (mkState [] []) else None
    | _ => None
    end.
Proof.
  intro Hlen.
  assert (E : (length s =? n)%nat = false) by (apply Nat.eqb_neq; lia).
  unfold edgeDash. cbn [matcher rest caps]. rewrite E. cbn [orelse].
  unfold just. fold dash.
  destruct s as [|c [|c' t']]; [reflexivity| |];
    destruct (c =? dash)%N; reflexivity.
Qed.

(** The second pattern away from the start of the input: only a dash in
    last position matches. *)
Lemma search_edgeDash_later (n : nat) (s pre : jsstring) :
  (length s < n)%nat ->
  search n edgeDash pre s
  = option_map (fun i => mkResult (rev pre ++ i) [dash] [] []) (last_dash s).
Proof.
  revert pre. induction s as [|c t IH]; intros pre Hlen.
  - apply search_end. rewrite matcher_edgeDash_later by exact Hlen. reflexivity.
  - cbn [search]. rewrite matcher_edgeDash_later by exact Hlen.
    destruct t as [|c' t'].
    + cbn [last_dash]. destruct (c =? dash)%N eqn:Ec.
      * apply N.eqb_eq in Ec. subst c.
        cbn [option_map rest caps length Nat.sub firstn].
        rewrite app_nil_r. reflexivity.
      * apply search_end.
        rewrite matcher_edgeDash_later by (simpl in *; lia). reflexivity.
    + rewrite IH by (simpl in *; lia). rewrite last_dash_cons.
      destruct (last_dash (c' :: t')); [|reflexivity].
      cbn [option_map rev]. rewrite <- app_assoc. reflexivity.
Qed.

Lemma replace_loop_end (n fuel : nat) :
  (0 < n)%nat -> replace_loop fuel n edgeDash [] [] = [].
Proof.
  intro Hn. destruct fuel as [|f]; [reflexivity|].
  cbn [replace_loop]. rewrite search_edgeDash_later by exact Hn.
  reflexivity.
Qed.

Lemma replace_loop_edgeDash_later (n fuel : nat) (t : jsstring) :
  (length t < n)%nat -> (0 < fuel)%nat ->
  replace_loop fuel n edgeDash [] t = strip_last t.
Proof.
  intros Hlen Hf. destruct fuel as [|f]; [lia|].
  cbn [replace_loop]. rewrite search_edgeDash_later by exact Hlen.
  unfold strip_last. destruct (last_dash t) as [i|]; [|reflexivity].
  cbn [option_map before matched after rev app].
  rewrite replace_loop_end by lia. apply app_nil_r.
Qed.

Lemma firstn_head (c : codeunit) (t : jsstring) :
  firstn (length (c :: t) - length t) (c :: t) = [c].
Proof.
  change (length (c :: t)) with (S (length t)).
  replace (S (length t) - length t)%nat with 1%nat by lia. reflexivity.
Qed.

Lemma replace_g_edgeDash (s : jsstring) :
  replace_g edgeDash [] s = strip_last (strip_first s).
Proof.
  unfold replace_g. destruct s as [|c t]; [reflexivity|].
  cbn [replace_loop search]. unfold edgeDash at 1.
  cbn [matcher rest caps]. rewrite Nat.eqb_refl.
  unfold just. fold dash. cbn [strip_first].
  destruct (c =? dash)%N eqn:Ec.
  - cbn [orelse rest caps before matched after rev app].
    rewrite firstn_head.
    apply replace_loop_edgeDash_later; simpl; lia.
  - cbn [orelse]. rewrite search_edgeDash_later by (simpl; lia).
    unfold strip_last. destruct t as [|c' t'].
    + cbn [last_dash]. rewrite Ec. reflexivity.
    + rewrite last_dash_cons.
      destruct (last_dash (c' :: t')) as [i|]; [|reflexivity].
      cbn [option_map before matched after rev app].
      rewrite replace_loop_end by (simpl; lia). rewrite app_nil_r. reflexivity.
Qed.

(** slugify without patterns. *)
Lemma slugify_squeeze (text : jsstring) :
  slugify text = strip_last (strip_first (squeeze false (toLowerCase text))).
Proof.
  unfold slugify. rewrite replace_g_nonAlnumRun, replace_g_edgeDash.
  reflexivity.
Qed.

(** *** The form of a slug *)

Lemma dash_not_alnum : is_alnum dash = false.
Proof. reflexivity. Qed.

Lemma squeeze_dashed (b : bool) (s : jsstring) : dashed b (squeeze b s) = true.
Proof.
  revert b. induction s as [|c t IH]; intro b; [reflexivity|].
  cbn [squeeze]. destruct (is_alnum c) eqn:E.
  - cbn [dashed]. rewrite E. apply IH.
  - destruct b.
    + apply IH.
    + cbn [dashed]. rewrite dash_not_alnum, N.eqb_refl, IH. reflexivity.
Qed.

Lemma strip_first_dashed (s : jsstring) :
  dashed false s = true -> dashed true (strip_first s) = true.
Proof.
  destruct s as [|c t]; [reflexivity|].
  cbn [strip_first dashed]. destruct (is_alnum c) eqn:E.
  - intro H. destruct (c =? dash)%N eqn:Ec.
    + apply N.eqb_eq in Ec. subst c. rewrite dash_not_alnum in E. discriminate.
    + cbn [dashed]. rewrite E. exact H.
  - intro H. apply andb_true_iff in H. destruct H as [H1 H2].
    apply andb_true_iff in H1. destruct H1 as [H1 _].
    rewrite H1. exact H2.
Qed.

Lemma last_dash_nil (s : jsstring) : last_dash s = Some [] -> s = [dash].
Proof.
  destruct s as [|c [|c' t']].
  - discriminate.
  - cbn [last_dash]. destruct (c =? dash)%N eqn:Ec; [|discriminate].
    apply N.eqb_eq in Ec. subst c. reflexivity.
  - rewrite last_dash_cons. destruct (last_dash (c' :: t')); discriminate.
Qed.

Lemma last_dash_none_cons (c : codeunit) (i : jsstring) :
  last_dash i = None -> (i = [] -> (c =? dash)%N = false) ->
  last_dash (c :: i) = None.
Proof.
  intros Hi Hc. destruct i as [|d i'].
  - cbn [last_dash]. rewrite Hc by reflexivity. reflexivity.
  - rewrite last_dash_cons, Hi. reflexivity.
Qed.

Lemma alnum_not_dash (c : codeunit) : is_alnum c = true -> (c =? dash)%N = false.
Proof.
  intro H. destruct (c =? dash)%N eqn:E; [|reflexivity].
  apply N.eqb_eq in E. subst c. rewrite dash_not_alnum in H. discriminate.
Qed.

(** Taking the final dash off dashed words leaves dashed words that do
    not end with a dash. *)
Lemma last_dash_dashed (s i : jsstring) (b : bool) :
  last_dash s = Some i -> dashed b s = true ->
  dashed b i = true /\ last_dash i = None.
Proof.
  revert i b. induction s as [|c t IH]; intros i b Hl Hd; [discriminate|].
  destruct t as [|c' t'].
  - cbn [last_dash] in Hl. destruct (c =? dash)%N; [|discriminate].
    injection Hl as <-. split; reflexivity.
  - rewrite last_dash_cons in Hl.
    destruct (last_dash (c' :: t')) as [i'|] eqn:El; [|discriminate].
    injection Hl as <-.
    change (dashed b (c :: c' :: t'))
      with (if is_alnum c then dashed false (c' :: t')
            else (c =? dash)%N && negb b && dashed true (c' :: t')) in Hd.
    change (dashed b (c :: i'))
      with (if is_alnum c then dashed false i'
            else (c =? dash)%N && negb b && dashed true i').
    destruct (is_alnum c) eqn:E.
    + destruct (IH i' false eq_refl Hd) as [I1 I2].
      split; [exact I1|].
      apply last_dash_none_cons; [exact I2|].
      intros _. apply alnum_not_dash. exact E.
    + apply andb_true_iff in Hd. destruct Hd as [H1 H2].
      destruct (IH i' true eq_refl H2) as [I1 I2].
      split; [rewrite H1, I1; reflexivity|].
      apply last_dash_none_cons; [exact I2|].
      intros ->. apply last_dash_nil in El. injection El as -> _.
      cbn [dashed] in H2. rewrite dash_not_alnum, andb_false_r in H2.
      discriminate.
Qed.

Lemma strip_last_dashed (b : bool) (s : jsstring) :
  dashed b s = true ->
  dashed b (strip_last s) = true /\ last_dash (strip_last s) = None.
Proof.
  intro H. unfold strip_last. destruct (last_dash s) as [i|] eqn:E.
  - apply (last_dash_dashed s b E H).
  - split; assumption.
Qed.

Lemma slugify_slug_form (text : jsstring) : slug_form (slugify text).
Proof.
  rewrite slugify_squeeze. unfold slug_form.
  apply strip_last_dashed. apply strip_first_dashed. apply squeeze_dashed.
Qed.

Lemma dashed_weaken (s : jsstring) : dashed true s = true -> dashed false s = true.
Proof.
  destruct s as [|c t]; [reflexivity|]. cbn [dashed].
  destruct (is_alnum c); [auto|]. rewrite andb_false_r. discriminate.
Qed.

Lemma lower_unit_alnum (c : codeunit) : is_alnum c = true -> lower_unit c = [c].
Proof.
  unfold is_alnum, is_lower, is_digit, lower_unit, is_upper. intro H.
  assert (R : (97 <= c <= 122 \/ 48 <= c <= 57)%N).
  { apply orb_true_iff in H. destruct H as [H|H];
      apply andb_true_iff in H; destruct H as [H1 H2];
      apply N.leb_le in H1, H2; lia. }
  assert (E1 : ((65 <=? c) && (c <=? 90))%N = false).
  { apply andb_false_iff.
    destruct (N.leb_spec 65 c); [right|left; reflexivity].
    apply N.leb_gt. lia. }
  assert (E2 : (c =? 8490)%N = false) by (apply N.eqb_neq; lia).
  assert (E3 : (c =? 304)%N = false) by (apply N.eqb_neq; lia).
  rewrite E1, E2, E3. reflexivity.
Qed.

Lemma dashed_lower (b : bool) (s : jsstring) :
  dashed b s = true -> toLowerCase s = s.
Proof.
  revert b. induction s as [|c t IH]; intros b H; [reflexivity|].
  unfold toLowerCase. cbn [flat_map]. fold (toLowerCase t).
  cbn [dashed] in H. destruct (is_alnum c) eqn:E.
  - rewrite (lower_unit_alnum c E), (IH _ H). reflexivity.
  - apply andb_true_iff in H. destruct H as [H1 H2].
    apply andb_true_iff in H1. destruct H1 as [H1 _].
    apply N.eqb_eq in H1. subst c. rewrite (IH _ H2). reflexivity.
Qed.

Lemma dashed_squeeze (b : bool) (s : jsstring) :
  dashed b s = true -> squeeze b s = s.
Proof.
  revert b. induction s as [|c t IH]; intros b H; [reflexivity|].
  cbn [dashed] in H. cbn [squeeze]. destruct (is_alnum c) eqn:E.
  - rewrite (IH _ H). reflexivity.
  - apply andb_true_iff in H. destruct H as [H1 H2].
    apply andb_true_iff in H1. destruct H1 as [H1 H3].
    apply N.eqb_eq in H1. subst c. destruct b; [discriminate|].
    rewrite (IH _ H2). reflexivity.
Qed.

Lemma dashed_strip_first (s : jsstring) :
  dashed true s = true -> strip_first s = s.
Proof.
  destruct s as [|c t]; [reflexivity|]. cbn [dashed strip_first].
  destruct (c =? dash)%N eqn:Ec; [|reflexivity].
  apply N.eqb_eq in Ec. subst c. rewrite dash_not_alnum, andb_false_r.
  discriminate.
Qed.

(** slugify leaves a text of the form of a slug as it is. *)
Lemma slugify_fixes_slugs (s : jsstring) : slug_form s -> slugify s = s.
Proof.
  intros [Hd Hl]. rewrite slugify_squeeze.
  rewrite (dashed_lower _ _ Hd).
  rewrite (dashed_squeeze _ _ (dashed_weaken _ Hd)).
  rewrite (dashed_strip_first _ Hd).
  unfold strip_last. rewrite Hl. reflexivity.
Qed.

(** C7. slugify is a function from strings to strings, defined on every
    string (equal names give equal slugs); it is idempotent; and the slug
    of "Claude Code Memory Plugin" is "claude-code-memory-plugin". *)
Theorem slugify_idempotent :
  (forall s : jsstring, slugify (slugify s) = slugify s)
  /\ (forall s : jsstring, exists slug : jsstring, slugify s = slug)
  /\ (forall a b : jsstring, a = b -> slugify a = slugify b)
  /\ slugify (js "Claude Code Memory Plugin") = js "claude-code-memory-plugin".
Proof.
  split; [|split; [|split]].
  - intro s. apply slugify_fixes_slugs. apply slugify_slug_form.
  - intro s. exists (slugify s). reflexivity.
  - intros a b ->. reflexivity.
  - vm_compute. reflexivity.
Qed.
(** * Further properties *)

(** ** What a pattern consumes *)

Lemma drop_caps_in (G : nat -> jsstring -> Prop) (gs : list nat)
    (cs : list (nat * jsstring)) :
  captures_in G cs -> captures_in G (drop_caps gs cs).
Proof.
  intros H i w Hin. apply H. unfold drop_caps in Hin.
  apply filter_In in Hin. exact (proj1 Hin).
Qed.

Lemma star_loop_sound
    (body : MatchState -> (MatchState -> option MatchState) -> option MatchState)
    (greedy : bool) (c : MatchState -> option MatchState)
    (L : jsstring -> Prop) (P : MatchState -> Prop) :
  (forall x d z, P x -> body x d = Some z ->
     exists y w, d y = Some z /\ rest x = w ++ rest y /\ L w /\ P y) ->
  forall fuel x z,
    P x -> star_loop body greedy c fuel x = Some z ->
    exists y w, c y = Some z /\ rest x = w ++ rest y /\ star_words L w /\ P y.
Proof.
  intros Hbody. induction fuel as [|f IH]; intros x z Px H.
  - exists x, []. repeat split; [exact H|constructor|exact Px].
  - cbn [star_loop] in H.
    assert (B : body x (fun y => if (length (rest y) <? length (rest x))%nat
                                 then star_loop body greedy c f y else None)
                = Some z ->
                exists y w, c y = Some z /\ rest x = w ++ rest y
                            /\ star_words L w /\ P y).
    { intro Hb. apply Hbody in Hb; [|exact Px].
      destruct Hb as (y & w & Hy & Hx & Hw & Py).
      destruct (length (rest y) <? length (rest x))%nat; [|discriminate].
      apply IH in Hy; [|exact Py]. destruct Hy as (y' & w' & Hy' & Hx' & Hw' & Py').
      exists y', (w ++ w'). repeat split.
      - exact Hy'.
      - rewrite Hx, Hx', app_assoc. reflexivity.
      - constructor; assumption.
      - exact Py'. }
    destruct greedy; apply orelse_some in H; destruct H as [H|H];
      try (apply (B H));
      exists x, []; (repeat split; [exact H|constructor|exact Px]).
Qed.

(** The matcher is sound: an answer is the continuation's answer at a
    later state, the text consumed in between is a word of the pattern,
    and a property that the words of every group body have holds of all
    captures afterwards if it held before. *)
Lemma matcher_sound (G : nat -> jsstring -> Prop) (n : nat) (r : regex) :
  (forall i body w, In (i, body) (group_bodies r) -> lang body w -> G i w) ->
  forall x c z,
    captures_in G (caps x) ->
    matcher n r x c = Some z ->
    exists y w, c y = Some z /\ rest x = w ++ rest y /\ lang r w
                /\ captures_in G (caps y).
Proof.
  induction r as [|p|a IHa b IHb|a IHa b IHb|g a IHa|g a IHa|i a IHa| | |a IHa];
    intros HG x c z Px H; cbn [matcher] in H; cbn [group_bodies] in HG.
  - exists x, []. repeat split; assumption.
  - destruct (rest x) as [|ch t] eqn:E; [discriminate|].
    destruct (p ch) eqn:Ep; [|discriminate].
    exists (mkState t (caps x)), [ch]. repeat split; [exact H| |exact Px].
    exists ch. split; [reflexivity|exact Ep].
  - assert (Ga : forall i body w, In (i, body) (group_bodies a) ->
                   lang body w -> G i w)
      by (intros i body w Hin; apply HG, in_or_app; left; exact Hin).
    assert (Gb : forall i body w, In (i, body) (group_bodies b) ->
                   lang body w -> G i w)
      by (intros i body w Hin; apply HG, in_or_app; right; exact Hin).
    apply (IHa Ga) in H; [|exact Px]. destruct H as (y & w & Hy & Hx & Hw & Py).
    apply (IHb Gb) in Hy; [|exact Py].
    destruct Hy as (y' & w' & Hy' & Hx' & Hw' & Py').
    exists y', (w ++ w'). repeat split.
    + exact Hy'.
    + rewrite Hx, Hx', app_assoc. reflexivity.
    + exists w, w'. repeat split; assumption.
    + exact Py'.
  - assert (Ga : forall i body w, In (i, body) (group_bodies a) ->
                   lang body w -> G i w)
      by (intros i body w Hin; apply HG, in_or_app; left; exact Hin).
    assert (Gb : forall i body w, In (i, body) (group_bodies b) ->
                   lang body w -> G i w)
      by (intros i body w Hin; apply HG, in_or_app; right; exact Hin).
    apply orelse_some in H. destruct H as [H|H].
    + apply (IHa Ga) in H; [|exact Px]. destruct H as (y & w & Hy & Hx & Hw & Py).
      exists y, w. repeat split; try assumption. left. exact Hw.
    + apply (IHb Gb) in H; [|exact Px]. destruct H as (y & w & Hy & Hx & Hw & Py).
      exists y, w. repeat split; try assumption. right. exact Hw.
  - apply (star_loop_sound _ _ _ (lang a) (fun s => captures_in G (caps s))) in H;
      [exact H| |exact Px].
    intros x' d z' Px' Hb. apply (IHa HG) in Hb; [exact Hb|].
    apply drop_caps_in. exact Px'.
  - assert (B : matcher n a (clear a x)
                  (fun y => if (length (rest y) <? length (rest x))%nat
                            then c y else None) = Some z ->
                exists y w, c y = Some z /\ rest x = w ++ rest y
                            /\ (w = [] \/ lang a w) /\ captures_in G (caps y)).
    { intro Hb. apply (IHa HG) in Hb; [|apply drop_caps_in; exact Px].
      destruct Hb as (y & w & Hy & Hx & Hw & Py).
      destruct (length (rest y) <? length (rest x))%nat; [|discriminate].
      exists y, w. repeat split; try assumption. right. exact Hw. }
    destruct g; apply orelse_some in H; destruct H as [H|H];
      try (apply (B H));
      exists x, []; (repeat split; [exact H|left; reflexivity|exact Px]).
  - assert (Ga : forall j body w, In (j, body) (group_bodies a) ->
                   lang body w -> G j w)
      by (intros j body w Hin; apply HG; right; exact Hin).
    apply (IHa Ga) in H; [|exact Px]. destruct H as (y & w & Hy & Hx & Hw & Py).
    eexists. exists w. split; [exact Hy|]. cbn [rest caps].
    split; [exact Hx|]. split; [exact Hw|].
    intros j v [Hin|Hin].
    + injection Hin as <- <-. rewrite Hx, firstn_app_length.
      apply (HG i a w); [left; reflexivity|exact Hw].
    + revert j v Hin. apply drop_caps_in. exact Py.
  - destruct (length (rest x) =? n)%nat; [|discriminate].
    exists x, []. repeat split; assumption.
  - destruct (rest x) eqn:E; [|discriminate].
    exists x, []. split; [exact H|]. rewrite E. repeat split. exact Px.
  - destruct (matcher n a x Some) as [y|] eqn:Ea; [|discriminate].
    apply (IHa HG) in Ea; [|exact Px].
    destruct Ea as (y' & w & Hy & _ & _ & Py). injection Hy as ->.
    eexists. exists []. split; [exact H|]. cbn [rest caps].
    repeat split. exact Py.
Qed.

Lemma matcher_words (n : nat) (r : regex) :
  forall x c z,
    matcher n r x c = Some z ->
    exists y w, c y = Some z /\ rest x = w ++ rest y /\ lang r w.
Proof.
  intros x c z H.
  apply (@matcher_sound (fun _ _ => True)) in H.
  - destruct H as (y & w & Hy & Hx & Hw & _). exists y, w. repeat split; assumption.
  - intros. exact I.
  - intros i w _. exact I.
Qed.

(** The words of a pattern are made of code units of its character
    sets. *)
Lemma lang_units (q : codeunit -> bool) (r : regex) :
  units_within q r -> forall w, lang r w -> forallb q w = true.
Proof.
  induction r as [|p|a IHa b IHb|a IHa b IHb|g a IHa|g a IHa|i a IHa| | |a IHa];
    cbn [units_within lang]; intros U w H; try (subst w; reflexivity).
  - destruct H as (c & -> & Hc). cbn [forallb]. rewrite (U c Hc). reflexivity.
  - destruct U as [Ua Ub]. destruct H as (w1 & w2 & -> & H1 & H2).
    rewrite forallb_app, (IHa Ua w1 H1), (IHb Ub w2 H2). reflexivity.
  - destruct U as [Ua Ub]. destruct H as [H|H]; [apply IHa|apply IHb]; assumption.
  - induction H as [|w1 w2 H1 _ IH]; [reflexivity|].
    rewrite forallb_app, (IHa U w1 H1), IH. reflexivity.
  - destruct H as [->|H]; [reflexivity|apply IHa; assumption].
  - apply IHa; assumption.
Qed.

Lemma matcher_found (n : nat) (r : regex) (s : jsstring) (y : MatchState) :
  matcher n r (mkState s []) Some = Some y ->
  s = firstn (length s - length (rest y)) s ++ rest y
  /\ lang r (firstn (length s - length (rest y)) s).
Proof.
  intro E. apply matcher_words in E. destruct E as (y' & w & Ey & Hx & Hw).
  injection Ey as ->. cbn [rest] in Hx. subst s.
  rewrite firstn_app_length. split; [reflexivity|exact Hw].
Qed.

(** A match found by the search: the matched text is a word of the
    pattern, between the text before and the text after. *)
Lemma search_words (n : nat) (r : regex) (s pre : jsstring) (res : MatchResult) :
  search n r pre s = Some res ->
  rev pre ++ s = before res ++ matched res ++ after res
  /\ lang r (matched res).
Proof.
  revert pre res. induction s as [|ch t IH]; intros pre res H;
    rewrite search_eq in H;
    match type of H with
    | context [matcher n r (mkState ?s0 []) Some] =>
        destruct (matcher n r (mkState s0 []) Some) as [y|] eqn:E
    end; try discriminate.
  - apply matcher_found in E. destruct E as [E1 E2].
    injection H as <-. cbn [before matched after].
    split; [f_equal; exact E1|exact E2].
  - apply matcher_found in E. destruct E as [E1 E2].
    injection H as <-. cbn [before matched after].
    split; [f_equal; exact E1|exact E2].
  - apply IH in H. destruct H as [H1 H2]. split; [|exact H2].
    rewrite <- H1. cbn [rev]. rewrite <- app_assoc. reflexivity.
Qed.

Lemma exec_words (r : regex) (s : jsstring) (res : MatchResult) :
  exec r s = Some res ->
  s = before res ++ matched res ++ after res /\ lang r (matched res).
Proof. unfold exec. intro H. apply search_words in H. exact H. Qed.

(** ** The tools of a digest *)

Section Saved.

Variable h : Host.

Lemma or_else_some (nm d : jsstring) : nm <> [] -> or_else (Some nm) d = nm.
Proof. destruct nm; [contradiction|reflexivity]. Qed.

(** What saveTool pushes for a fresh current tool with a name. *)
Lemma finalize_fresh (nm stamp : jsstring) (i g s : option jsstring)
    (descr : jsstring) (k : nat) :
  nm <> [] ->
  exists stamp',
    fst (finalizeTool h (mkPartial (Some nm) (Some (slugify nm)) i g s (Some stamp))
           descr k)
    = mkTool nm (slugify nm) (slice0 500 descr) i g s (detectCategory nm descr)
        stamp'.
Proof.
  intro Hnm. unfold finalizeTool.
  cbn [p_name p_slug p_installCommand p_githubUrl p_source p_extractedAt fst].
  rewrite !(or_else_some _ Hnm).
  assert (E : or_else (Some (slugify nm)) (slugify nm) = slugify nm)
    by (destruct (slugify nm); reflexivity).
  rewrite E. eexists. reflexivity.
Qed.

Lemma saveTool_saved (st : LoopState) :
  fresh_current st -> all_saved (tools st) -> all_saved (tools (saveTool h st)).
Proof.
  unfold fresh_current, saveTool. intros Hf Ht.
  destruct (currentTool st) as [cur|]; [|exact Ht].
  destruct Hf as (nm & stamp & ->). cbn [p_name].
  destruct (truthy (Some nm)) eqn:E; [|exact Ht].
  assert (Hnm : nm <> []) by (destruct nm; [discriminate|discriminate]).
  cbn [p_slug p_installCommand p_githubUrl p_source p_extractedAt].
  match goal with
  | |- context [finalizeTool h ?p ?d ?k] =>
      destruct (finalize_fresh stamp (p_installCommand p) (p_githubUrl p)
                  (p_source p) d k Hnm) as (stamp' & Hfin);
      cbn [p_installCommand p_githubUrl p_source] in Hfin;
      destruct (finalizeTool h p d k) as [t k'] eqn:Et
  end.
  cbn [fst] in Hfin. subst t. cbn [tools].
  apply Forall_app. split; [exact Ht|].
  constructor; [|constructor].
  eexists nm, _, _, stamp'. split; [exact Hnm|]. reflexivity.
Qed.

Lemma step_fresh (st : LoopState) (line : jsstring) :
  fresh_current st -> fresh_current (step h st line).
Proof.
  intro Hf.
  assert (S : forall nm d, fresh_current (start_tool h st nm d)).
  { intros nm d. unfold start_tool, fresh_current. cbn [currentTool].
    eexists. eexists. reflexivity. }
  assert (C : forall l t, fresh_current (collect st l t)).
  { intros l t. unfold collect, fresh_current in *.
    destruct (currentTool st) as [cur|] eqn:E.
    - cbn [currentTool]. exact Hf.
    - rewrite E. exact I. }
  unfold step. cbv zeta.
  destruct (exec h3Pattern (trim line)); [apply S|].
  destruct (exec bulletPattern (trim line)); [|apply C].
  destruct (negb _); [apply S|apply C].
Qed.

Lemma step_saved (st : LoopState) (line : jsstring) :
  fresh_current st -> all_saved (tools st) -> all_saved (tools (step h st line)).
Proof.
  intros Hf Ht.
  assert (S : forall nm d, all_saved (tools (start_tool h st nm d))).
  { intros nm d. unfold start_tool. cbn [tools].
    apply saveTool_saved; assumption. }
  assert (C : forall l t, all_saved (tools (collect st l t))).
  { intros l t. unfold collect. destruct (currentTool st); exact Ht. }
  unfold step. cbv zeta.
  destruct (exec h3Pattern (trim line)); [apply S|].
  destruct (exec bulletPattern (trim line)); [|apply C].
  destruct (negb _); [apply S|apply C].
Qed.

Lemma loop_saved (lines : list jsstring) (st : LoopState) :
  fresh_current st -> all_saved (tools st) ->
  fresh_current (fold_left (step h) lines st)
  /\ all_saved (tools (fold_left (step h) lines st)).
Proof.
  revert st. induction lines as [|l ls IH]; intros st Hf Ht; simpl.
  - split; assumption.
  - apply IH; [apply step_fresh|apply step_saved]; assumption.
Qed.

(** Every tool of extractTools is the saved form of a named block. *)
Lemma extractTools_saved (k : nat) (content : jsstring) :
  all_saved (fst (extractTools_from h k content)).
Proof.
  unfold extractTools_from. cbn [fst].
  destruct (loop_saved (split LF content) (initial k)) as [Hf Ht].
  - exact I.
  - constructor.
  - apply saveTool_saved; assumption.
Qed.

End Saved.

(** ** The names of the tools, in order *)

Section Order.

Variable h : Host.

Lemma saveTool_order (st : LoopState) :
  map name (tools (saveTool h st)) = map name (tools st) ++ pending_name st.
Proof.
  unfold saveTool, pending_name.
  destruct (currentTool st) as [cur|]; [|symmetry; apply app_nil_r].
  destruct (truthy (p_name cur)) eqn:E; [|symmetry; apply app_nil_r].
  unfold finalizeTool. cbv zeta. cbn [tools p_name].
  rewrite map_app. cbn [map name]. f_equal.
  unfold truthy in E. destruct (p_name cur) as [[|c t]|]; try discriminate.
  reflexivity.
Qed.

Lemma start_tool_order (st : LoopState) (nm : jsstring) (d : list jsstring) :
  names_so_far (start_tool h st nm d)
  = names_so_far st ++ match nm with [] => [] | _ :: _ => [nm] end.
Proof.
  unfold names_so_far, start_tool. cbn [tools].
  rewrite saveTool_order. f_equal.
  unfold pending_name. cbn [currentTool p_name].
  destruct nm; reflexivity.
Qed.

Lemma collect_order (st : LoopState) (l t : jsstring) :
  names_so_far (collect st l t) = names_so_far st.
Proof.
  unfold names_so_far, collect, pending_name.
  destruct (currentTool st) as [cur|] eqn:E.
  - cbn [tools currentTool]. reflexivity.
  - rewrite E. reflexivity.
Qed.

Lemma step_order (st : LoopState) (line : jsstring) :
  names_so_far (step h st line) = names_so_far st ++ started_names [line].
Proof.
  unfold step, started_names, boundary_name. cbv zeta.
  destruct (exec h3Pattern (trim line)) as [m|].
  - rewrite start_tool_order. destruct (trim (capture 1 m)); reflexivity.
  - destruct (exec bulletPattern (trim line)) as [m|].
    + destruct (negb _).
      * rewrite start_tool_order. destruct (trim (capture 1 m)); reflexivity.
      * rewrite collect_order. symmetry. apply app_nil_r.
    + rewrite collect_order. symmetry. apply app_nil_r.
Qed.

Lemma started_names_cons (l : jsstring) (ls : list jsstring) :
  started_names (l :: ls) = started_names [l] ++ started_names ls.
Proof.
  cbn [started_names]. destruct (boundary_name l) as [[|c nm]|]; reflexivity.
Qed.

Lemma loop_order (lines : list jsstring) (st : LoopState) :
  names_so_far (fold_left (step h) lines st)
  = names_so_far st ++ started_names lines.
Proof.
  revert st. induction lines as [|l ls IH]; intro st.
  - simpl. symmetry. apply app_nil_r.
  - cbn [fold_left]. rewrite IH, step_order, (started_names_cons l ls).
    symmetry. apply app_assoc.
Qed.

(** X1. The names of the tools of extractTools are the non-empty names of the
    boundary lines of the digest, one tool for each, in the order of the
    lines. *)
Theorem extractTools_names_in_order (k : nat) (content : jsstring) :
  map name (fst (extractTools_from h k content))
  = started_names (split LF content).
Proof.
  unfold extractTools_from. cbn [fst].
  rewrite saveTool_order.
  change (names_so_far (fold_left (step h) (split LF content) (initial k))
          = started_names (split LF content)).
  rewrite loop_order. reflexivity.
Qed.

End Order.

Lemma plain_line_no_boundary (line : jsstring) :
  plain_line line = true -> boundary_name line = None.
Proof.
  unfold plain_line, boundary_name. cbv zeta. intro H.
  assert (H3 : exec h3Pattern (trim line) = None).
  { apply exec_bol_head. destruct (trim line) as [|c t]; [exact I|].
    apply andb_true_iff in H. destruct H as [H _].
    apply negb_true_iff in H. exact H. }
  assert (Hb : exec bulletPattern (trim line) = None).
  { apply exec_bol_head. destruct (trim line) as [|c t]; [exact I|].
    apply andb_true_iff in H. destruct H as [_ H].
    apply negb_true_iff in H. exact H. }
  rewrite H3, Hb. reflexivity.
Qed.

Lemma started_names_plain (lines : list jsstring) :
  forallb plain_line lines = true -> started_names lines = [].
Proof.
  induction lines as [|l ls IH]; intro H; [reflexivity|].
  cbn [forallb] in H. apply andb_true_iff in H. destruct H as [Hl Hls].
  cbn [started_names]. rewrite (plain_line_no_boundary _ Hl). apply IH. exact Hls.
Qed.

(** X2. A digest in which no line begins, once trimmed, with # or with a code
    unit of the bullet marker has no tools. *)
Theorem plain_digest_has_no_tools (h : Host) (k : nat) (content : jsstring) :
  forallb plain_line (split LF content) = true ->
  fst (extractTools_from h k content) = [].
Proof.
  intro H. apply (@map_eq_nil _ _ name).
  unfold extractTools_from. cbn [fst]. rewrite saveTool_order.
  change (names_so_far (fold_left (step h) (split LF content) (initial k)) = []).
  rewrite loop_order. apply started_names_plain. exact H.
Qed.

Lemma plain_digest_has_no_tools_witness :
  fst (extractTools_from example_host 0
         (js "Nothing today." ++ [LF] ++ js "  1. Key News follows")) = [].
Proof.
  apply plain_digest_has_no_tools. vm_compute. reflexivity.
Defined.

(** ** What the groups capture *)

Lemma search_captures (G : nat -> jsstring -> Prop) (n : nat) (r : regex)
    (s pre : jsstring) (res : MatchResult) :
  (forall i body w, In (i, body) (group_bodies r) -> lang body w -> G i w) ->
  search n r pre s = Some res -> captures_in G (groups res).
Proof.
  intro HG. revert pre res. induction s as [|ch t IH]; intros pre res H;
    rewrite search_eq in H;
    match type of H with
    | context [matcher n r (mkState ?s0 []) Some] =>
        destruct (matcher n r (mkState s0 []) Some) as [y|] eqn:E
    end; try discriminate.
  - apply (@matcher_sound G n r HG) in E; [|intros i w []].
    destruct E as (y' & w & Hy & _ & _ & Py). injection Hy as ->.
    injection H as <-. exact Py.
  - apply (@matcher_sound G n r HG) in E; [|intros i w []].
    destruct E as (y' & w & Hy & _ & _ & Py). injection Hy as ->.
    injection H as <-. exact Py.
  - apply IH in H. exact H.
Qed.

(** A capture of a match is a word of the body of a group with its
    number. *)
Lemma exec_group (r : regex) (s : jsstring) (res : MatchResult) (i : nat)
    (w : jsstring) :
  exec r s = Some res -> group i res = Some w ->
  exists body, In (i, body) (group_bodies r) /\ lang body w.
Proof.
  unfold exec, group. intros H Hg.
  apply (@search_captures
           (fun j v => exists body, In (j, body) (group_bodies r) /\ lang body v))
    in H.
  - destruct (find _ (groups res)) as [[j v]|] eqn:F; [|discriminate].
    injection Hg as <-. apply find_some in F. destruct F as [Hin Hj].
    cbn [fst] in Hj. apply Nat.eqb_eq in Hj. subst j. cbn [snd].
    apply H. exact Hin.
  - intros j body v Hin Hv. exists body. split; assumption.
Qed.

(** The code units of a capture are in the character sets of its group. *)
Lemma capture_units (q : codeunit -> bool) (r : regex) (s : jsstring)
    (res : MatchResult) (i : nat) :
  (forall body, In (i, body) (group_bodies r) -> units_within q body) ->
  exec r s = Some res -> forallb q (capture i res) = true.
Proof.
  intros U H. unfold capture. destruct (group i res) as [w|] eqn:Eg; [|reflexivity].
  destruct (@exec_group r s res i w H Eg) as (body & Hin & Hw).
  exact (@lang_units q body (U body Hin) w Hw).
Qed.

(** When a sequence ends with a group, the group takes part in every
    match. *)
Lemma matcher_last_group (n : nat) (r : regex) (i : nat) (B : regex) :
  last_group r = Some (i, B) ->
  forall x c z,
    matcher n r x c = Some z ->
    exists y w, c y = Some z
                /\ find (fun p => Nat.eqb (fst p) i) (caps y) = Some (i, w)
                /\ lang B w.
Proof.
  induction r as [|p|a IHa b IHb|a IHa b IHb|g a IHa|g a IHa|j a IHa| | |a IHa];
    intro HL; try discriminate; intros x c z H; cbn [matcher] in H.
  - apply matcher_answer in H. destruct H as (y & Hy & _).
    exact (IHb HL _ _ _ Hy).
  - cbn [last_group] in HL. injection HL as -> ->.
    apply matcher_words in H. destruct H as (y & w & Hy & Hx & Hw).
    eexists. exists w. split; [exact Hy|]. cbn [caps find fst].
    rewrite Nat.eqb_refl, Hx, firstn_app_length. split; [reflexivity|exact Hw].
Qed.

Lemma search_last_group (n : nat) (r : regex) (i : nat) (B : regex)
    (s pre : jsstring) (res : MatchResult) :
  last_group r = Some (i, B) ->
  search n r pre s = Some res ->
  exists w, group i res = Some w /\ lang B w.
Proof.
  intro HL. revert pre res. induction s as [|ch t IH]; intros pre res H;
    rewrite search_eq in H;
    match type of H with
    | context [matcher n r (mkState ?s0 []) Some] =>
        destruct (matcher n r (mkState s0 []) Some) as [y|] eqn:E
    end; try discriminate.
  - apply (@matcher_last_group n r i B HL) in E.
    destruct E as (y' & w & Hy & Hf & Hw). injection Hy as ->.
    injection H as <-. exists w. unfold group. cbn [groups]. rewrite Hf.
    split; [reflexivity|exact Hw].
  - apply (@matcher_last_group n r i B HL) in E.
    destruct E as (y' & w & Hy & Hf & Hw). injection Hy as ->.
    injection H as <-. exists w. unfold group. cbn [groups]. rewrite Hf.
    split; [reflexivity|exact Hw].
  - apply IH in H. exact H.
Qed.

Lemma exec_last_group (r : regex) (i : nat) (B : regex) (s : jsstring)
    (res : MatchResult) :
  last_group r = Some (i, B) -> exec r s = Some res ->
  lang B (capture i res).
Proof.
  intros HL H. unfold exec in H.
  destruct (@search_last_group _ r i B s [] res HL H) as (w & Hg & Hw).
  unfold capture. rewrite Hg. exact Hw.
Qed.

(** ** Trimming *)

Lemma forallb_dropWhile (q p : codeunit -> bool) (s : jsstring) :
  forallb q s = true -> forallb q (dropWhile p s) = true.
Proof.
  induction s as [|c t IH]; intro H; [reflexivity|].
  cbn [dropWhile]. destruct (p c); [|exact H].
  cbn [forallb] in H. apply andb_true_iff in H. apply IH. exact (proj2 H).
Qed.

Lemma forallb_rev (q : codeunit -> bool) (s : jsstring) :
  forallb q (rev s) = forallb q s.
Proof.
  induction s as [|c t IH]; [reflexivity|].
  cbn [rev forallb]. rewrite forallb_app, IH. cbn [forallb].
  rewrite andb_true_r. apply andb_comm.
Qed.

(** Trimming keeps what holds of every code unit. *)
Lemma forallb_trim (q : codeunit -> bool) (s : jsstring) :
  forallb q s = true -> forallb q (trim s) = true.
Proof.
  intro H. unfold trim. rewrite forallb_rev. apply forallb_dropWhile.
  rewrite forallb_rev. apply forallb_dropWhile. exact H.
Qed.

Lemma dropWhile_all_false (p : codeunit -> bool) (s : jsstring) :
  forallb (fun c => negb (p c)) s = true -> dropWhile p s = s.
Proof.
  destruct s as [|c t]; [reflexivity|]. cbn [forallb dropWhile]. intro H.
  apply andb_true_iff in H. destruct H as [H _]. apply negb_true_iff in H.
  rewrite H. reflexivity.
Qed.

(** A text without white space is its own trimmed form. *)
Lemma trim_no_space (s : jsstring) :
  forallb not_space s = true -> trim s = s.
Proof.
  intro H. unfold trim.
  rewrite (dropWhile_all_false is_space s H).
  rewrite (dropWhile_all_false is_space (rev s)).
  - apply rev_involutive.
  - change (forallb not_space (rev s) = true). rewrite forallb_rev. exact H.
Qed.

(** ** The letters of a pattern under the i flag *)

Lemma just_i_cases (a : ascii) (c : codeunit) :
  just_i a c = true ->
  c = cu a
  \/ (is_upper (cu a) = true /\ c = (cu a + 32)%N)
  \/ (is_lower (cu a) = true /\ (c + 32)%N = cu a).
Proof.
  unfold just_i. intro H.
  apply orb_true_iff in H. destruct H as [H|H].
  - apply orb_true_iff in H. destruct H as [H|H].
    + left. apply N.eqb_eq. exact H.
    + right. left. apply andb_true_iff in H. destruct H as [H1 H2].
      split; [exact H1|apply N.eqb_eq; exact H2].
  - right. right. apply andb_true_iff in H. destruct H as [H1 H2].
    split; [exact H1|apply N.eqb_eq; exact H2].
Qed.

(** ** The metadata fields of a tool *)

Lemma word_range (c : codeunit) :
  word c = true ->
  (65 <= c <= 90 \/ 97 <= c <= 122 \/ 48 <= c <= 57 \/ c = 95)%N.
Proof.
  unfold word, is_upper, is_lower, is_digit. intro H.
  repeat (apply orb_true_iff in H; destruct H as [H|H]);
    try (apply andb_true_iff in H; destruct H as [H1 H2];
         apply N.leb_le in H1, H2).
  - left. lia.
  - right. left. lia.
  - right. right. left. lia.
  - right. right. right. apply N.eqb_eq. exact H.
Qed.

Lemma word_not_space (c : codeunit) : word c = true -> not_space c = true.
Proof.
  intro H. apply word_range in H.
  unfold not_space, is_space, is_white_space, is_line_terminator.
  destruct H as [H|[H|[H|H]]]; decide_units.
Qed.

Lemma plus_32 (c m : N) : (c + 32)%N = m -> c = (m - 32)%N.
Proof. lia. Qed.

(** The code units that a letter of a pattern matches under the i flag,
    one case each. *)
Ltac letter H :=
  let U := fresh "U" in
  apply just_i_cases in H;
  destruct H as [H|[[U H]|[U H]]];
  [ vm_compute in H
  | vm_compute in U; first [discriminate U | clear U; vm_compute in H]
  | vm_compute in U;
    first [discriminate U | clear U; apply plus_32 in H; vm_compute in H] ].

Lemma sign_no_space (a : ascii) (c : codeunit) :
  (32 < cu a < 127)%N -> just_i a c = true -> not_space c = true.
Proof.
  intros Ha H. apply just_i_cases in H.
  assert (R : (0 < c < 160 /\ c <> 32 /\ ~ 9 <= c <= 13)%N).
  { destruct H as [H|[[H0 H]|[H0 H]]].
    - lia.
    - unfold is_upper in H0. apply andb_true_iff in H0. destruct H0 as [A1 A2].
      apply N.leb_le in A1, A2. lia.
    - unfold is_lower in H0. apply andb_true_iff in H0. destruct H0 as [A1 A2].
      apply N.leb_le in A1, A2. lia. }
  unfold not_space, is_space, is_white_space, is_line_terminator.
  decide_units.
Qed.

Lemma star_class_words (p : codeunit -> bool) (w : jsstring) :
  star_words (lang (Chr p)) w -> forallb p w = true.
Proof.
  intro H. apply (@lang_units p (Star true (Chr p))); [|exact H].
  intros c Hc. exact Hc.
Qed.

(** installCommand: no backtick and no line feed. *)
Lemma install_field (blockText u : jsstring) :
  set_field (exec installPattern blockText) None = Some u ->
  forallb not_tick_or_LF u = true.
Proof.
  unfold set_field. destruct (exec installPattern blockText) as [res|] eqn:E;
    [|discriminate].
  intro H. injection H as <-. apply forallb_trim.
  apply (@capture_units not_tick_or_LF installPattern blockText res 1); [|exact E].
  intros body Hin. simpl in Hin. destruct Hin as [Hin|[]].
  injection Hin as <-. cbn [units_within Plus]. split; intros c Hc; exact Hc.
Qed.

(** githubUrl: no white space, and http at the start in either case. *)
Lemma github_field (blockText u : jsstring) :
  set_field (exec githubPattern blockText) None = Some u ->
  forallb not_space u = true /\ startsWith (toLowerCase u) (js "http") = true.
Proof.
  unfold set_field. destruct (exec githubPattern blockText) as [res|] eqn:E;
    [|discriminate].
  intro H. injection H as <-.
  apply (@exec_last_group githubPattern 1 _ blockText res eq_refl) in E.
  assert (U : forallb not_space (capture 1 res) = true).
  { revert E. apply lang_units.
    cbn [units_within lit_i lit_with Plus].
    repeat split; intros c Hc;
      try (eapply sign_no_space; [|exact Hc]; split; reflexivity);
      unfold not_space; apply negb_true_iff; apply negb_true_iff in Hc;
      apply orb_false_iff in Hc; exact (proj1 Hc). }
  rewrite (trim_no_space _ U). split; [exact U|].
  cbn [lang lit_i lit_with] in E.
  destruct E as (w1 & w2 & -> & (v1 & v2 & -> & (c1 & -> & H1)
                 & (v3 & v4 & -> & (c2 & -> & H2)
                 & (v5 & v6 & -> & (c3 & -> & H3) & (c4 & -> & H4)))) & _).
  cbn [app toLowerCase flat_map].
  letter H1; letter H2; letter H3; letter H4; subst; reflexivity.
Qed.

(** source: an at sign and then one word character or more. *)
Lemma source_field (blockText u : jsstring) :
  set_field (exec sourcePattern blockText) None = Some u ->
  exists handle, u = cu "@" :: handle /\ handle <> []
                 /\ forallb word handle = true.
Proof.
  unfold set_field. destruct (exec sourcePattern blockText) as [res|] eqn:E;
    [|discriminate].
  intro H. injection H as <-.
  apply (@exec_last_group sourcePattern 1 _ blockText res eq_refl) in E.
  cbn [lang Plus] in E.
  destruct E as (w1 & w2 & -> & (c0 & -> & H0)
                 & (v1 & v2 & -> & (c1 & -> & H1) & Hs)).
  apply star_class_words in Hs.
  assert (W : forall c, word c || just "_" c = true -> word c = true).
  { intros c Hc. apply orb_true_iff in Hc. destruct Hc as [Hc|Hc]; [exact Hc|].
    unfold just in Hc. apply N.eqb_eq in Hc. subst c. reflexivity. }
  assert (Hh : forallb word (c1 :: v2) = true).
  { cbn [forallb]. rewrite (W c1 H1). cbn [andb].
    revert Hs. apply forallb_imp. exact W. }
  unfold just in H0. apply N.eqb_eq in H0. subst c0.
  cbn [app]. rewrite trim_no_space.
  - exists (c1 :: v2). split; [reflexivity|]. split; [discriminate|exact Hh].
  - change (not_space (cu "@") && forallb not_space (c1 :: v2) = true).
    apply andb_true_iff. split; [reflexivity|].
    revert Hh. apply forallb_imp. exact word_not_space.
Qed.

Lemma detectCategory_not_library (nm descr : jsstring) :
  detectCategory nm descr <> library.
Proof.
  unfold detectCategory. cbv zeta.
  repeat match goal with
         | |- (if ?b then _ else _) <> _ => destruct b
         end; discriminate.
Qed.

Lemma dashed_units (b : bool) (s : jsstring) :
  dashed b s = true -> forallb (fun c => is_alnum c || (c =? dash)%N) s = true.
Proof.
  revert b. induction s as [|c t IH]; intros b H; [reflexivity|].
  cbn [dashed] in H. cbn [forallb].
  destruct (is_alnum c) eqn:E.
  - rewrite (IH _ H). reflexivity.
  - apply andb_true_iff in H. destruct H as [H1 H2].
    apply andb_true_iff in H1. destruct H1 as [H1 _].
    rewrite H1, (IH _ H2). reflexivity.
Qed.

Section Shape.

Variable h : Host.

(** X3. Every tool of extractTools has a name that is not empty, the slug of
    that name, which is made of a-z, 0-9 and dashes, a description of at
    most 500 code units, and a category other than library. *)
Theorem extracted_tool_shape (k : nat) (content : jsstring) :
  Forall (fun t =>
            name t <> []
            /\ slug t = slugify (name t)
            /\ slug_form (slug t)
            /\ forallb (fun c => is_alnum c || (c =? dash)%N) (slug t) = true
            /\ (length (description t) <= 500)%nat
            /\ category t <> library)
    (fst (extractTools_from h k content)).
Proof.
  eapply Forall_impl; [|apply extractTools_saved].
  intros t (nm & bt & descr & stamp & Hnm & ->).
  unfold saved_tool. cbn [slug name description category].
  split; [exact Hnm|].
  split; [reflexivity|]. split; [apply slugify_slug_form|].
  split; [apply (dashed_units true), slugify_slug_form|].
  split; [unfold slice0; apply firstn_le_length|].
  apply detectCategory_not_library.
Qed.

(** X4. The metadata of every tool of extractTools is well formed: an install
    command has no backtick and no line feed, a GitHub address has no
    white space and starts with http in either case, and a source is an
    at sign followed by one word character or more. *)
Theorem extracted_tool_fields (k : nat) (content : jsstring) :
  Forall (fun t =>
            field_ok (fun u => forallb not_tick_or_LF u = true) (installCommand t)
            /\ field_ok (fun u => forallb not_space u = true
                                  /\ startsWith (toLowerCase u) (js "http") = true)
                 (githubUrl t)
            /\ field_ok (fun u => exists handle,
                                    u = cu "@" :: handle /\ handle <> []
                                    /\ forallb word handle = true)
                 (source t))
    (fst (extractTools_from h k content)).
Proof.
  eapply Forall_impl; [|apply extractTools_saved].
  intros t (nm & bt & descr & stamp & Hnm & ->).
  unfold saved_tool, field_ok. cbn [installCommand githubUrl source].
  repeat split.
  - destruct (set_field (exec installPattern bt) None) eqn:E; [|exact I].
    exact (install_field _ E).
  - destruct (set_field (exec githubPattern bt) None) eqn:E; [|exact I].
    exact (github_field _ E).
  - destruct (set_field (exec sourcePattern bt) None) eqn:E; [|exact I].
    exact (source_field _ E).
Qed.

End Shape.

(** ** The total in exact arithmetic *)

Lemma totals_exact_spec (u q i mo : Z) :
  mem u usefulness_values = true -> mem q quality_values = true ->
  mem i innovation_values = true -> mem mo momentum_values = true ->
  weighted_total u q i mo = exact_total u q i mo.
Proof.
  intros Hu Hq Hi Hm.
  assert (H : totals_exact = true) by (vm_compute; reflexivity).
  unfold totals_exact in H.
  apply mem_In in Hu, Hq, Hi, Hm.
  rewrite forallb_forall in H. specialize (H u Hu).
  rewrite forallb_forall in H. specialize (H q Hq).
  rewrite forallb_forall in H. specialize (H i Hi).
  rewrite forallb_forall in H. specialize (H mo Hm).
  apply Z.eqb_eq. exact H.
Qed.

Lemma total_exact_of (h : Host) (r : ToolResearch) :
  let s := scoreTool h r in
  totalScore s
  = exact_total (usefulnessScore s) (qualityScore s) (innovationScore s)
      (momentumScore s)
  /\ 42 <= totalScore s <= 86.
Proof.
  destruct (scoreTool_parts h r) as (w1 & w2 & w3 & w4 & Hu & Hq & Hi & Hm & Ht & _).
  cbv zeta in *.
  pose proof (usefulness_mem r w1) as Mu. rewrite <- Hu in Mu.
  pose proof (quality_mem h r w2) as Mq. rewrite <- Hq in Mq.
  pose proof (innovation_mem r w3) as Mi. rewrite <- Hi in Mi.
  pose proof (momentum_mem h r w4) as Mm. rewrite <- Hm in Mm.
  split.
  - rewrite Ht. apply totals_exact_spec; assumption.
  - pose proof (totals_within_spec 42 86 _ _ _ _ totals_42_86 Mu Mq Mi Mm) as T.
    rewrite <- Ht in T. exact T.
Qed.

(** X5. The binary64 arithmetic of the weighted total never shows: for every
    research record the total is the weighted sum of the four scores in
    tenths, 3u + 3q + 2i + 2m, rounded half up; and it is at most 86. *)
Theorem total_is_exact_rounding (h : Host) (r : ToolResearch) :
  let s := scoreTool h r in
  totalScore s
  = exact_total (usefulnessScore s) (qualityScore s) (innovationScore s)
      (momentumScore s)
  /\ totalScore s <= 86.
Proof.
  destruct (total_exact_of h r) as [E B]. cbv zeta. split; [exact E|lia].
Qed.

(** X6. Without GitHub and npm data the quality and momentum scores stay at
    their bases, the total is at most 59, and the recommendation is WATCH:
    BUILD needs enrichment data. *)
Theorem no_enrichment_is_WATCH (h : Host) (r : ToolResearch) :
  github r = None -> npm r = None ->
  let s := scoreTool h r in
  qualityScore s = 30 /\ momentumScore s = 40
  /\ 42 <= totalScore s <= 59 /\ recommendation s = WATCH.
Proof.
  intros Hg Hn.
  destruct (scoreTool_parts h r) as (w1 & w2 & w3 & w4 & Hu & Hq & Hi & Hm & Ht & Hr).
  cbv zeta in *.
  pose proof (usefulness_mem r w1) as Mu. rewrite <- Hu in Mu.
  pose proof (quality_mem h r w2) as Mq. rewrite <- Hq in Mq.
  pose proof (innovation_mem r w3) as Mi. rewrite <- Hi in Mi.
  pose proof (momentum_mem h r w4) as Mm. rewrite <- Hm in Mm.
  assert (Q : qualityScore (scoreTool h r) = 30).
  { rewrite Hq. unfold calculateQualityScore, bind. rewrite Hg, Hn. reflexivity. }
  assert (Mo : momentumScore (scoreTool h r) = 40).
  { rewrite Hm. unfold calculateMomentumScore, bind. rewrite Hg, Hn. reflexivity. }
  assert (Bu : 50 <= usefulnessScore (scoreTool h r) <= 90)
    by (eapply (mem_bounds _ 50 90); [|exact Mu]; reflexivity).
  assert (Bi : 50 <= innovationScore (scoreTool h r) <= 75)
    by (eapply (mem_bounds _ 50 75); [|exact Mi]; reflexivity).
  assert (T : 42 <= totalScore (scoreTool h r) <= 59).
  { rewrite Ht, (totals_exact_spec _ _ _ _ Mu Mq Mi Mm), Q, Mo.
    unfold exact_total. split.
    - apply Z.div_le_lower_bound; lia.
    - apply Z.lt_succ_r. apply Z.div_lt_upper_bound; lia. }
  split; [exact Q|]. split; [exact Mo|]. split; [exact T|].
  rewrite Hr. apply recommend_WATCH. lia.
Qed.

Lemma no_enrichment_is_WATCH_witness :
  qualityScore (scoreTool example_host research_plugin) = 30
  /\ momentumScore (scoreTool example_host research_plugin) = 40
  /\ 42 <= totalScore (scoreTool example_host research_plugin) <= 59
  /\ recommendation (scoreTool example_host research_plugin) = WATCH.
Proof.
  exact (no_enrichment_is_WATCH example_host research_plugin eq_refl eq_refl).
Defined.

(** ** More stars *)

Lemma SFltb_leb_trans (a b c : spec_float) :
  SFltb a b = true -> SFleb b c = true -> SFltb a c = true.
Proof.
  unfold SFltb, SFleb.
  destruct a as [sa|sa| |sa ma ea], b as [sb|sb| |sb mb eb], c as [sc|sc| |sc mc ec];
    try destruct sa; try destruct sb; try destruct sc;
    cbn [SFcompare]; try discriminate; try reflexivity;
    repeat match goal with
           | |- context [Z.compare ?x ?y] =>
               destruct (Z.compare_spec x y); try subst
           | |- context [Pos.compare_cont Eq ?x ?y] =>
               change (Pos.compare_cont Eq x y) with (Pos.compare x y);
               destruct (Pos.compare_spec x y); try subst
           end;
    cbn [CompOpp]; try discriminate; try reflexivity; intros; exfalso; lia.
Qed.

(** The order of binary64 numbers: below a number that is at most a
    third one is below the third. *)
Lemma ltb_leb_trans (a b c : float) :
  (a <? b)%float = true -> (b <=? c)%float = true -> (a <? c)%float = true.
Proof. rewrite !ltb_spec, leb_spec. apply SFltb_leb_trans. Qed.

Lemma star_bonus_mono (s1 s2 : float) :
  (s1 <=? s2)%float = true -> star_bonus s1 <= star_bonus s2.
Proof.
  intro H. unfold star_bonus.
  destruct (1000 <? s1)%float eqn:A1.
  - rewrite (@ltb_leb_trans _ _ _ A1 H). lia.
  - destruct (100 <? s1)%float eqn:A2.
    + rewrite (@ltb_leb_trans _ _ _ A2 H). destruct (1000 <? s2)%float; lia.
    + destruct (10 <? s1)%float eqn:A3.
      * rewrite (@ltb_leb_trans _ _ _ A3 H).
        destruct (1000 <? s2)%float; [lia|]. destruct (100 <? s2)%float; lia.
      * destruct (1000 <? s2)%float; [lia|]. destruct (100 <? s2)%float; [lia|].
        destruct (10 <? s2)%float; lia.
Qed.

Section Stars.

Variable h : Host.

Ltac run_scorers :=
  cbv beta iota delta [bind bonus award push ret fst snd clamp Date_now
                       w_ticks w_notes];
  repeat match goal with
         | |- context [if ?b then _ else _] => destruct b
         | |- context [match ?o with Some _ => _ | None => _ end] => destruct o
         end;
  try reflexivity.

(** The quality score in closed form. *)
Lemma quality_fst (r : ToolResearch) (w : World) :
  fst (calculateQualityScore h r w)
  = clamp (30
           + match github r with
             | Some g => star_bonus (stars g) + repo_bonus g
             | None => 0
             end
           + downloads_bonus r).
Proof.
  unfold calculateQualityScore, star_bonus, repo_bonus, downloads_bonus.
  destruct (github r) as [g|]; destruct (npm r) as [p|]; run_scorers.
Qed.

(** The first three scorers do not read the clock. *)
Lemma usefulness_ticks (r : ToolResearch) (w : World) :
  w_ticks (snd (calculateUsefulnessScore r w)) = w_ticks w.
Proof. unfold calculateUsefulnessScore. destruct w. run_scorers. Qed.

Lemma quality_ticks (r : ToolResearch) (w : World) :
  w_ticks (snd (calculateQualityScore h r w)) = w_ticks w.
Proof. unfold calculateQualityScore. destruct w. run_scorers. Qed.

Lemma innovative_loop_ticks (text : jsstring) (terms : list jsstring)
    (score : Z) (w : World) :
  w_ticks (snd (innovative_loop text terms score w)) = w_ticks w.
Proof.
  induction terms as [|term more IH]; simpl.
  - reflexivity.
  - destruct (includes text term); simpl; [reflexivity|apply IH].
Qed.

Lemma innovation_ticks (r : ToolResearch) (w : World) :
  w_ticks (snd (calculateInnovationScore r w)) = w_ticks w.
Proof.
  unfold calculateInnovationScore, bind.
  set (text := toLowerCase _).
  pose proof (innovative_loop_ticks text innovativeTerms 50 w) as E.
  destruct (innovative_loop text innovativeTerms 50 w) as [s w1].
  cbn [snd] in E. rewrite <- E. destruct w1. run_scorers.
Qed.

(** The usefulness score depends on the tool only. *)
Lemma usefulness_of_tool (r1 r2 : ToolResearch) (w1 w2 : World) :
  tool r1 = tool r2 ->
  fst (calculateUsefulnessScore r1 w1) = fst (calculateUsefulnessScore r2 w2).
Proof.
  intro E. unfold calculateUsefulnessScore. rewrite E. cbv zeta. run_scorers.
Qed.

Lemma innovation_of_tool (r1 r2 : ToolResearch) (w1 w2 : World) :
  tool r1 = tool r2 ->
  fst (calculateInnovationScore r1 w1) = fst (calculateInnovationScore r2 w2).
Proof.
  intro E. rewrite !innovation_fst.
  unfold has_innovative_term, innovation_text. rewrite E. reflexivity.
Qed.

(** The momentum score depends on the dates, on the npm data and on the
    readings of the clock so far, not on the stars. *)
Lemma momentum_with_stars (r : ToolResearch) (s1 s2 : float) (w1 w2 : World) :
  w_ticks w1 = w_ticks w2 ->
  fst (calculateMomentumScore h (with_stars r s1) w1)
  = fst (calculateMomentumScore h (with_stars r s2) w2).
Proof.
  intro E. unfold calculateMomentumScore, with_stars.
  destruct w1 as [n1 k1], w2 as [n2 k2]. cbn [w_ticks] in E. subst k2.
  destruct (github r) as [g|]; cbn [github npm lastCommitDate];
    destruct (npm r) as [p|]; run_scorers.
Qed.

(** The scores of scoreTool, with the clock still unread when the
    momentum scorer starts. *)
Lemma scoreTool_worlds (r : ToolResearch) :
  exists w1 w2 w3 w4 : World,
    let s := scoreTool h r in
    usefulnessScore s = fst (calculateUsefulnessScore r w1)
    /\ qualityScore s = fst (calculateQualityScore h r w2)
    /\ innovationScore s = fst (calculateInnovationScore r w3)
    /\ momentumScore s = fst (calculateMomentumScore h r w4)
    /\ w_ticks w4 = O.
Proof.
  unfold scoreTool, scoreTool_M, bind.
  exists (mkWorld [] 0).
  pose proof (usefulness_ticks r (mkWorld [] 0)) as T1.
  destruct (calculateUsefulnessScore r (mkWorld [] 0)) as [u w2] eqn:Eu.
  exists w2.
  pose proof (quality_ticks r w2) as T2.
  destruct (calculateQualityScore h r w2) as [q w3] eqn:Eq.
  exists w3.
  pose proof (innovation_ticks r w3) as T3.
  destruct (calculateInnovationScore r w3) as [i w4] eqn:Ei.
  exists w4.
  destruct (calculateMomentumScore h r w4) as [mo w5] eqn:Em.
  destruct (Date_now h w5) as [now w6].
  cbn [fst snd] in *. simpl.
  repeat split; try reflexivity. rewrite T3, T2, T1. reflexivity.
Qed.

Lemma clamp_mono (a b : Z) : a <= b -> clamp a <= clamp b.
Proof. unfold clamp. lia. Qed.

(** X7. More stars never lower a score: when the stars of the repository go
    from s1 to a number s2 that is at least s1, the quality score and the
    total do not go down and the other three scores stay. *)
Theorem more_stars_never_lower (r : ToolResearch) (s1 s2 : float) :
  (s1 <=? s2)%float = true ->
  let a := scoreTool h (with_stars r s1) in
  let b := scoreTool h (with_stars r s2) in
  usefulnessScore a = usefulnessScore b
  /\ innovationScore a = innovationScore b
  /\ momentumScore a = momentumScore b
  /\ qualityScore a <= qualityScore b
  /\ totalScore a <= totalScore b.
Proof.
  intro H. cbv zeta.
  assert (Et : tool (with_stars r s1) = tool (with_stars r s2))
    by (unfold with_stars; destruct (github r); reflexivity).
  destruct (scoreTool_worlds (with_stars r s1))
    as (a1 & a2 & a3 & a4 & Au & Aq & Ai & Am & Ak).
  destruct (scoreTool_worlds (with_stars r s2))
    as (b1 & b2 & b3 & b4 & Bu & Bq & Bi & Bm & Bk).
  cbv zeta in *.
  assert (U : usefulnessScore (scoreTool h (with_stars r s1))
              = usefulnessScore (scoreTool h (with_stars r s2)))
    by (rewrite Au, Bu; apply usefulness_of_tool; exact Et).
  assert (I : innovationScore (scoreTool h (with_stars r s1))
              = innovationScore (scoreTool h (with_stars r s2)))
    by (rewrite Ai, Bi; apply innovation_of_tool; exact Et).
  assert (Mo : momentumScore (scoreTool h (with_stars r s1))
               = momentumScore (scoreTool h (with_stars r s2)))
    by (rewrite Am, Bm; apply momentum_with_stars; rewrite Ak, Bk; reflexivity).
  assert (Q : qualityScore (scoreTool h (with_stars r s1))
              <= qualityScore (scoreTool h (with_stars r s2))).
  { rewrite Aq, Bq, !quality_fst. apply clamp_mono.
    unfold with_stars, downloads_bonus, repo_bonus.
    destruct (github r) as [g|]; cbn [github npm stars hasTests hasCI license];
      [|lia].
    pose proof (@star_bonus_mono _ _ H). lia. }
  repeat split; try assumption.
  destruct (total_exact_of h (with_stars r s1)) as [T1 _].
  destruct (total_exact_of h (with_stars r s2)) as [T2 _].
  rewrite T1, T2, U, I, Mo. unfold exact_total.
  apply Z.div_le_mono; lia.
Qed.

End Stars.

Lemma more_stars_never_lower_witness :
  qualityScore (scoreTool example_host (with_stars research_69 500%float))
  <= qualityScore (scoreTool example_host (with_stars research_69 5000%float))
  /\ totalScore (scoreTool example_host (with_stars research_69 500%float))
     <= totalScore (scoreTool example_host (with_stars research_69 5000%float)).
Proof.
  pose proof (@more_stars_never_lower example_host research_69
                500%float 5000%float eq_refl) as H.
  cbv zeta in H. destruct H as (_ & _ & _ & Q & T). split; assumption.
Defined.

(** ** The ranking *)

Lemma insert_score_In (s t : ToolScore) (l : list ToolScore) :
  In t (insert_score s l) <-> t = s \/ In t l.
Proof.
  induction l as [|a l IH]; cbn [insert_score].
  - simpl. intuition congruence.
  - destruct (totalScore a <=? totalScore s); cbn [In].
    + intuition congruence.
    + rewrite IH. intuition congruence.
Qed.

Lemma insert_score_descending (s : ToolScore) (l : list ToolScore) :
  descending l -> descending (insert_score s l).
Proof.
  induction l as [|a l IH]; intro D; cbn [insert_score].
  - cbn [descending]. split; [intros t []|exact I].
  - destruct D as [Da Dl].
    destruct (totalScore a <=? totalScore s) eqn:E.
    + apply Z.leb_le in E. cbn [descending]. split; [|split; assumption].
      intros t [<-|Ht]; [exact E|]. specialize (Da t Ht). lia.
    + apply Z.leb_gt in E. cbn [descending]. split; [|apply IH; exact Dl].
      intros t Ht. apply insert_score_In in Ht. destruct Ht as [->|Ht].
      * lia.
      * apply Da. exact Ht.
Qed.

Lemma insert_score_perm (s : ToolScore) (l : list ToolScore) :
  Permutation (s :: l) (insert_score s l).
Proof.
  induction l as [|a l IH]; cbn [insert_score].
  - apply Permutation_refl.
  - destruct (totalScore a <=? totalScore s).
    + apply Permutation_refl.
    + eapply Permutation_trans; [apply perm_swap|].
      apply perm_skip. exact IH.
Qed.

(** Inserting a score leaves the scores of any one total in their order,
    with the new score in front of those of its own total. *)
Lemma insert_score_stable (v : Z) (s : ToolScore) (l : list ToolScore) :
  descending l ->
  filter (fun t => totalScore t =? v) (insert_score s l)
  = filter (fun t => totalScore t =? v) (s :: l).
Proof.
  induction l as [|a l IH]; intro D; cbn [insert_score].
  - reflexivity.
  - destruct D as [Da Dl].
    destruct (totalScore a <=? totalScore s) eqn:E; [reflexivity|].
    apply Z.leb_gt in E.
    cbn [filter] in *. rewrite (IH Dl).
    destruct (totalScore a =? v) eqn:Ea; destruct (totalScore s =? v) eqn:Es;
      try reflexivity.
    apply Z.eqb_eq in Ea, Es. lia.
Qed.

Lemma sort_scores_descending (l : list ToolScore) : descending (sort_scores l).
Proof.
  induction l as [|s l IH]; [exact I|].
  cbn [sort_scores fold_right]. apply insert_score_descending. exact IH.
Qed.

Lemma sort_scores_perm (l : list ToolScore) : Permutation l (sort_scores l).
Proof.
  induction l as [|s l IH]; [apply Permutation_refl|].
  cbn [sort_scores fold_right].
  eapply Permutation_trans; [apply perm_skip; exact IH|].
  apply insert_score_perm.
Qed.

Lemma insert_score_head (s : ToolScore) (l : list ToolScore) :
  descending (s :: l) -> insert_score s l = s :: l.
Proof.
  destruct l as [|a l]; [reflexivity|].
  intros [Ds _]. cbn [insert_score].
  replace (totalScore a <=? totalScore s) with true; [reflexivity|].
  symmetry. apply Z.leb_le. apply Ds. left. reflexivity.
Qed.

(** A list that is already in descending order is left as it is. *)
Lemma sort_scores_fixes (l : list ToolScore) :
  descending l -> sort_scores l = l.
Proof.
  induction l as [|s l IH]; intro D; [reflexivity|].
  cbn [sort_scores fold_right]. fold (sort_scores l).
  rewrite (IH (proj2 D)). apply insert_score_head. exact D.
Qed.

(** X8. What scoreCommand saves: the scores from the highest total to the
    lowest, the same scores as before the sort, and those of equal total
    in the order in which they were scored; sorting the saved scores
    again changes nothing. *)
Theorem sort_scores_ranks (l : list ToolScore) :
  descending (sort_scores l)
  /\ Permutation l (sort_scores l)
  /\ (forall v, filter (fun t => totalScore t =? v) (sort_scores l)
                = filter (fun t => totalScore t =? v) l)
  /\ sort_scores (sort_scores l) = sort_scores l.
Proof.
  split; [apply sort_scores_descending|]. split; [apply sort_scores_perm|].
  split; [|apply sort_scores_fixes, sort_scores_descending].
  intro v. induction l as [|s l IH]; [reflexivity|].
  cbn [sort_scores fold_right].
  rewrite insert_score_stable by apply sort_scores_descending.
  cbn [filter]. fold (sort_scores l). rewrite IH. reflexivity.
Qed.

Lemma filter_none (A : Type) (f : A -> bool) (l : list A) :
  (forall x, In x l -> f x = false) -> filter f l = [].
Proof.
  induction l as [|a l IH]; intro H; [reflexivity|].
  cbn [filter]. rewrite (H a (or_introl eq_refl)).
  apply IH. intros x Hx. apply H. right. exact Hx.
Qed.

Lemma recommend_mono (a b : Z) :
  a <= b -> recommend b = WATCH -> recommend a <> BUILD.
Proof.
  intros H Hb Ha. apply recommend_WATCH in Hb. apply recommend_BUILD in Ha. lia.
Qed.

(** The three lists of the summary, one after the other, are the ranked
    list, when every recommendation is the one of its total. *)
Lemma summary_partition (l : list ToolScore) :
  descending l ->
  (forall s, In s l -> recommendation s = recommend (totalScore s)) ->
  builds l ++ watches l ++ skips l = l.
Proof.
  unfold builds, watches, skips.
  induction l as [|s l IH]; intros D R; [reflexivity|].
  destruct D as [Ds Dl].
  assert (Rl : forall t, In t l -> recommendation t = recommend (totalScore t))
    by (intros t Ht; apply R; right; exact Ht).
  specialize (IH Dl Rl).
  pose proof (R s (or_introl eq_refl)) as Rs.
  cbn [filter]. destruct (recommendation s) eqn:Es; cbn [is_recommendation].
  - (* SKIP *)
    symmetry in Rs. apply recommend_SKIP in Rs.
    assert (B : filter (fun t => is_recommendation (recommendation t) BUILD) l = []).
    { apply filter_none. intros t Ht. rewrite (Rl t Ht).
      specialize (Ds t Ht).
      destruct (recommend (totalScore t)) eqn:Et; try reflexivity.
      apply recommend_BUILD in Et. lia. }
    assert (W : filter (fun t => is_recommendation (recommendation t) WATCH) l = []).
    { apply filter_none. intros t Ht. rewrite (Rl t Ht).
      specialize (Ds t Ht).
      destruct (recommend (totalScore t)) eqn:Et; try reflexivity.
      apply recommend_WATCH in Et. lia. }
    rewrite B, W in *. cbn [app] in *. f_equal. exact IH.
  - (* WATCH *)
    symmetry in Rs. apply recommend_WATCH in Rs.
    assert (B : filter (fun t => is_recommendation (recommendation t) BUILD) l = []).
    { apply filter_none. intros t Ht. rewrite (Rl t Ht).
      specialize (Ds t Ht).
      destruct (recommend (totalScore t)) eqn:Et; try reflexivity.
      apply recommend_BUILD in Et. lia. }
    rewrite B in *. cbn [app] in *. f_equal. exact IH.
  - (* BUILD *)
    cbn [app]. f_equal. exact IH.
Qed.

(** X9. The summary of scoreCommand over the scores of scoreTool, each
    computed under its own readings of the clock: the BUILD list followed
    by the WATCH list is the whole ranked list, and the SKIP list is
    empty. *)
Theorem summary_of_scored (runs : list (Host * ToolResearch)) :
  let scores :=
    sort_scores (map (fun run => scoreTool (fst run) (snd run)) runs) in
  builds scores ++ watches scores = scores /\ skips scores = [].
Proof.
  cbv zeta. set (scored := map _ runs).
  assert (R : forall s, In s (sort_scores scored) ->
                recommendation s = recommend (totalScore s)
                /\ 42 <= totalScore s).
  { intros s Hs.
    pose proof (sort_scores_perm scored) as Hp.
    apply (Permutation_in _ (Permutation_sym Hp)) in Hs.
    apply in_map_iff in Hs. destruct Hs as ([h r] & <- & _). cbn [fst snd].
    destruct (scoreTool_parts h r) as (_ & _ & _ & _ & _ & _ & _ & _ & _ & Hr).
    destruct (total_exact_of h r) as [_ B]. cbv zeta in *.
    split; [exact Hr|lia]. }
  assert (S : skips (sort_scores scored) = []).
  { unfold skips. apply filter_none. intros s Hs.
    destruct (R s Hs) as [Hr B]. rewrite Hr.
    destruct (recommend (totalScore s)) eqn:E; try reflexivity.
    apply recommend_SKIP in E. lia. }
  split; [|exact S].
  pose proof (@summary_partition _ (sort_scores_descending scored)
                (fun s Hs => proj1 (R s Hs))) as P.
  rewrite S, app_nil_r in P. exact P.
Qed.

(** ** The commands that the build command runs *)

(** A pattern that ends with the anchor of the end consumes the whole
    rest of the input. *)
Lemma matcher_to_end (n : nat) (r : regex) :
  ends_with_eol r = true ->
  forall x c z,
    matcher n r x c = Some z -> lang r (rest x).
Proof.
  induction r as [|p|a IHa b IHb|a IHa b IHb|g a IHa|g a IHa|i a IHa| | |a IHa];
    intro HE; try discriminate; intros x c z H; cbn [matcher] in H.
  - apply matcher_words in H. destruct H as (y & w & Hy & Hx & Hw).
    apply (IHb HE) in Hy. rewrite Hx. exists w, (rest y).
    split; [reflexivity|]. split; assumption.
  - destruct (rest x); [reflexivity|discriminate].
Qed.

(** A match of a pattern anchored at both ends: the whole input is a
    word of the pattern. *)
Lemma exec_anchored (r : regex) (s : jsstring) (res : MatchResult) :
  ends_with_eol r = true -> exec (Seq Bol r) s = Some res -> lang r s.
Proof.
  intros HE H. unfold exec in H. rewrite search_eq in H.
  cbn [matcher rest] in H. rewrite Nat.eqb_refl in H.
  destruct (matcher (length s) r (mkState s []) Some) as [y|] eqn:E.
  - apply (@matcher_to_end _ r HE) in E. exact E.
  - destruct s as [|ch t]; [discriminate|].
    rewrite search_bol_later in H; [discriminate|]. simpl. lia.
Qed.

Lemma class_safe (l : list codeunit) (c : codeunit) :
  (forall d, In d l -> safe_unit d = true) ->
  word c || any_of l c = true -> safe_unit c = true.
Proof.
  intros Hl H. apply orb_true_iff in H. destruct H as [H|H].
  - unfold safe_unit. rewrite H. reflexivity.
  - unfold any_of in H. apply existsb_exists in H. destruct H as (d & Hd & E).
    apply N.eqb_eq in E. subst d. apply Hl. exact Hd.
Qed.

Ltac safe_class Hc :=
  revert Hc; apply class_safe;
  let d := fresh "d" in
  let Hd := fresh "Hd" in
  intros d Hd; cbn [In] in Hd;
  repeat (destruct Hd as [Hd|Hd]; [subst d; reflexivity|]);
  destruct Hd.

Lemma space_safe (c : codeunit) : is_space c = true -> safe_unit c = true.
Proof. intro H. unfold safe_unit. rewrite H. apply orb_true_r. Qed.

(** Every character set of the six safe patterns lies within the safe
    units, and every pattern is anchored at both ends. *)
Lemma safePatterns_units :
  Forall (fun pattern =>
            exists r, pattern = Seq Bol r /\ ends_with_eol r = true
                      /\ units_within safe_unit r)
    safePatterns.
Proof.
  unfold safePatterns.
  repeat (constructor;
          [eexists; split; [reflexivity|]; split; [reflexivity|];
           cbn [units_within lit_i lit_with Plus global_flag ws];
           repeat split; intros c Hc;
           first [ exact (space_safe _ Hc)
                 | safe_class Hc
                 | letter Hc; subst c; reflexivity ]|]).
  constructor.
Qed.

(** X10. A command that passes the check of buildCommand is made of word
    characters, the signs @ - / . : and white space only: it has no
    quote, no dollar sign, no semicolon and no other sign of a shell. *)
Theorem safe_command_units (cmd : jsstring) :
  isSafeCommand cmd = true -> forallb safe_unit cmd = true.
Proof.
  unfold isSafeCommand. intro H.
  apply existsb_exists in H. destruct H as (pattern & Hin & Ht).
  pose proof safePatterns_units as U. rewrite Forall_forall in U.
  destruct (U pattern Hin) as (r & -> & HE & Hu).
  unfold test in Ht.
  destruct (exec (Seq Bol r) cmd) as [res|] eqn:E; [|discriminate].
  apply (@exec_anchored r cmd res HE) in E.
  exact (@lang_units safe_unit r Hu cmd E).
Qed.

Lemma safe_command_units_witness :
  forallb safe_unit (js "npm install -g @scope/tool.js") = true.
Proof. apply safe_command_units. vm_compute. reflexivity. Defined.

Lemma lower_just_i (a : ascii) (c : codeunit) :
  is_lower (cu a) = true -> just_i a c = true ->
  lower_unit c = [cu a] /\ not_space c = true.
Proof.
  intros Ha H. pose proof H as Hs.
  apply just_i_cases in H.
  unfold is_lower in Ha. apply andb_true_iff in Ha. destruct Ha as [A1 A2].
  apply N.leb_le in A1, A2.
  assert (R : ((65 <= c <= 90 /\ c + 32 = cu a) \/ (97 <= c <= 122 /\ c = cu a))%N).
  { destruct H as [->|[[U _]|[_ H]]].
    - right. lia.
    - unfold is_upper in U. apply andb_true_iff in U. destruct U as [U1 U2].
      apply N.leb_le in U1, U2. lia.
    - left. lia. }
  split.
  - unfold lower_unit, is_upper. destruct R as [[R1 R2]|[R1 R2]].
    + replace ((65 <=? c) && (c <=? 90))%N with true
        by (symmetry; apply andb_true_iff; split; apply N.leb_le; lia).
      rewrite R2. reflexivity.
    + replace ((65 <=? c) && (c <=? 90))%N with false
        by (symmetry; apply andb_false_iff; right; apply N.leb_gt; lia).
      replace (c =? 8490)%N with false by (symmetry; apply N.eqb_neq; lia).
      replace (c =? 304)%N with false by (symmetry; apply N.eqb_neq; lia).
      rewrite R2. reflexivity.
  - unfold not_space, is_space, is_white_space, is_line_terminator.
    destruct R as [[R1 R2]|[R1 R2]]; decide_units.
Qed.

(** A word of a run of lower-case letters under the i flag: the run
    itself in some letter case, without white space. *)
Lemma lit_i_words (s : string) :
  s <> EmptyString -> forallb is_lower (js s) = true ->
  forall w, lang (lit_i s) w ->
    toLowerCase w = js s /\ forallb not_space w = true.
Proof.
  induction s as [|a s IH]; intros Hne Hl w H; [contradiction|].
  change (js (String a s)) with (cu a :: js s) in *.
  cbn [forallb] in Hl. apply andb_true_iff in Hl. destruct Hl as [Ha Hl].
  destruct s as [|b s].
  - cbn [lit_i lit_with lang] in H. destruct H as (c & -> & Hc).
    destruct (lower_just_i _ _ Ha Hc) as [L N].
    cbn [toLowerCase flat_map forallb]. rewrite L, N. split; reflexivity.
  - change (lit_i (String a (String b s)))
      with (Seq (Chr (just_i a)) (lit_i (String b s))) in H.
    cbn [lang] in H. destruct H as (w1 & w2 & -> & (c & -> & Hc) & H2).
    destruct (lower_just_i _ _ Ha Hc) as [L N].
    destruct (IH ltac:(discriminate) Hl w2 H2) as [L2 N2].
    cbn [app forallb]. rewrite N, N2.
    change (toLowerCase (c :: w2)) with (lower_unit c ++ toLowerCase w2).
    rewrite L, L2. split; reflexivity.
Qed.

Lemma takeWhile_app_stop (p : codeunit -> bool) (w t : jsstring) (c : codeunit) :
  forallb p w = true -> p c = false -> takeWhile p (w ++ c :: t) = w.
Proof.
  intros Hw Hc. induction w as [|a w IH]; cbn [app takeWhile].
  - rewrite Hc. reflexivity.
  - cbn [forallb] in Hw. apply andb_true_iff in Hw. destruct Hw as [Ha Hw].
    rewrite Ha, (IH Hw). reflexivity.
Qed.

(** Every safe pattern starts with the name of a program and white
    space. *)
Lemma safePatterns_heads :
  Forall (fun pattern =>
            exists nm r, pattern = Seq Bol (Seq (lit_i nm) (Seq (Plus true ws) r))
                         /\ ends_with_eol r = true
                         /\ nm <> EmptyString
                         /\ forallb is_lower (js nm) = true
                         /\ In (js nm) safe_programs)
    safePatterns.
Proof.
  unfold safePatterns, safe_programs.
  repeat (constructor;
          [eexists; eexists; split; [reflexivity|]; split; [reflexivity|];
           split; [discriminate|]; split; [reflexivity|];
           cbn [In]; tauto|]).
  constructor.
Qed.

(** X11. The executable of a command that passes the check is npm, bun, yarn,
    pip, docker or git, in some letter case. *)
Theorem safe_command_executable (cmd : jsstring) :
  isSafeCommand cmd = true ->
  In (toLowerCase (executable cmd)) safe_programs.
Proof.
  unfold isSafeCommand. intro H.
  apply existsb_exists in H. destruct H as (pattern & Hin & Ht).
  pose proof safePatterns_heads as U. rewrite Forall_forall in U.
  destruct (U pattern Hin) as (nm & r & -> & HE & Hne & Hl & Hp).
  unfold test in Ht.
  destruct (exec _ cmd) as [res|] eqn:E; [|discriminate].
  apply exec_anchored in E; [|exact HE].
  cbn [lang Plus ws] in E.
  destruct E as (w1 & w2 & -> & H1 & (w3 & w4 & -> & (v1 & v2 & -> & (c & -> & Hc) & _) & _)).
  destruct (lit_i_words Hne Hl _ H1) as [L N].
  unfold executable. cbn [app].
  rewrite takeWhile_app_stop.
  - rewrite L. exact Hp.
  - exact N.
  - rewrite Hc. reflexivity.
Qed.

Lemma safe_command_executable_witness :
  In (toLowerCase (executable (js "Docker pull ghcr.io/x/y:1.0"))) safe_programs.
Proof. apply safe_command_executable. vm_compute. reflexivity. Defined.

(** ** Removing a class of code units *)

Lemma search_class (n : nat) (p : codeunit -> bool) (s pre : jsstring) :
  search n (Chr p) pre s
  = match dropWhile (fun c => negb (p c)) s with
    | [] => None
    | c :: t =>
        Some (mkResult (rev pre ++ takeWhile (fun c => negb (p c)) s) [c] t [])
    end.
Proof.
  revert pre. induction s as [|ch t IH]; intro pre; [reflexivity|].
  rewrite search_eq. cbn [matcher rest caps dropWhile takeWhile].
  destruct (p ch) eqn:E; cbn [negb].
  - cbn [rest caps]. change (ch :: t) with ([ch] ++ t).
    rewrite firstn_app_length, app_nil_r. reflexivity.
  - rewrite IH. destruct (dropWhile _ t) as [|c t']; [reflexivity|].
    cbn [rev]. rewrite <- app_assoc. reflexivity.
Qed.

Lemma takeWhile_dropWhile (p : codeunit -> bool) (s : jsstring) :
  takeWhile p s ++ dropWhile p s = s.
Proof.
  induction s as [|c t IH]; [reflexivity|].
  cbn [takeWhile dropWhile]. destruct (p c); [|reflexivity].
  cbn [app]. rewrite IH. reflexivity.
Qed.

Lemma filter_takeWhile (p : codeunit -> bool) (s : jsstring) :
  filter p (takeWhile p s) = takeWhile p s.
Proof.
  induction s as [|c t IH]; [reflexivity|].
  cbn [takeWhile]. destruct (p c) eqn:E; [|reflexivity].
  cbn [filter]. rewrite E, IH. reflexivity.
Qed.

Lemma dropWhile_shorter (p : codeunit -> bool) (s t : jsstring) (c : codeunit) :
  dropWhile p s = c :: t -> (length t < length s)%nat /\ p c = false.
Proof.
  induction s as [|a s IH]; [discriminate|].
  cbn [dropWhile]. destruct (p a) eqn:E.
  - intro H. destruct (IH H) as [L Hc]. split; [simpl; lia|exact Hc].
  - intro H. injection H as <- <-. split; [simpl; lia|exact E].
Qed.

Lemma replace_loop_class (n : nat) (p : codeunit -> bool) (fuel : nat)
    (s : jsstring) :
  (length s < fuel)%nat ->
  replace_loop fuel n (Chr p) [] s = filter (fun c => negb (p c)) s.
Proof.
  revert s. induction fuel as [|f IH]; intros s L; [lia|].
  cbn [replace_loop]. rewrite search_class. cbn [rev app].
  pose proof (takeWhile_dropWhile (fun c => negb (p c)) s) as E.
  destruct (dropWhile (fun c => negb (p c)) s) as [|c t] eqn:D.
  - rewrite app_nil_r in E. rewrite <- E at 2.
    symmetry. rewrite filter_takeWhile. exact E.
  - cbn [before matched after app].
    destruct (dropWhile_shorter _ _ D) as [Lt Hc].
    apply negb_false_iff in Hc.
    rewrite <- E at 2. rewrite filter_app, filter_takeWhile. cbn [filter].
    rewrite Hc. cbn [negb]. rewrite IH by lia. reflexivity.
Qed.

(** Replacing every code unit of a class by nothing keeps the others. *)
Lemma replace_g_class (p : codeunit -> bool) (s : jsstring) :
  replace_g (Chr p) [] s = filter (fun c => negb (p c)) s.
Proof. unfold replace_g. apply replace_loop_class. lia. Qed.

Lemma forallb_filter_and (p q : codeunit -> bool) (s : jsstring) :
  forallb q s = true -> forallb (fun c => q c && p c) (filter p s) = true.
Proof.
  induction s as [|c t IH]; intro H; [reflexivity|].
  cbn [forallb] in H. apply andb_true_iff in H. destruct H as [Hc Ht].
  cbn [filter]. destruct (p c) eqn:E; [|apply IH; exact Ht].
  cbn [forallb]. rewrite Hc, E, (IH Ht). reflexivity.
Qed.

(** ** The research command *)

(** X12. The npm package that researchTool looks up has no white space and
    no quote. *)
Theorem npm_package_units (t : Tool) (pkg : jsstring) :
  extractNpmPackage t = Some pkg -> forallb package_unit pkg = true.
Proof.
  unfold extractNpmPackage. cbv zeta.
  set (text := opt_text (installCommand t) ++ js " " ++ description t).
  assert (G : forall r res,
             last_group r = Some (1%nat, Plus true (Chr not_space)) ->
             exec r text = Some res ->
             forallb package_unit (replace_g quotePattern [] (capture 1 res)) = true).
  { intros r res HL E.
    apply (@exec_last_group r 1 _ text res HL) in E.
    assert (U : forallb not_space (capture 1 res) = true).
    { revert E. apply lang_units. cbn [units_within Plus].
      split; intros c Hc; exact Hc. }
    unfold quotePattern. rewrite replace_g_class.
    apply (forallb_filter_and (fun c => negb (is_quote c))). exact U. }
  destruct (exec npmInText text) as [m|] eqn:E1.
  - intro H. injection H as <-. exact (G npmInText m eq_refl E1).
  - destruct (exec bunInText text) as [m|] eqn:E2; [|discriminate].
    intro H. injection H as <-. exact (G bunInText m eq_refl E2).
Qed.

Lemma npm_package_units_witness :
  forallb package_unit (js "left-pad") = true.
Proof.
  apply (npm_package_units
           (mkTool [] [] (js "a padding helper") (Some (js "npm i 'left-pad'"))
              None None other [])).
  vm_compute. reflexivity.
Defined.

Lemma filter_path_part (w : jsstring) :
  forallb not_slash_space w = true ->
  forallb repo_name_unit (filter (fun c => negb (negb (path_unit c))) w) = true.
Proof.
  induction w as [|c t IH]; intro H; [reflexivity|].
  cbn [forallb] in H. apply andb_true_iff in H. destruct H as [Hc Ht].
  cbn [filter]. destruct (path_unit c) eqn:E; cbn [negb]; [|apply IH; exact Ht].
  cbn [forallb]. rewrite (IH Ht), andb_true_r.
  unfold path_unit in E. unfold repo_name_unit.
  unfold not_slash_space in Hc. apply negb_true_iff in Hc.
  apply orb_false_iff in Hc. destruct Hc as [Hc _].
  rewrite Hc, orb_false_r in E. exact E.
Qed.

(** The owner and the repository that are left of a match in the text. *)
Lemma text_url_shape (text : jsstring) (m : MatchResult) :
  exec githubInText text = Some m ->
  exists owner repo,
    replace_g notPathUnit [] (capture 1 m) = owner ++ cu "/" :: repo
    /\ forallb repo_name_unit owner = true
    /\ forallb repo_name_unit repo = true.
Proof.
  intro E.
  apply (@exec_last_group githubInText 1 _ text m eq_refl) in E.
  cbn [lang Plus] in E.
  destruct E as (w1 & w2 & Ew & (a1 & a2 & -> & (c1 & -> & H1) & Ha)
                 & (w3 & w4 & -> & (c0 & -> & H0)
                    & (b1 & b2 & -> & (c2 & -> & H2) & Hb))).
  rewrite Ew. unfold notPathUnit. rewrite replace_g_class.
  apply star_class_words in Ha, Hb.
  unfold just in H0. apply N.eqb_eq in H0. subst c0.
  exists (filter (fun c => negb (negb (path_unit c))) (c1 :: a2)),
         (filter (fun c => negb (negb (path_unit c))) (c2 :: b2)).
  split.
  - cbn [app]. change (c1 :: a2 ++ cu "/" :: c2 :: b2)
      with ((c1 :: a2) ++ [cu "/"] ++ (c2 :: b2)).
    rewrite !filter_app. reflexivity.
  - split; apply filter_path_part; cbn [forallb]; apply andb_true_iff;
      split; assumption.
Qed.

(** X13. The address that researchTool fetches: either the GitHub address of
    the tool, when it contains github.com/, or https://github.com/
    followed by an owner, a slash and a repository made of word
    characters and dashes.  In both cases it contains github.com/. *)
Theorem github_url_shape (t : Tool) (u : jsstring) :
  extractGitHubUrl t = Some u ->
  includes u (js "github.com/") = true
  /\ (githubUrl t = Some u
      \/ exists owner repo,
           u = js "https://github.com/" ++ owner ++ cu "/" :: repo
           /\ forallb repo_name_unit owner = true
           /\ forallb repo_name_unit repo = true).
Proof.
  unfold extractGitHubUrl. cbv zeta.
  destruct (truthy (githubUrl t) && includes (opt_text (githubUrl t)) (js "github.com/"))
    eqn:C.
  - intro H. apply andb_true_iff in C. destruct C as [C1 C2].
    rewrite H in C2. cbn [opt_text or_else] in C2.
    rewrite H in C1. destruct u as [|c u']; [discriminate|].
    split; [exact C2|left; exact H].
  - set (text := description t ++ _).
    destruct (exec githubInText text) as [m|] eqn:E; [|discriminate].
    intro H. injection H as <-.
    split; [apply (includes_app_r (js "https://")); reflexivity|].
    right. destruct (text_url_shape _ E) as (owner & repo & -> & Ho & Hr).
    exists owner, repo. split; [reflexivity|]. split; assumption.
Qed.

Lemma github_url_shape_witness :
  includes (js "https://github.com/acme/tool")
    (js "github.com/") = true.
Proof.
  apply (github_url_shape
           (mkTool [] [] (js "see GitHub.com/acme/tool!") None None None other [])).
  vm_compute. reflexivity.
Defined.

(** ** The news items *)

Lemma extractNews_items (content : jsstring) :
  extractNews content
  = map item_of
      (filter (fun t => (20 <? length t)%nat)
         (map bullet_text (news_bullets content))).
Proof.
  unfold extractNews, news_bullets.
  destruct (exec newsSectionPattern content) as [sec|]; [|reflexivity].
  rewrite fold_push_bullet. simpl.
  apply map_ext. intro t. apply headline_of_item.
Qed.

Lemma all_matches_words (fuel n : nat) (r : regex) (s : jsstring)
    (res : MatchResult) :
  In res (all_matches fuel n r s) -> lang r (matched res).
Proof.
  revert s. induction fuel as [|f IH]; intros s H; [destruct H|].
  cbn [all_matches] in H.
  destruct (search n r [] s) as [res'|] eqn:E; [|destruct H].
  destruct H as [<-|H].
  - apply search_words in E. exact (proj2 E).
  - destruct (matched res'), (after res'); try (apply IH in H; exact H).
    destruct H.
Qed.

(** The matched text of a pattern anchored at the start begins the
    input. *)
Lemma exec_bol_before (r : regex) (s : jsstring) (res : MatchResult) :
  exec (Seq Bol r) s = Some res -> before res = [].
Proof.
  unfold exec. rewrite search_eq.
  destruct (matcher _ _ _ _) as [y|] eqn:E.
  - intro H. injection H as <-. reflexivity.
  - destruct s as [|ch t]; [discriminate|].
    rewrite search_bol_later; [discriminate|]. simpl. lia.
Qed.

Lemma dropWhile_app_all (p : codeunit -> bool) (a b : jsstring) :
  forallb p a = true -> dropWhile p (a ++ b) = dropWhile p b.
Proof.
  induction a as [|c a IH]; intro H; [reflexivity|].
  cbn [forallb] in H. apply andb_true_iff in H. destruct H as [Hc Ha].
  cbn [app dropWhile]. rewrite Hc. apply IH. exact Ha.
Qed.

(** A tail of white space followed by a body, trimmed, is made of units
    of the body. *)
Lemma trim_tail_units (q : codeunit -> bool) (sp body x y : jsstring) :
  forallb is_space sp = true -> forallb q body = true ->
  x ++ y = sp ++ body -> forallb q (trim y) = true.
Proof.
  intros Hs Hb. revert x. induction sp as [|c sp IH]; intros x E.
  - cbn [app] in E. apply forallb_trim.
    rewrite <- E, forallb_app in Hb. apply andb_true_iff in Hb. exact (proj2 Hb).
  - cbn [forallb] in Hs. apply andb_true_iff in Hs. destruct Hs as [Hc Hs].
    destruct x as [|d x].
    + cbn [app] in E. subst y. unfold trim.
      rewrite forallb_rev. apply forallb_dropWhile. rewrite forallb_rev.
      change (c :: sp ++ body) with ((c :: sp) ++ body).
      rewrite dropWhile_app_all
        by (cbn [forallb]; rewrite Hc, Hs; reflexivity).
      apply forallb_dropWhile. exact Hb.
    + cbn [app] in E. injection E as -> E. exact (IH Hs x E).
Qed.

(** A starred atom at the end of a pattern always matches. *)
Lemma star_loop_some
    (body : MatchState -> (MatchState -> option MatchState) -> option MatchState)
    (greedy : bool) (fuel : nat) (x : MatchState) :
  exists y, star_loop body greedy Some fuel x = Some y.
Proof.
  destruct fuel as [|f]; cbn [star_loop]; [exists x; reflexivity|].
  destruct greedy.
  - destruct (body x _) as [y|]; [exists y|exists x]; reflexivity.
  - exists x. reflexivity.
Qed.

(** The text of a bullet of the news section has no bullet mark and no
    line feed. *)
Lemma bullet_text_units (section bullet : jsstring) :
  In bullet (match_g newsBulletPattern section) ->
  forallb news_unit (bullet_text bullet) = true.
Proof.
  unfold match_g. intro H. apply in_map_iff in H.
  destruct H as (res & <- & Hin). apply all_matches_words in Hin.
  cbn [lang newsBulletPattern Plus] in Hin.
  destruct Hin as (w1 & w2 & E & (m & -> & Hm)
                   & (sp & w3 & -> & Hsp & (b1 & b2 & -> & (c & -> & Hc) & Hb))).
  apply star_class_words in Hsp, Hb.
  assert (Hbody : forallb news_unit ([c] ++ b2) = true)
    by (cbn [app forallb]; apply andb_true_iff; split; assumption).
  rewrite E. unfold bullet_text, replace1.
  destruct (exec markPattern ([m] ++ sp ++ [c] ++ b2)) as [res'|] eqn:E2.
  - pose proof (exec_bol_before _ _ E2) as B0.
    apply exec_words in E2. destruct E2 as [Es Hl].
    rewrite B0 in *. cbn [app] in Es |- *.
    cbn [lang markPattern] in Hl.
    destruct Hl as (v0 & v1 & Ev & -> & (v2 & v3 & -> & (m' & -> & _) & _)).
    rewrite Ev in Es. cbn [app] in Es. injection Es as _ Es.
    exact (trim_tail_units news_unit sp ([c] ++ b2) _ _ Hsp Hbody (eq_sym Es)).
  - exfalso. revert E2. unfold exec.
    rewrite search_eq. cbn [matcher markPattern rest caps app length].
    rewrite Nat.eqb_refl, Hm.
    match goal with
    | |- context [star_loop ?b ?g Some ?f ?x] =>
        destruct (star_loop_some b g f x) as (y & ->)
    end.
    discriminate.
Qed.

Lemma dropWhile_head (p : codeunit -> bool) (s : jsstring) :
  match dropWhile p s with [] => True | c :: _ => p c = false end.
Proof.
  induction s as [|c t IH]; [exact I|].
  cbn [dropWhile]. destruct (p c) eqn:E; [exact IH|exact E].
Qed.

Lemma dropWhile_fixed (p : codeunit -> bool) (s : jsstring) :
  match s with [] => True | c :: _ => p c = false end -> dropWhile p s = s.
Proof. destruct s as [|c t]; [reflexivity|]. cbn [dropWhile]. intros ->. reflexivity. Qed.

(** Trimming twice is trimming once. *)
Lemma trim_trim (s : jsstring) : trim (trim s) = trim s.
Proof.
  unfold trim. set (a := dropWhile is_space s).
  pose proof (dropWhile_head is_space s) as Ha. fold a in Ha.
  set (b := dropWhile is_space (rev a)).
  pose proof (dropWhile_head is_space (rev a)) as Hb. fold b in Hb.
  assert (E : dropWhile is_space (rev b) = rev b).
  { apply dropWhile_fixed.
    pose proof (takeWhile_dropWhile is_space (rev a)) as T. fold b in T.
    apply (f_equal (@rev codeunit)) in T.
    rewrite rev_app_distr, rev_involutive in T.
    destruct (rev b) as [|c t] eqn:R; [exact I|].
    rewrite <- T in Ha. cbn [app] in Ha. exact Ha. }
  rewrite E, rev_involutive. f_equal. apply dropWhile_fixed. exact Hb.
Qed.

(** X14. Every news item has a summary of more than 20 code units that is
    trimmed and contains no bullet mark and no line feed, a headline that
    is not empty and begins the summary, and no source. *)
Theorem news_items_shape (content : jsstring) :
  Forall (fun item =>
            (20 < length (summary item))%nat
            /\ trim (summary item) = summary item
            /\ forallb news_unit (summary item) = true
            /\ headline item <> []
            /\ (exists more, summary item = headline item ++ more)
            /\ news_source item = None)
    (extractNews content).
Proof.
  rewrite extractNews_items. apply Forall_forall. intros item Hin.
  apply in_map_iff in Hin. destruct Hin as (text & <- & Hin).
  apply filter_In in Hin. destruct Hin as [Hin Hlen].
  apply Nat.ltb_lt in Hlen.
  apply in_map_iff in Hin. destruct Hin as (bullet & <- & Hb).
  unfold item_of. cbn [summary headline news_source].
  split; [exact Hlen|].
  split; [unfold bullet_text; apply trim_trim|].
  split.
  { unfold news_bullets in Hb.
    destruct (exec newsSectionPattern content) as [sec|]; [|destruct Hb].
    exact (bullet_text_units _ _ Hb). }
  set (text := bullet_text bullet) in *.
  split; [|split; [|reflexivity]].
  - destruct (before_colon text) as [|c t] eqn:E; [|discriminate].
    destruct text as [|c t]; [simpl in Hlen; lia|discriminate].
  - destruct (before_colon text) as [|c t] eqn:E.
    + exists (skipn 50 text). symmetry. apply firstn_skipn.
    + exists (dropWhile (fun c => negb (c =? cu ":")%N) text).
      rewrite <- E. unfold before_colon. symmetry. apply takeWhile_dropWhile.
Qed.

Lemma startsWith_app (p s : jsstring) : startsWith (p ++ s) p = true.
Proof.
  induction p as [|a p IH]; [reflexivity|].
  cbn [app startsWith]. rewrite N.eqb_refl, IH. reflexivity.
Qed.

(** X15. News are looked for behind the text 1. only: a digest without it has
    no news. *)
Theorem no_section_no_news (content : jsstring) :
  includes content (js "1.") = false -> extractNews content = [].
Proof.
  intro H. unfold extractNews.
  destruct (exec newsSectionPattern content) as [sec|] eqn:E; [|reflexivity].
  exfalso. apply exec_words in E. destruct E as [Es Hl].
  cbn [lang newsSectionPattern lit_i lit_with] in Hl.
  destruct Hl as (w1 & w2 & Ew & (v1 & v2 & -> & (c1 & -> & H1) & (c2 & -> & H2)) & _).
  letter H1. letter H2. subst c1 c2.
  rewrite Es, Ew in H.
  rewrite includes_app_r in H; [discriminate|].
  rewrite <- app_assoc.
  change (includes (js "1." ++ w2 ++ after sec) (js "1.") = true).
  destruct (js "1." ++ w2 ++ after sec) eqn:D;
    cbn [includes]; rewrite <- D, startsWith_app; reflexivity.
Qed.

Lemma no_section_no_news_witness :
  extractNews (js "- Key News: a long line about nothing in particular") = [].
Proof. apply no_section_no_news. vm_compute. reflexivity. Defined.

(** ** The notes of a score *)

Section Notes.

Variable h : Host.

Ltac note_cases :=
  cbv beta iota delta [bind bonus award push ret fst snd clamp Date_now
                       w_ticks w_notes];
  repeat match goal with
         | |- context [if ?b then _ else _] => destruct b
         | |- context [match ?o with Some _ => _ | None => _ end] => destruct o
         end;
  (first [ exists []; split; [symmetry; apply app_nil_r|]
         | eexists; split; [rewrite <- ?app_assoc; reflexivity|] ]);
  let H := fresh "H" in
  split; intro H;
  first [ reflexivity | discriminate H | exfalso; vm_compute in H; discriminate H ].

(** Each scorer adds notes exactly when it leaves its base score. *)
Lemma usefulness_notes (r : ToolResearch) (w : World) :
  exists added,
    w_notes (snd (calculateUsefulnessScore r w)) = w_notes w ++ added
    /\ (added = [] <-> fst (calculateUsefulnessScore r w) = 50).
Proof. unfold calculateUsefulnessScore. destruct w as [n k]. cbv zeta. note_cases. Qed.

Lemma quality_notes (r : ToolResearch) (w : World) :
  exists added,
    w_notes (snd (calculateQualityScore h r w)) = w_notes w ++ added
    /\ (added = [] <-> fst (calculateQualityScore h r w) = 30).
Proof. unfold calculateQualityScore. destruct w as [n k]. cbv zeta. note_cases. Qed.

Lemma momentum_notes (r : ToolResearch) (w : World) :
  exists added,
    w_notes (snd (calculateMomentumScore h r w)) = w_notes w ++ added
    /\ (added = [] <-> fst (calculateMomentumScore h r w) = 40).
Proof. unfold calculateMomentumScore. destruct w as [n k]. cbv zeta. note_cases. Qed.

Lemma innovative_loop_notes (text : jsstring) (terms : list jsstring)
    (score : Z) (w : World) :
  exists added,
    w_notes (snd (innovative_loop text terms score w)) = w_notes w ++ added
    /\ (added = [] <-> fst (innovative_loop text terms score w) = score).
Proof.
  induction terms as [|term more IH]; cbn [innovative_loop].
  - exists []. split; [symmetry; apply app_nil_r|]. split; reflexivity.
  - destruct (includes text term); [|exact IH].
    eexists. split; [reflexivity|]. cbn [fst award bind push ret].
    split; intro H; [discriminate H|lia].
Qed.

Lemma innovation_notes (r : ToolResearch) (w : World) :
  exists added,
    w_notes (snd (calculateInnovationScore r w)) = w_notes w ++ added
    /\ (added = [] <-> fst (calculateInnovationScore r w) = 50).
Proof.
  unfold calculateInnovationScore, bind.
  set (text := toLowerCase _).
  destruct (innovative_loop_notes text innovativeTerms 50 w) as (a & Na & Ba).
  pose proof (innovative_loop_fst text innovativeTerms 50 w) as F.
  destruct (innovative_loop text innovativeTerms 50 w) as [s w1].
  cbn [fst snd] in Na, Ba, F.
  destruct w1 as [n1 k1]. cbn [w_notes] in Na. subst n1.
  set (ai := includes text (js "ai") || includes text (js "llm")
             || includes text (js "agent")).
  destruct ai; cbn [bonus award bind push ret fst snd w_notes w_ticks].
  - exists (a ++ [js "AI/LLM related (+10)"]).
    split; [symmetry; apply app_assoc|].
    split; intro H.
    + apply app_eq_nil in H. destruct H as [_ H]. discriminate H.
    + exfalso. destruct (existsb (includes text) innovativeTerms); subst s;
        vm_compute in H; discriminate H.
  - exists a. split; [reflexivity|]. rewrite Ba.
    destruct (existsb (includes text) innovativeTerms); subst s;
      split; intro H; try reflexivity; vm_compute in H; discriminate H.
Qed.

(** The notes and the four scores of scoreTool. *)
Lemma scoreTool_notes (r : ToolResearch) :
  let s := scoreTool h r in
  notes s = []
  <-> usefulnessScore s = 50 /\ qualityScore s = 30
      /\ innovationScore s = 50 /\ momentumScore s = 40.
Proof.
  unfold scoreTool, scoreTool_M, bind.
  destruct (usefulness_notes r (mkWorld [] 0)) as (a1 & N1 & B1).
  destruct (calculateUsefulnessScore r (mkWorld [] 0)) as [u w2].
  destruct (quality_notes r w2) as (a2 & N2 & B2).
  destruct (calculateQualityScore h r w2) as [q w3].
  destruct (innovation_notes r w3) as (a3 & N3 & B3).
  destruct (calculateInnovationScore r w3) as [i w4].
  destruct (momentum_notes r w4) as (a4 & N4 & B4).
  destruct (calculateMomentumScore h r w4) as [mo w5].
  cbn [fst snd w_notes] in *.
  unfold Date_now. cbn [fst snd notes usefulnessScore qualityScore
                        innovationScore momentumScore w_notes].
  rewrite N4, N3, N2, N1. cbn [app].
  rewrite <- B1, <- B2, <- B3, <- B4. split.
  - intro H. apply app_eq_nil in H. destruct H as [H H4].
    apply app_eq_nil in H. destruct H as [H H3].
    apply app_eq_nil in H. destruct H as [H1 H2]. repeat split; assumption.
  - intros (-> & -> & -> & ->). reflexivity.
Qed.

End Notes.

Lemma base_or_more (v base : Z) (l : list Z) :
  forallb (fun x => (x =? base) || (base + 5 <=? x)) l = true ->
  mem v l = true -> v = base \/ base + 5 <= v.
Proof.
  intros H Hv. apply mem_In in Hv. rewrite forallb_forall in H.
  specialize (H v Hv). apply orb_true_iff in H. destruct H as [H|H].
  - left. apply Z.eqb_eq. exact H.
  - right. apply Z.leb_le. exact H.
Qed.

(** X16. A score has no notes exactly when every dimension is at its base,
    and exactly when its total is 42, the lowest total there is. *)
Theorem notes_empty_iff_base (h : Host) (r : ToolResearch) :
  let s := scoreTool h r in
  (notes s = []
   <-> usefulnessScore s = 50 /\ qualityScore s = 30
       /\ innovationScore s = 50 /\ momentumScore s = 40)
  /\ (notes s = [] <-> totalScore s = 42).
Proof.
  cbv zeta. pose proof (scoreTool_notes h r) as N. cbv zeta in N.
  split; [exact N|]. rewrite N.
  destruct (scoreTool_parts h r) as (w1 & w2 & w3 & w4 & Hu & Hq & Hi & Hm & Ht & _).
  cbv zeta in *.
  pose proof (usefulness_mem r w1) as Mu. rewrite <- Hu in Mu.
  pose proof (quality_mem h r w2) as Mq. rewrite <- Hq in Mq.
  pose proof (innovation_mem r w3) as Mi. rewrite <- Hi in Mi.
  pose proof (momentum_mem h r w4) as Mm. rewrite <- Hm in Mm.
  rewrite Ht, (totals_exact_spec _ _ _ _ Mu Mq Mi Mm).
  apply (@base_or_more _ 50 usefulness_values eq_refl) in Mu.
  apply (@base_or_more _ 30 quality_values eq_refl) in Mq.
  apply (@base_or_more _ 50 innovation_values eq_refl) in Mi.
  apply (@base_or_more _ 40 momentum_values eq_refl) in Mm.
  unfold exact_total. split.
  - intros (-> & -> & -> & ->). reflexivity.
  - intro H.
    assert (B : 420 <= 3 * usefulnessScore (scoreTool h r)
                       + 3 * qualityScore (scoreTool h r)
                       + 2 * innovationScore (scoreTool h r)
                       + 2 * momentumScore (scoreTool h r) + 5 < 430).
    { set (x := 3 * _ + 3 * _ + 2 * _ + 2 * _ + 5) in *.
      pose proof (Z.div_mod x 10 ltac:(lia)) as D.
      pose proof (Z.mod_pos_bound x 10 ltac:(lia)) as P. lia. }
    lia.
Qed.

(** ** The owner and the repository of an address *)

Lemma split_pieces (sep : codeunit) (s : jsstring) :
  Forall (fun piece => forallb (fun c => negb (c =? sep)%N) piece = true)
    (split sep s).
Proof.
  induction s as [|c t IH]; cbn [split].
  - constructor; [reflexivity|constructor].
  - destruct (c =? sep)%N eqn:E.
    + constructor; [reflexivity|exact IH].
    + destruct (split sep t) as [|l ls].
      * constructor; [|constructor]. cbn [forallb]. rewrite E. reflexivity.
      * inversion IH as [|? ? Hl Hls]; subst.
        constructor; [|exact Hls]. cbn [forallb]. rewrite E, Hl. reflexivity.
Qed.

(** A pattern that ends with the anchor of the end leaves nothing after
    its match. *)
Lemma matcher_end_rest (n : nat) (r : regex) :
  ends_with_eol r = true ->
  forall x c z,
    matcher n r x c = Some z -> exists y, c y = Some z /\ rest y = [].
Proof.
  induction r as [|p|a IHa b IHb|a IHa b IHb|g a IHa|g a IHa|i a IHa| | |a IHa];
    intro HE; try discriminate; intros x c z H; cbn [matcher] in H.
  - apply matcher_answer in H. destruct H as (y & Hy & _).
    exact (IHb HE _ _ _ Hy).
  - destruct (rest x) eqn:E; [|discriminate]. exists x. split; assumption.
Qed.

Lemma search_end_after (n : nat) (r : regex) (s pre : jsstring)
    (res : MatchResult) :
  ends_with_eol r = true -> search n r pre s = Some res -> after res = [].
Proof.
  intro HE. revert pre res. induction s as [|ch t IH]; intros pre res H;
    rewrite search_eq in H;
    match type of H with
    | context [matcher n r (mkState ?s0 []) Some] =>
        destruct (matcher n r (mkState s0 []) Some) as [y|] eqn:E
    end; try discriminate.
  - apply (@matcher_end_rest n r HE) in E. destruct E as (y' & Hy & Hr).
    injection Hy as ->. injection H as <-. exact Hr.
  - apply (@matcher_end_rest n r HE) in E. destruct E as (y' & Hy & Hr).
    injection Hy as ->. injection H as <-. exact Hr.
  - apply IH in H. exact H.
Qed.

(** Removing the match of a pattern that ends with the anchor of the end
    leaves a beginning of the text. *)
Lemma replace1_end (r : regex) (s : jsstring) :
  ends_with_eol r = true -> exists more, s = replace1 r [] s ++ more.
Proof.
  intro HE. unfold replace1.
  destruct (exec r s) as [res|] eqn:E.
  - pose proof (@search_end_after _ r s [] res HE E) as A.
    apply exec_words in E. destruct E as [Es _].
    rewrite A, app_nil_r in Es. rewrite A, app_nil_r. cbn [app].
    exists (matched res). exact Es.
  - exists []. symmetry. apply app_nil_r.
Qed.

Lemma split_app_sep (sep : codeunit) (a b : jsstring) :
  forallb (fun c => negb (c =? sep)%N) a = true ->
  split sep (a ++ sep :: b) = a :: split sep b.
Proof.
  induction a as [|c a IH]; intro H; cbn [app split].
  - rewrite N.eqb_refl. reflexivity.
  - cbn [forallb] in H. apply andb_true_iff in H. destruct H as [Hc Ha].
    apply negb_true_iff in Hc. rewrite Hc, (IH Ha). reflexivity.
Qed.

Lemma split_no_sep (sep : codeunit) (a : jsstring) :
  forallb (fun c => negb (c =? sep)%N) a = true -> split sep a = [a].
Proof.
  induction a as [|c a IH]; intro H; cbn [split]; [reflexivity|].
  cbn [forallb] in H. apply andb_true_iff in H. destruct H as [Hc Ha].
  apply negb_true_iff in Hc. rewrite Hc, (IH Ha). reflexivity.
Qed.

Lemma prefix_cases (a b x y : jsstring) (c : codeunit) :
  x ++ y = a ++ c :: b ->
  (exists a2, a = x ++ a2) \/ (exists b1, x = a ++ c :: b1 /\ b = b1 ++ y).
Proof.
  revert x. induction a as [|d a IH]; intros x E.
  - destruct x as [|e x].
    + left. exists []. reflexivity.
    + right. cbn [app] in E. injection E as -> E. exists x. split; [reflexivity|].
      symmetry. exact E.
  - destruct x as [|e x].
    + left. exists (d :: a). reflexivity.
    + cbn [app] in E. injection E as -> E. destruct (IH x E) as [(a2 & ->)|(b1 & -> & ->)].
      * left. exists a2. reflexivity.
      * right. exists b1. split; reflexivity.
Qed.

(** X17. When the first step of fetchGitHubData succeeds, the owner and the
    repository that go into the path of the request are not empty and
    have no slash, and the repository has no white space. *)
Theorem parsed_repo_parts (repoUrl owner repo : jsstring) :
  parse_repoUrl repoUrl = Repo owner repo ->
  owner <> [] /\ repo <> []
  /\ forallb not_slash owner = true
  /\ forallb not_slash_space repo = true.
Proof.
  unfold parse_repoUrl. cbv zeta.
  destruct (exec repoPattern repoUrl) as [m|] eqn:E; [|discriminate].
  apply (@exec_last_group repoPattern 1 _ repoUrl m eq_refl) in E.
  cbn [lang Plus] in E.
  destruct E as (w1 & w2 & Ew & (a1 & a2 & -> & (c1 & -> & H1) & Ha)
                 & (w3 & w4 & -> & (c0 & -> & H0)
                    & (b1 & b2 & -> & (c2 & -> & H2) & Hb))).
  apply star_class_words in Ha, Hb.
  unfold just in H0. apply N.eqb_eq in H0. subst c0.
  set (a := c1 :: a2) in *. set (b := c2 :: b2) in *.
  assert (Na : forallb (fun c => negb (c =? cu "/")%N) a = true)
    by (subst a; cbn [forallb]; apply andb_true_iff; split; assumption).
  assert (Nb : forallb not_slash_space b = true)
    by (subst b; cbn [forallb]; apply andb_true_iff; split; assumption).
  assert (Ec : capture 1 m = a ++ cu "/" :: b) by exact Ew.
  rewrite Ec. clear Ec Ew.
  set (s1 := replace1 gitSuffix [] (a ++ cu "/" :: b)).
  destruct (@replace1_end gitSuffix (a ++ cu "/" :: b) eq_refl) as (m1 & E1).
  fold s1 in E1.
  destruct (@replace1_end fragment s1 eq_refl) as (m2 & E2).
  set (s2 := replace1 fragment [] s1) in *.
  assert (E3 : s2 ++ (m2 ++ m1) = a ++ cu "/" :: b)
    by (rewrite app_assoc, <- E2, <- E1; reflexivity).
  destruct (@prefix_cases _ _ _ _ _ E3) as [(a3 & Ea)|(b3 & Es & Eb)].
  - (* the slash was removed: no second piece *)
    assert (N2 : forallb (fun c => negb (c =? cu "/")%N) s2 = true).
    { rewrite Ea, forallb_app in Na. apply andb_true_iff in Na. exact (proj1 Na). }
    rewrite (@split_no_sep _ _ N2). discriminate.
  - rewrite Es, (@split_app_sep _ _ _ Na).
    assert (N3 : forallb not_slash_space b3 = true).
    { rewrite Eb, forallb_app in Nb. apply andb_true_iff in Nb. exact (proj1 Nb). }
    assert (N4 : forallb (fun c => negb (c =? cu "/")%N) b3 = true).
    { revert N3. apply forallb_imp. intros c Hc. unfold not_slash_space in Hc.
      apply negb_true_iff, orb_false_iff in Hc. destruct Hc as [Hc _].
      unfold just in Hc. rewrite Hc. reflexivity. }
    rewrite (@split_no_sep _ _ N4).
    destruct a as [|x a']; [discriminate|]. destruct b3 as [|y b3'].
    + cbn [truthy negb orb]. discriminate.
    + cbn [truthy negb orb]. intro H. injection H as <- <-.
      repeat split; try discriminate; assumption.
Qed.

Lemma parsed_repo_parts_witness :
  js "acme" <> [] /\ js "tool" <> []
  /\ forallb not_slash (js "acme") = true
  /\ forallb not_slash_space (js "tool") = true.
Proof.
  apply (parsed_repo_parts (js "https://GitHub.com/acme/tool.git")).
  vm_compute. reflexivity.
Defined.

(** ** From the address that research builds to the request *)

Lemma unique_occurrence (d : codeunit) (x1 y1 x2 y2 : jsstring) :
  forallb (fun c => negb (c =? d)%N) x1 = true ->
  forallb (fun c => negb (c =? d)%N) y1 = true ->
  x1 ++ d :: y1 = x2 ++ d :: y2 -> x1 = x2 /\ y1 = y2.
Proof.
  intros Hx Hy. revert x2. induction x1 as [|c x1 IH]; intros x2 E.
  - destruct x2 as [|e x2]; cbn [app] in E.
    + injection E as E. split; [reflexivity|exact E].
    + injection E as <- E. exfalso. rewrite E, forallb_app in Hy.
      apply andb_true_iff in Hy. destruct Hy as [_ Hy].
      cbn [forallb] in Hy. rewrite N.eqb_refl in Hy. discriminate.
  - cbn [forallb] in Hx. apply andb_true_iff in Hx. destruct Hx as [Hc Hx].
    destruct x2 as [|e x2]; cbn [app] in E.
    + injection E as -> _. rewrite N.eqb_refl in Hc. discriminate.
    + injection E as <- E. destruct (IH Hx x2 E) as [-> ->].
      split; reflexivity.
Qed.

Lemma first_occurrence (d : codeunit) (x1 y1 x2 y2 : jsstring) :
  forallb (fun c => negb (c =? d)%N) x1 = true ->
  forallb (fun c => negb (c =? d)%N) x2 = true ->
  x1 ++ d :: y1 = x2 ++ d :: y2 -> x1 = x2 /\ y1 = y2.
Proof.
  intros H1. revert x2. induction x1 as [|c x1 IH]; intros x2 H2 E.
  - destruct x2 as [|e x2]; cbn [app] in E.
    + injection E as E. split; [reflexivity|exact E].
    + injection E as <- _. cbn [forallb] in H2. rewrite N.eqb_refl in H2.
      discriminate.
  - cbn [forallb] in H1. apply andb_true_iff in H1. destruct H1 as [Hc H1].
    destruct x2 as [|e x2]; cbn [app] in E.
    + injection E as -> _. rewrite N.eqb_refl in Hc. discriminate.
    + injection E as <- E.
      cbn [forallb] in H2. apply andb_true_iff in H2. destruct H2 as [_ H2].
      destruct (IH H1 x2 H2 E) as [-> ->]. split; reflexivity.
Qed.

Lemma repo_name_no_sign (d : codeunit) (w : jsstring) :
  repo_name_unit d = false ->
  forallb repo_name_unit w = true ->
  forallb (fun c => negb (c =? d)%N) w = true.
Proof.
  intros Hd. apply forallb_imp. intros c Hc.
  destruct (c =? d)%N eqn:E; [|reflexivity].
  apply N.eqb_eq in E. subst c. rewrite Hd in Hc. discriminate.
Qed.

(** A match of the repository pattern in an address that research built:
    the owner and the repository are not empty. *)
Lemma repoPattern_built (owner repo : jsstring) (res : MatchResult) :
  forallb repo_name_unit owner = true ->
  forallb repo_name_unit repo = true ->
  exec repoPattern (js "https://github.com/" ++ owner ++ cu "/" :: repo)
  = Some res ->
  owner <> [] /\ repo <> [].
Proof.
  intros Ho Hr E. apply exec_words in E. destruct E as [Es Hl].
  cbn [lang repoPattern lit_i lit_with Plus] in Hl.
  destruct Hl as
    (g & w & Em
     & (g1 & t1 & -> & (c1 & -> & _)
        & (g2 & t2 & -> & (c2 & -> & _)
        & (g3 & t3 & -> & (c3 & -> & _)
        & (g4 & t4 & -> & (c4 & -> & _)
        & (g5 & t5 & -> & (c5 & -> & _)
        & (g6 & t6 & -> & (c6 & -> & _)
        & (g7 & t7 & -> & (c7 & -> & H7)
        & (g8 & t8 & -> & (c8 & -> & _)
        & (g9 & t9 & -> & (c9 & -> & _)
        & (g10 & t10 & -> & (c10 & -> & _) & (c11 & -> & H11)))))))))))
     & (a & w2 & -> & (a1 & a2 & -> & (d1 & -> & Hd1) & Ha)
        & (w3 & b & -> & (c0 & -> & H0) & (b1 & b2 & -> & (e1 & -> & He1) & Hb)))).
  apply star_class_words in Ha.
  letter H7. letter H11. subst c7 c11.
  unfold just in H0. apply N.eqb_eq in H0. subst c0.
  rewrite Em in Es. clear Em.
  assert (Dt : forallb (fun c => negb (c =? cu ".")%N)
                 (js "com/" ++ owner ++ cu "/" :: repo) = true).
  { rewrite forallb_app. apply andb_true_iff. split; [reflexivity|].
    rewrite forallb_app. apply andb_true_iff. split.
    - apply repo_name_no_sign; [reflexivity|exact Ho].
    - cbn [forallb]. apply andb_true_iff. split; [reflexivity|].
      apply repo_name_no_sign; [reflexivity|exact Hr]. }
  assert (E1 : js "https://github" ++ cu "." :: (js "com/" ++ owner ++ cu "/" :: repo)
               = (before res ++ [c1; c2; c3; c4; c5; c6])
                 ++ cu "." :: ([c8; c9; c10; cu "/"]
                               ++ (d1 :: a2) ++ cu "/" :: (e1 :: b2) ++ after res)).
  { etransitivity; [exact Es|]. rewrite <- !app_assoc. reflexivity. }
  apply unique_occurrence in E1; [|reflexivity|exact Dt].
  destruct E1 as [_ E1]. cbn [app js map list_ascii_of_string] in E1.
  injection E1 as _ _ _ E1.
  assert (Sa : forallb (fun c => negb (c =? cu "/")%N) (d1 :: a2) = true).
  { cbn [forallb]. apply andb_true_iff. split; [exact Hd1|exact Ha]. }
  assert (So : forallb (fun c => negb (c =? cu "/")%N) owner = true)
    by (apply repo_name_no_sign; [reflexivity|exact Ho]).
  change (owner ++ cu "/" :: repo
          = (d1 :: a2) ++ cu "/" :: (e1 :: b2 ++ after res)) in E1.
  apply first_occurrence in E1; [|exact So|exact Sa].
  destruct E1 as [-> ->]. split; discriminate.
Qed.

Lemma search_skip (n : nat) (a : codeunit -> bool) (A B : regex)
    (p s pre : jsstring) :
  forallb (fun c => negb (a c)) p = true ->
  search n (Seq (Seq (Chr a) A) B) pre (p ++ s)
  = search n (Seq (Seq (Chr a) A) B) (rev p ++ pre) s.
Proof.
  revert pre. induction p as [|c p IH]; intros pre H; [reflexivity|].
  cbn [forallb] in H. apply andb_true_iff in H. destruct H as [Hc Hp].
  apply negb_true_iff in Hc.
  cbn [app]. rewrite search_eq. cbn [matcher rest]. rewrite Hc.
  rewrite (IH (c :: pre) Hp). cbn [rev]. rewrite <- app_assoc. reflexivity.
Qed.

(** A run of literal units under the i flag matches itself. *)
Lemma matcher_lit_i (n : nat) (s : string) (t : jsstring)
    (cs : list (nat * jsstring)) (c : MatchState -> option MatchState) :
  s <> EmptyString ->
  matcher n (lit_i s) (mkState (js s ++ t) cs) c = c (mkState t cs).
Proof.
  induction s as [|a s IH] in t, c |- *; intro Hne; [contradiction|].
  assert (Ja : just_i a (cu a) = true)
    by (unfold just_i; rewrite N.eqb_refl; reflexivity).
  change (js (String a s)) with (cu a :: js s).
  destruct s as [|b s].
  - cbn [lit_i lit_with matcher rest caps app js map list_ascii_of_string].
    rewrite Ja. reflexivity.
  - change (lit_i (String a (String b s)))
      with (Seq (Chr (just_i a)) (lit_i (String b s))).
    cbn [matcher rest caps app]. rewrite Ja.
    apply IH. discriminate.
Qed.

Lemma dropWhile_all (p : codeunit -> bool) (s : jsstring) :
  forallb p s = true -> dropWhile p s = [].
Proof.
  induction s as [|c t IH]; intro H; [reflexivity|].
  cbn [forallb] in H. apply andb_true_iff in H. destruct H as [Hc Ht].
  cbn [dropWhile]. rewrite Hc. apply IH. exact Ht.
Qed.

Lemma repo_name_not_slash_space (c : codeunit) :
  repo_name_unit c = true -> not_slash_space c = true.
Proof.
  intro H. unfold not_slash_space. apply negb_true_iff. apply orb_false_iff.
  unfold repo_name_unit in H. apply orb_true_iff in H.
  destruct H as [H|H].
  - split.
    + unfold just. apply N.eqb_neq. intros ->. discriminate H.
    + pose proof (word_not_space _ H) as S. unfold not_space in S.
      apply negb_true_iff in S. exact S.
  - unfold just in H. apply N.eqb_eq in H. subst c. split; reflexivity.
Qed.

(** The match of the repository pattern in an address that research
    built with an owner and a repository. *)
Lemma exec_repoPattern_built (o0 r0 : codeunit) (o r : jsstring) :
  forallb repo_name_unit (o0 :: o) = true ->
  forallb repo_name_unit (r0 :: r) = true ->
  exists res,
    exec repoPattern (js "https://github.com/" ++ (o0 :: o) ++ cu "/" :: r0 :: r)
    = Some res
    /\ capture 1 res = (o0 :: o) ++ cu "/" :: r0 :: r.
Proof.
  intros Ho Hr.
  assert (So : forallb not_slash (o0 :: o) = true).
  { revert Ho. apply forallb_imp. intros c Hc.
    apply repo_name_not_slash_space in Hc. unfold not_slash_space in Hc.
    apply negb_true_iff, orb_false_iff in Hc. unfold not_slash.
    rewrite (proj1 Hc). reflexivity. }
  assert (Sr : forallb not_slash_space (r0 :: r) = true)
    by (revert Hr; apply forallb_imp; exact repo_name_not_slash_space).
  cbn [forallb] in So, Sr.
  apply andb_true_iff in So, Sr. destruct So as [So0 So], Sr as [Sr0 Sr].
  set (tail := (o0 :: o) ++ cu "/" :: r0 :: r).
  unfold exec. set (n := length _).
  change (js "https://github.com/" ++ tail)
    with (js "https://" ++ (js "github.com/" ++ tail)).
  change repoPattern
    with (Seq (Seq (Chr (just_i "g")) (lit_i "ithub.com/"))
            (Group 1 (Plus true (Chr not_slash) ~> Chr (just "/") ~>
                      Plus true (Chr not_slash_space)))%re).
  rewrite search_skip by reflexivity.
  rewrite search_eq.
  change (Seq (Seq (Chr (just_i "g")) (lit_i "ithub.com/"))
            (Group 1 (Plus true (Chr not_slash) ~> Chr (just "/") ~>
                      Plus true (Chr not_slash_space)))%re)
    with (Seq (lit_i "github.com/")
            (Group 1 (Seq (Plus true (Chr not_slash))
                        (Seq (Chr (just "/")) (Plus true (Chr not_slash_space)))))).
  cbn [matcher]. rewrite matcher_lit_i by discriminate.
  change (matcher n (Plus true (Chr not_slash)) ?x ?k)
    with (matcher n (Plus true (Chr not_slash)) x k).
  unfold tail at 1. cbn [app].
  rewrite matcher_plus_class, So0.
  set (K := fun y : MatchState => _).
  assert (E : star_run not_slash K [] (o ++ cu "/" :: r0 :: r)
              = Some (mkState [] [(1%nat, tail)])).
  { apply star_run_prefix; [exact So|].
    rewrite star_run_stop by reflexivity.
    subst K. cbn [matcher rest caps]. change (just "/" (cu "/")) with true.
    cbn iota. rewrite matcher_plus_class, Sr0.
    rewrite star_run_greedy by discriminate.
    rewrite (dropWhile_all _ _ Sr). cbn [rest caps length drop_caps filter].
    rewrite Nat.sub_0_r. fold tail. rewrite firstn_all. reflexivity. }
  rewrite E. eexists. split; [reflexivity|]. reflexivity.
Qed.

Lemma replace1_no_head (p : codeunit -> bool) (A : regex) (s : jsstring) :
  forallb (fun c => negb (p c)) s = true ->
  (forall w, lang A w -> exists c w', w = c :: w' /\ p c = true) ->
  replace1 A [] s = s.
Proof.
  intros Hs HA. unfold replace1.
  destruct (exec A s) as [res|] eqn:E; [|reflexivity].
  exfalso. apply exec_words in E. destruct E as [Es Hl].
  destruct (HA _ Hl) as (c & w' & Ew & Hc).
  rewrite Es, Ew, forallb_app in Hs. apply andb_true_iff in Hs.
  destruct Hs as [_ Hs]. cbn [app forallb] in Hs. rewrite Hc in Hs. discriminate.
Qed.

Lemma built_url_parsed (owner repo : jsstring) :
  forallb repo_name_unit owner = true ->
  forallb repo_name_unit repo = true ->
  parse_repoUrl (js "https://github.com/" ++ owner ++ cu "/" :: repo)
  = match owner, repo with
    | _ :: _, _ :: _ => Repo owner repo
    | _, _ => Invalid_GitHub_URL
    end.
Proof.
  intros Ho Hr.
  assert (Inv : owner = [] \/ repo = [] ->
                parse_repoUrl (js "https://github.com/" ++ owner ++ cu "/" :: repo)
                = Invalid_GitHub_URL).
  { intro Hz. unfold parse_repoUrl.
    destruct (exec repoPattern _) as [res|] eqn:E; [|reflexivity].
    exfalso. destruct (repoPattern_built _ _ Ho Hr E) as [N1 N2].
    destruct Hz; contradiction. }
  destruct owner as [|o0 o]; [apply Inv; left; reflexivity|].
  destruct repo as [|r0 r]; [apply Inv; right; reflexivity|].
  clear Inv.
  destruct (@exec_repoPattern_built o0 r0 o r Ho Hr) as (res & E & Ec).
  unfold parse_repoUrl. rewrite E. cbv zeta. rewrite Ec.
  set (s := (o0 :: o) ++ cu "/" :: r0 :: r).
  assert (Nd : forallb (fun c => negb (just "." c)) s = true).
  { subst s. rewrite forallb_app. apply andb_true_iff. split.
    - apply (repo_name_no_sign (cu ".")); [reflexivity|exact Ho].
    - change (forallb (fun c => negb (c =? cu ".")%N) (cu "/" :: r0 :: r) = true).
      cbn [forallb]. apply andb_true_iff. split; [reflexivity|].
      apply (repo_name_no_sign (cu ".") (r0 :: r)); [reflexivity|exact Hr]. }
  assert (Nf : forallb (fun c => negb (any_of [cu "#"; cu "?"] c)) s = true).
  { assert (F : forall w, forallb repo_name_unit w = true ->
                  forallb (fun c => negb (any_of [cu "#"; cu "?"] c)) w = true).
    { intro w. apply forallb_imp. intros c Hc.
      unfold any_of. cbn [existsb]. rewrite orb_false_r.
      apply negb_true_iff. apply orb_false_iff. split; apply N.eqb_neq;
        intros ->; discriminate Hc. }
    subst s. rewrite forallb_app. apply andb_true_iff. split; [exact (F _ Ho)|].
    cbn [forallb]. apply andb_true_iff. split; [reflexivity|exact (F _ Hr)]. }
  rewrite (@replace1_no_head (just ".") gitSuffix s Nd).
  2:{ intros w Hw. cbn [lang gitSuffix lit lit_with] in Hw.
      destruct Hw as (w1 & w2 & -> & (v1 & v2 & -> & (c & -> & Hc) & _) & _).
      exists c. eexists. split; [reflexivity|exact Hc]. }
  rewrite (@replace1_no_head (any_of [cu "#"; cu "?"]) fragment s Nf).
  2:{ intros w Hw. cbn [lang fragment] in Hw.
      destruct Hw as (w1 & w2 & -> & (c & -> & Hc) & _).
      exists c. eexists. split; [reflexivity|exact Hc]. }
  subst s.
  rewrite split_app_sep
    by (apply (repo_name_no_sign (cu "/")); [reflexivity|exact Ho]).
  rewrite split_no_sep
    by (apply (repo_name_no_sign (cu "/") (r0 :: r)); [reflexivity|exact Hr]).
  reflexivity.
Qed.

(** X18. The address that extractGitHubUrl builds from a text is read back by
    the first step of fetchGitHubData as the same owner and repository;
    when the owner or the repository came out empty, it is refused as an
    invalid address. *)
Theorem research_url_parses_back (t : Tool) (u : jsstring) :
  extractGitHubUrl t = Some u -> githubUrl t <> Some u ->
  exists owner repo,
    u = js "https://github.com/" ++ owner ++ cu "/" :: repo
    /\ parse_repoUrl u
       = match owner, repo with
         | _ :: _, _ :: _ => Repo owner repo
         | _, _ => Invalid_GitHub_URL
         end.
Proof.
  unfold extractGitHubUrl. cbv zeta.
  destruct (truthy (githubUrl t) && includes (opt_text (githubUrl t)) (js "github.com/")).
  - intros H Hn. contradiction.
  - set (text := description t ++ _).
    destruct (exec githubInText text) as [m|] eqn:E; [|discriminate].
    intros H _. injection H as <-.
    destruct (text_url_shape _ E) as (owner & repo & -> & Ho & Hr).
    exists owner, repo. split; [reflexivity|].
    apply built_url_parsed; assumption.
Qed.

Lemma research_url_parses_back_witness :
  exists owner repo,
    js "https://github.com/acme/my-tool"
    = js "https://github.com/" ++ owner ++ cu "/" :: repo
    /\ parse_repoUrl (js "https://github.com/acme/my-tool")
       = match owner, repo with
         | _ :: _, _ :: _ => Repo owner repo
         | _, _ => Invalid_GitHub_URL
         end.
Proof.
  apply (research_url_parses_back
           (mkTool [] [] (js "see GitHub.com/acme/my-tool.") None None None
              other [])).
  - vm_compute. reflexivity.
  - discriminate.
Defined.

(** ** The bullet lines of a news section *)
















(** ** The extent of the news section *)














(** Outside that form the summary is not the text of the line: a dash
    inside the text is taken for the marker of another bullet, so the
    text is cut in pieces and the pieces that are long enough become the
    items. *)
Lemma dash_cuts_the_text :
  extractNews
    (news_section [] [dash_bullet "GPT-4 rival: open-source model lands today"]
       None)
  = [item_of (js "source model lands today")].
Proof. vm_compute. reflexivity. Qed.

(** And the text 2. inside a bullet ends the section there. *)
Lemma next_inside_text_ends_section :
  extractNews
    (news_section []
       [dash_bullet "Claude ships version 2.0 of the agent toolkit today"]
       None)
  = [].
Proof. vm_compute. reflexivity. Qed.
